(** * Giveaway bot: the lifecycle engine of [bot.py], embedded and verified

    The SQLite database of [bot.py] is a record of tables; every helper that
    opens a connection, runs its statements and commits is a function from
    the database to the database.  A helper whose statement raises before
    its commit leaves the database as it was and is modelled with [option].
    The two sources of non-determinism are explicit: the iteration order of
    a Python [set] is an interface ([SetOrder]), and the draws consumed by
    [random.sample] are an argument. *)

From Stdlib Require Import ZArith Lia.
From stdpp Require Import base option list sorting gmap strings.

Local Open Scope Z_scope.

(** ** Data model *)

(** [status: str  # "running" | "ended"] *)
Inductive Status := running | ended.

#[global] Instance Status_eq_dec : EqDecision Status.
Proof. solve_decision. Defined.

(** The [Giveaway] dataclass; [ends_at] is a timestamp in seconds. *)
Record Giveaway := mkGiveaway {
  id : Z;
  guild_id : Z;
  channel_id : Z;
  message_id : option Z;
  host_id : Z;
  prize : string;
  winners_count : Z;
  ends_at : Z;
  status : Status
}.

#[global] Instance Giveaway_eq_dec : EqDecision Giveaway.
Proof. solve_decision. Defined.

(** The tables of [init_db].  Rows of [entrants] and [winners] are
    [(giveaway_id, user_id)], rows of [vouches] and [vouch_blocks] are
    [(guild_id, user_id, giveaway_id)]; a list keeps the rows in the order
    they were inserted, which is the order a [SELECT] without [ORDER BY] is
    taken to return them in.  [win_counts] is keyed by its primary key
    [(guild_id, user_id)].  [seq] is the AUTOINCREMENT counter of
    [giveaways]. *)
Record DB := mkDB {
  giveaways : list Giveaway;
  seq : Z;
  entrants : list (Z * Z);
  winners : list (Z * Z);
  win_counts : gmap (Z * Z) Z;
  vouches : list (Z * Z * Z);
  vouch_blocks : list (Z * Z * Z)
}.

Definition empty_db : DB := mkDB [] 0 [] [] ∅ [] [].

Definition with_giveaways (db : DB) (gs : list Giveaway) (s : Z) : DB :=
  mkDB gs s (entrants db) (winners db) (win_counts db) (vouches db) (vouch_blocks db).

Definition with_entrants (db : DB) (es : list (Z * Z)) : DB :=
  mkDB (giveaways db) (seq db) es (winners db) (win_counts db) (vouches db) (vouch_blocks db).

Definition with_winners (db : DB) (ws : list (Z * Z)) : DB :=
  mkDB (giveaways db) (seq db) (entrants db) ws (win_counts db) (vouches db) (vouch_blocks db).

Definition with_win_counts (db : DB) (wc : gmap (Z * Z) Z) : DB :=
  mkDB (giveaways db) (seq db) (entrants db) (winners db) wc (vouches db) (vouch_blocks db).

(** Python's [len]. *)
Definition len {A} (l : list A) : Z := Z.of_nat (length l).

(** ** Python sets and [random.sample] *)

(** [list(set(xs))]: a Python set enumerates its elements once each, in an
    order the language leaves open. *)
Class SetOrder := {
  set_list : list Z → list Z;
  set_list_NoDup xs : NoDup (set_list xs);
  set_list_elem x xs : x ∈ set_list xs ↔ x ∈ xs
}.

(** One order: first occurrences, as inserted. *)
Definition first_seen (xs : list Z) : list Z := reverse (remove_dups (reverse xs)).


Program Definition insertion_order : SetOrder := {| set_list := first_seen |}.
Next Obligation.
  intros xs. unfold first_seen. rewrite reverse_Permutation. apply NoDup_remove_dups.
Qed.
Next Obligation.
  intros x xs. unfold first_seen.
  by rewrite elem_of_reverse, elem_of_remove_dups, elem_of_reverse.
Qed.


(** [random.sample(population, k)] of the standard library: the selection
    loop [j = randbelow(n - i); result[i] = pool[j]; pool[j] = pool[n - i - 1]],
    the live prefix [pool[0 .. n-i)] being the list itself.  The value of the
    [i]-th [randbelow] call is the [i]-th draw, reduced below its bound.
    (Above a size threshold the library remembers the indices it has taken
    instead of copying the population; the samples and their distribution
    are the same.) *)
Fixpoint sample_loop (pool : list Z) (k : nat) (draws : list nat) : list Z :=
  match k with
  | O => []
  | S k' =>
      let n := length pool in
      let j := (hd O draws `mod` n)%nat in
      match pool !! j, last pool with
      | Some x, Some y =>
          x :: sample_loop (take (n - 1) (<[j := y]> pool)) k' (tl draws)
      | _, _ => []
      end
  end.

(** [ValueError] when [k] is negative or larger than the population. *)
Definition random_sample (population : list Z) (k : Z) (draws : list nat)
  : option (list Z) :=
  if bool_decide (0 ≤ k ≤ len population)
  then Some (sample_loop population (Z.to_nat k) draws)
  else None.


(** ** Database helpers *)

Definition giveaway_exists (db : DB) (giveaway_id : Z) : bool :=
  bool_decide (giveaway_id ∈ id <$> giveaways db).

Definition fetch_running_giveaways (db : DB) : list Giveaway :=
  filter (λ g, status g = running) (giveaways db).

Definition set_id (g : Giveaway) (i : Z) : Giveaway :=
  mkGiveaway i (guild_id g) (channel_id g) (message_id g) (host_id g)
    (prize g) (winners_count g) (ends_at g) (status g).

Definition set_message (g : Giveaway) (m : option Z) : Giveaway :=
  mkGiveaway (id g) (guild_id g) (channel_id g) m (host_id g)
    (prize g) (winners_count g) (ends_at g) (status g).

Definition set_status (g : Giveaway) (s : Status) : Giveaway :=
  mkGiveaway (id g) (guild_id g) (channel_id g) (message_id g) (host_id g)
    (prize g) (winners_count g) (ends_at g) s.

(** [INSERT INTO giveaways ...; return cur.lastrowid] *)
Definition insert_giveaway (db : DB) (g : Giveaway) : DB * Z :=
  let new_id := seq db + 1 in
  (with_giveaways db (giveaways db ++ [set_id g new_id]) new_id, new_id).

Definition update_giveaway (f : Giveaway → Giveaway) (db : DB) (giveaway_id : Z) : DB :=
  with_giveaways db
    ((λ g, if bool_decide (id g = giveaway_id) then f g else g) <$> giveaways db)
    (seq db).

Definition set_giveaway_message_id (db : DB) (giveaway_id message : Z) : DB :=
  update_giveaway (λ g, set_message g (Some message)) db giveaway_id.

(** [INSERT OR IGNORE] of one row into a table with that row as primary key. *)
Definition insert_or_ignore {A} `{EqDecision A} (tbl : list A) (row : A) : list A :=
  if bool_decide (row ∈ tbl) then tbl else tbl ++ [row].

(** The foreign key to [giveaways(id)] is enforced; [add_entrant] swallows
    the error ([except Exception: pass]). *)
Definition add_entrant (db : DB) (giveaway_id user_id : Z) : DB :=
  if giveaway_exists db giveaway_id
  then with_entrants db (insert_or_ignore (entrants db) (giveaway_id, user_id))
  else db.

Definition remove_entrant (db : DB) (giveaway_id user_id : Z) : DB :=
  with_entrants db (filter (λ r, r ≠ (giveaway_id, user_id)) (entrants db)).

(** [SELECT user_id FROM <table> WHERE giveaway_id = ?] *)
Definition select_user_id (tbl : list (Z * Z)) (giveaway_id : Z) : list Z :=
  snd <$> filter (λ r, r.1 = giveaway_id) tbl.

Definition get_entrants (db : DB) (giveaway_id : Z) : list Z :=
  select_user_id (entrants db) giveaway_id.

(** [executemany] of [INSERT OR IGNORE INTO winners]; with a row to insert
    and no such giveaway the foreign key raises and nothing is committed. *)
Definition set_winners (db : DB) (giveaway_id : Z) (user_ids : list Z) : option DB :=
  if bool_decide (user_ids = []) || giveaway_exists db giveaway_id
  then Some (with_winners db
               (foldl insert_or_ignore (winners db) (pair giveaway_id <$> user_ids)))
  else None.

Definition get_winners (db : DB) (giveaway_id : Z) : list Z :=
  select_user_id (winners db) giveaway_id.

(** [INSERT INTO win_counts ... VALUES (?, ?, 1)
     ON CONFLICT(guild_id, user_id) DO UPDATE SET wins = wins + 1] *)
Definition upsert_win (guild : Z) (wc : gmap (Z * Z) Z) (uid : Z) : gmap (Z * Z) Z :=
  match wc !! (guild, uid) with
  | Some w => <[(guild, uid) := w + 1]> wc
  | None => <[(guild, uid) := 1]> wc
  end.

Definition increment_win_counts (db : DB) (guild : Z) (user_ids : list Z) : DB :=
  with_win_counts db (foldl (upsert_win guild) (win_counts db) user_ids).

(** [DELETE FROM winners WHERE giveaway_id = ? AND user_id = ?] *)
Definition delete_winner (giveaway_id : Z) (tbl : list (Z * Z)) (uid : Z) : list (Z * Z) :=
  filter (λ r, r ≠ (giveaway_id, uid)) tbl.

Definition remove_winners (db : DB) (giveaway_id : Z) (user_ids : list Z) : DB :=
  with_winners db (foldl (delete_winner giveaway_id) (winners db) user_ids).

(** [UPDATE win_counts SET wins = wins - 1
     WHERE guild_id = ? AND user_id = ? AND wins > 0] *)
Definition dec_win (guild : Z) (wc : gmap (Z * Z) Z) (uid : Z) : gmap (Z * Z) Z :=
  match wc !! (guild, uid) with
  | Some w => if bool_decide (0 < w) then <[(guild, uid) := w - 1]> wc else wc
  | None => wc
  end.

(** [DELETE FROM win_counts WHERE guild_id = ? AND wins <= 0] *)
Definition prune_zero (guild : Z) (wc : gmap (Z * Z) Z) : gmap (Z * Z) Z :=
  filter (λ kv, ¬ (kv.1.1 = guild ∧ kv.2 ≤ 0)) wc.

Definition decrement_win_counts (db : DB) (guild : Z) (user_ids : list Z) : DB :=
  with_win_counts db (prune_zero guild (foldl (dec_win guild) (win_counts db) user_ids)).

(** [add_manual_giveaway_with_winner]: one connection, one commit.  [now] is
    the clock reading stored as [ends_at] of a new row. *)
Definition add_manual_giveaway_with_winner
    (db : DB) (guild : Z) (prize_text : string) (user_id : Z) (now : Z) : DB * Z :=
  let row :=
    head (filter (λ g, guild_id g = guild ∧ prize g = prize_text) (giveaways db)) in
  let '(db1, giveaway_id) :=
    match row with
    | Some r => (db, id r)
    | None => insert_giveaway db (mkGiveaway 0 guild 0 None 0 prize_text 1 now ended)
    end in
  let db2 := with_winners db1 (insert_or_ignore (winners db1) (giveaway_id, user_id)) in
  (with_win_counts db2 (upsert_win guild (win_counts db2) user_id), giveaway_id).

(** [UPDATE giveaways SET status = ? WHERE id = ?] *)
Definition set_giveaway_status (db : DB) (giveaway_id : Z) (s : Status) : DB :=
  update_giveaway (λ g, set_status g s) db giveaway_id.

Definition fetch_giveaway (db : DB) (giveaway_id : Z) : option Giveaway :=
  head (filter (λ g, id g = giveaway_id) (giveaways db)).

(** [delete_giveaway]: one connection, one commit at the end; [False] is
    returned before any statement that writes.  Deleting the giveaway row
    cascades to [entrants], [winners] and [vouches]. *)
Definition delete_giveaway (db : DB) (giveaway_id : Z) : DB * bool :=
  match fetch_giveaway db giveaway_id with
  | None => (db, false)
  | Some row =>
      let guild := guild_id row in
      let winners_ := get_winners db giveaway_id in
      let vs := filter (λ v, v.2 ≠ giveaway_id) (vouches db) in
      let bs := filter (λ v, v.2 ≠ giveaway_id) (vouch_blocks db) in
      let gs := filter (λ g, id g ≠ giveaway_id) (giveaways db) in
      let es := filter (λ r, r.1 ≠ giveaway_id) (entrants db) in
      let ws := filter (λ r, r.1 ≠ giveaway_id) (winners db) in
      let wc := prune_zero guild (foldl (dec_win guild) (win_counts db) winners_) in
      (mkDB gs (seq db) es ws wc vs bs, true)
  end.

(** [ORDER BY g.id DESC] *)
Definition newer_first (a b : Z * string) : Prop := b.1 ≤ a.1.

#[global] Instance newer_first_dec : RelDecision newer_first.
Proof. intros a b. unfold newer_first. apply _. Defined.

(** [user_wins]: the winner rows of the user joined with the giveaways of the
    guild, newest giveaway first; returns the count and the list. *)
Definition user_wins (db : DB) (guild user_id : Z) : Z * list (Z * string) :=
  let rows :=
    g ← giveaways db;
    w ← winners db;
    if bool_decide (id g = w.1 ∧ guild_id g = guild ∧ w.2 = user_id)
    then [(id g, prize g)] else [] in
  let wins_list := merge_sort newer_first rows in
  (len wins_list, wins_list).

(** [adjust_win_for_gw]: one connection, one commit. *)
Definition adjust_win_for_gw (db : DB) (giveaway_id user_id change : Z) : DB * bool :=
  match fetch_giveaway db giveaway_id with
  | None => (db, false)
  | Some row =>
      let guild := guild_id row in
      if bool_decide (change > 0) then
        let db1 := with_winners db (insert_or_ignore (winners db) (giveaway_id, user_id)) in
        (with_win_counts db1 (upsert_win guild (win_counts db1) user_id), true)
      else if bool_decide (change < 0) then
        let db1 := with_winners db (delete_winner giveaway_id (winners db) user_id) in
        (with_win_counts db1 (prune_zero guild (dec_win guild (win_counts db1) user_id)), true)
      else (db, true)
  end.

(** ** The join button *)

Inductive JoinResult :=
| JoinRefused (wins_count vouch_count : Z)
| JoinAlreadyIn
| JoinedNow.

(** [row[0] if row else 0] *)
Definition stored_wins (db : DB) (guild user_id : Z) : Z :=
  default 0 (win_counts db !! (guild, user_id)).

(** [SELECT COUNT( * ) FROM vouches WHERE guild_id = ? AND user_id = ?] *)
Definition vouch_count (db : DB) (guild user_id : Z) : Z :=
  len (filter (λ v, v.1 = (guild, user_id)) (vouches db)).

(** [JoinView.join] *)
Definition join (db : DB) (giveaway_id guild user_id : Z) : DB * JoinResult :=
  let wins_count := stored_wins db guild user_id in
  let vouches_ := vouch_count db guild user_id in
  if bool_decide (wins_count > vouches_) then (db, JoinRefused wins_count vouches_)
  else
    let before := get_entrants db giveaway_id in
    if bool_decide (user_id ∈ before) then (db, JoinAlreadyIn)
    else (add_entrant db giveaway_id user_id, JoinedNow).

(** [JoinView.leave]; [true] when the user was an entrant. *)
Definition leave (db : DB) (giveaway_id user_id : Z) : DB * bool :=
  let before := get_entrants db giveaway_id in
  if bool_decide (user_id ∉ before) then (db, false)
  else (remove_entrant db giveaway_id user_id, true).

(** ** Closing, rerolling and the slash commands *)

Section Engine.
Context {order : SetOrder}.

(** [close_giveaway]: returns the database and the winners it announces.
    [None] is an exception, raised before anything is committed. *)
Definition close_giveaway (db : DB) (g : Giveaway) (draws : list nat)
  : option (DB * list Z) :=
  let entrants_ := get_entrants db (id g) in
  picked ←
    (if bool_decide (entrants_ ≠ []) then
       let pool := set_list entrants_ in
       let k := Z.min (winners_count g) (len pool) in
       winners_ ← random_sample pool k draws;
       db1 ← set_winners db (id g) winners_;
       Some (increment_win_counts db1 (guild_id g) winners_, winners_)
     else Some (db, []));
  Some (set_giveaway_status picked.1 (id g) ended, picked.2).

(** One tick of [scheduler] at time [now]; each due giveaway of the snapshot
    takes the next list of draws, and a failing close is skipped. *)
Definition scheduler (db : DB) (now : Z) (draws : list (list nat)) : DB :=
  (foldl (λ st g,
            if bool_decide (ends_at g ≤ now) then
              (match close_giveaway st.1 g (hd [] st.2) with
               | Some r => r.1
               | None => st.1
               end, tl st.2)
            else st)
         (db, draws) (fetch_running_giveaways db)).1.

(** [GWGroup.start]; [seconds] is the parsed duration, [message] the id of
    the message the giveaway is posted as.  The range of [winners_] is the
    command's [Range[int, 1, 50]]. *)
Definition start (db : DB) (guild channel host : Z) (seconds : option Z)
    (winners_ : Z) (prize_text : string) (now message : Z) : DB * option Z :=
  if bool_decide (1 ≤ winners_ ≤ 50) then
    match seconds with
    | Some s =>
        if bool_decide (s < 10) then (db, None)
        else
          let g := mkGiveaway 0 guild channel None host prize_text winners_
                     (now + s) running in
          let '(db1, gid) := insert_giveaway db g in
          (set_giveaway_message_id db1 gid message, Some gid)
    | None => (db, None)
    end
  else (db, None).

Inductive EndResult :=
| EndNotFound
| EndAlreadyEnded
| EndFailed
| EndDone (announced : list Z).

(** [GWGroup.end] *)
Definition end_ (db : DB) (guild giveaway_id : Z) (draws : list nat) : DB * EndResult :=
  match fetch_giveaway db giveaway_id with
  | None => (db, EndNotFound)
  | Some g =>
      if bool_decide (guild_id g ≠ guild) then (db, EndNotFound)
      else if bool_decide (status g ≠ running) then (db, EndAlreadyEnded)
      else
        match close_giveaway db g draws with
        | Some r => (r.1, EndDone r.2)
        | None => (db, EndFailed)
        end
  end.

Inductive RerollResult :=
| RerollNotFound
| RerollNotEnded
| RerollNoPreviousWinners
| RerollNotAWinner
| RerollNoEntrants
| RerollNoEligible
| RerollFailed
| RerollComplete (removed added : list Z).

(** [count or 1] *)
Definition count_or_1 (count : option Z) : Z :=
  match count with
  | Some c => if bool_decide (c = 0) then 1 else c
  | None => 1
  end.

(** "Decide which winners to remove"; [None] is the reply that the
    specified user is not a winner. *)
Definition reroll_to_remove (prev_winners : list Z) (count target_user : option Z)
  : option (list Z) :=
  match target_user with
  | Some t => if bool_decide (t ∉ prev_winners) then None else Some [t]
  | None =>
      let k := Z.min (Z.max 1 (count_or_1 count)) (len prev_winners) in
      Some (drop (length prev_winners - Z.to_nat k) prev_winners)
  end.

(** [list(set(entrants) - set(prev_winners))] *)
Definition reroll_pool (entrants_ prev_winners : list Z) : list Z :=
  set_list (filter (λ u, u ∉ prev_winners) (set_list entrants_)).

(** [GWGroup.reroll] *)
Definition reroll (db : DB) (guild giveaway_id : Z) (count target_user : option Z)
    (draws : list nat) : DB * RerollResult :=
  match fetch_giveaway db giveaway_id with
  | None => (db, RerollNotFound)
  | Some g =>
      if bool_decide (guild_id g ≠ guild) then (db, RerollNotFound)
      else if bool_decide (status g ≠ ended) then (db, RerollNotEnded)
      else
        let prev_winners := set_list (get_winners db (id g)) in
        if bool_decide (prev_winners = []) then (db, RerollNoPreviousWinners)
        else
          match reroll_to_remove prev_winners count target_user with
          | None => (db, RerollNotAWinner)
          | Some to_remove =>
              let db1 := remove_winners db (id g) to_remove in
              let db2 := decrement_win_counts db1 (guild_id g) to_remove in
              let entrants_ := get_entrants db2 (id g) in
              if bool_decide (entrants_ = []) then (db2, RerollNoEntrants)
              else
                let pool := reroll_pool entrants_ prev_winners in
                if bool_decide (pool = []) then (db2, RerollNoEligible)
                else
                  let k := Z.min (len pool) (len to_remove) in
                  match random_sample pool k draws with
                  | None => (db2, RerollFailed)
                  | Some new_winners =>
                      match set_winners db2 (id g) new_winners with
                      | None => (db2, RerollFailed)
                      | Some db3 =>
                          (increment_win_counts db3 (guild_id g) new_winners,
                           RerollComplete to_remove new_winners)
                      end
                  end
          end
  end.

(** [GWGroup.adjustwins]; [add] is the choice "Add win". *)
Definition adjustwins (db : DB) (guild giveaway_id user_id : Z) (add : bool) : DB * bool :=
  match fetch_giveaway db giveaway_id with
  | None => (db, false)
  | Some g =>
      if bool_decide (guild_id g ≠ guild) then (db, false)
      else adjust_win_for_gw db giveaway_id user_id (if add then 1 else -1)
  end.

(** [GWGroup.manual] *)
Definition manual (db : DB) (guild : Z) (prize_text : string) (winner now : Z) : DB * Z :=
  add_manual_giveaway_with_winner db guild prize_text winner now.

(** [GWGroup.delete]; [false] is one of the two "not found" replies. *)
Definition delete (db : DB) (guild giveaway_id : Z) : DB * bool :=
  match fetch_giveaway db giveaway_id with
  | None => (db, false)
  | Some g =>
      if bool_decide (guild_id g ≠ guild) then (db, false)
      else delete_giveaway db giveaway_id
  end.

(** ** Runs of the system *)

Inductive Op :=
| OpStart (guild channel host : Z) (seconds : option Z) (winners_ : Z)
    (prize_text : string) (now message : Z)
| OpJoin (giveaway_id guild user_id : Z)
| OpLeave (giveaway_id user_id : Z)
| OpEnd (guild giveaway_id : Z) (draws : list nat)
| OpTick (now : Z) (draws : list (list nat))
| OpReroll (guild giveaway_id : Z) (count target_user : option Z) (draws : list nat)
| OpAdjust (guild giveaway_id user_id : Z) (add : bool)
| OpManual (guild : Z) (prize_text : string) (winner now : Z)
| OpDelete (guild giveaway_id : Z).

Definition step (db : DB) (op : Op) : DB :=
  match op with
  | OpStart guild channel host seconds w p now message =>
      (start db guild channel host seconds w p now message).1
  | OpJoin gid guild u => (join db gid guild u).1
  | OpLeave gid u => (leave db gid u).1
  | OpEnd guild gid draws => (end_ db guild gid draws).1
  | OpTick now draws => scheduler db now draws
  | OpReroll guild gid count target draws => (reroll db guild gid count target draws).1
  | OpAdjust guild gid u add => (adjustwins db guild gid u add).1
  | OpManual guild p u now => (manual db guild p u now).1
  | OpDelete guild gid => (delete db guild gid).1
  end.

Definition run (db : DB) (ops : list Op) : DB := foldl step db ops.

(** ** Notions used in the statements *)

(** The winners [close_giveaway] draws from a list of entrants. *)
Definition drawn (entrants_ : list Z) (count : Z) (draws : list nat) : list Z :=
  if bool_decide (entrants_ ≠ []) then
    sample_loop (set_list entrants_)
      (Z.to_nat (Z.min count (len (set_list entrants_)))) draws
  else [].

(** The clamped count of winners to remove. *)
Definition remove_count (prev_winners : list Z) (count : option Z) : Z :=
  Z.min (Z.max 1 (count_or_1 count)) (len prev_winners).

(** Every winner row refers to a giveaway row (the foreign key). *)
Definition fk_winners (db : DB) : Prop :=
  ∀ r, r ∈ winners db → r.1 ∈ id <$> giveaways db.

(** No giveaway has more winner rows than winners requested, and a running
    giveaway has none. *)
Definition capped (db : DB) : Prop :=
  ∀ g, g ∈ giveaways db →
    len (get_winners db (id g)) ≤ winners_count g
    ∧ (status g = running → get_winners db (id g) = []).

Definition inv (db : DB) : Prop :=
  NoDup (id <$> giveaways db)
  ∧ (∀ g, g ∈ giveaways db → id g ≤ seq db)
  ∧ NoDup (winners db)
  ∧ fk_winners db
  ∧ capped db.

(** The commands that go through the selection: every command but the
    manual winner and the manual addition of a win. *)
Definition engine_op (op : Op) : Prop :=
  match op with
  | OpAdjust _ _ _ add => add = false
  | OpManual _ _ _ _ => False
  | _ => True
  end.





End Engine.

(** ** Vouches *)

Definition with_vouches (db : DB) (vs : list (Z * Z * Z)) : DB :=
  mkDB (giveaways db) (seq db) (entrants db) (winners db) (win_counts db) vs
       (vouch_blocks db).

(** [add_vouch]: [INSERT OR IGNORE INTO vouches]; a row that is already there
    is skipped, a new row for a giveaway without a row violates the foreign
    key and raises. *)
Definition add_vouch (db : DB) (guild user_id giveaway_id : Z) : option DB :=
  if bool_decide ((guild, user_id, giveaway_id) ∈ vouches db)
     || giveaway_exists db giveaway_id
  then Some (with_vouches db
               (insert_or_ignore (vouches db) (guild, user_id, giveaway_id)))
  else None.

(** [get_user_vouches]: the vouch rows of the user in the guild joined with
    the giveaways, newest giveaway first. *)
Definition get_user_vouches (db : DB) (guild user_id : Z) : list (Z * string) :=
  merge_sort newer_first
    (g ← giveaways db;
     v ← vouches db;
     if bool_decide (id g = v.2 ∧ v.1 = (guild, user_id))
     then [(id g, prize g)] else []).

Inductive VouchResult :=
| VouchBlocked
| VouchInvalid
| VouchMustBeEnded
| VouchNotWinner
| VouchAlready
| VouchFailed
| VouchRecorded.

(** [GWGroup.vouch] *)
Definition vouch (db : DB) (guild user_id giveaway_id : Z) : DB * VouchResult :=
  if bool_decide ((guild, user_id, giveaway_id) ∈ vouch_blocks db)
  then (db, VouchBlocked)
  else
    match fetch_giveaway db giveaway_id with
    | None => (db, VouchInvalid)
    | Some g =>
        if bool_decide (guild_id g ≠ guild) then (db, VouchInvalid)
        else if bool_decide (user_id ∉ get_winners db giveaway_id)
        then (db, VouchNotWinner)
        else if bool_decide (giveaway_id ∈ (get_user_vouches db guild user_id).*1)
        then (db, VouchAlready)
        else
          match add_vouch db guild user_id giveaway_id with
          | Some db' => (db', VouchRecorded)
          | None => (db, VouchFailed)
          end
    end.

(** [GWGroup.addvouch] *)
Definition addvouch (db : DB) (guild user_id giveaway_id : Z) : DB * VouchResult :=
  match fetch_giveaway db giveaway_id with
  | None => (db, VouchInvalid)
  | Some g =>
      if bool_decide (guild_id g ≠ guild) then (db, VouchInvalid)
      else if bool_decide (status g ≠ ended) then (db, VouchMustBeEnded)
      else if bool_decide (user_id ∉ get_winners db giveaway_id)
      then (db, VouchNotWinner)
      else if bool_decide (giveaway_id ∈ (get_user_vouches db guild user_id).*1)
      then (db, VouchAlready)
      else
        match add_vouch db guild user_id giveaway_id with
        | Some db' => (db', VouchRecorded)
        | None => (db, VouchFailed)
        end
  end.

Inductive RemoveVouchResult :=
| RemoveInvalid
| RemoveNoVouch
| RemoveDone.

(** [GWGroup.removevouch]: the vouch is deleted and the block inserted in
    one commit. *)
Definition removevouch (db : DB) (guild user_id giveaway_id : Z)
  : DB * RemoveVouchResult :=
  match fetch_giveaway db giveaway_id with
  | None => (db, RemoveInvalid)
  | Some g =>
      if bool_decide (guild_id g ≠ guild) then (db, RemoveInvalid)
      else if bool_decide (giveaway_id ∉ (get_user_vouches db guild user_id).*1)
      then (db, RemoveNoVouch)
      else
        (mkDB (giveaways db) (seq db) (entrants db) (winners db) (win_counts db)
           (filter (λ v, v ≠ (guild, user_id, giveaway_id)) (vouches db))
           (insert_or_ignore (vouch_blocks db) (guild, user_id, giveaway_id)),
         RemoveDone)
  end.

(** ** The vouch channel *)

(** The [guild_config] table is a map from the guild to its channel, which
    may be NULL. *)

Definition VOUCH_CHANNEL_ID : Z := 1403882566200721469.

(** [row[0] if row and row[0] else None] *)
Definition get_vouch_channel_id (cfg : gmap Z (option Z)) (guild : Z) : option Z :=
  match cfg !! guild with
  | Some (Some c) => if bool_decide (c = 0) then None else Some c
  | _ => None
  end.

Definition set_vouch_channel_id (cfg : gmap Z (option Z)) (guild : Z)
    (channel : option Z) : gmap Z (option Z) :=
  <[guild := channel]> cfg.

(** [configured_vouch_channel_id or VOUCH_CHANNEL_ID] *)
Definition vouch_channel (cfg : gmap Z (option Z)) (guild : Z) : Z :=
  default VOUCH_CHANNEL_ID (get_vouch_channel_id cfg guild).

Inductive MessageResult :=
| MsgIgnored
| MsgCommands
| MsgNotAWinner
| MsgAllVouched
| MsgBlocked (giveaway_id : Z)
| MsgRecorded (giveaway_id : Z) (prize_text : string)
| MsgChoose (remaining : list (Z * string))
| MsgFailed.

(** The ended giveaways of the guild that the user holds a winner row of. *)
Definition won_ended (db : DB) (guild user_id : Z) : list (Z * string) :=
  g ← giveaways db;
  w ← winners db;
  if bool_decide (id g = w.1 ∧ guild_id g = guild ∧ w.2 = user_id ∧ status g = ended)
  then [(id g, prize g)] else [].

(** [on_message]; [guild] is [None] for a direct message and [says_vouch]
    is ["vouch" in message.content.lower()]. *)
Definition on_message (db : DB) (cfg : gmap Z (option Z)) (author_is_bot : bool)
    (guild : option Z) (author channel : Z) (says_vouch : bool)
  : DB * MessageResult :=
  if author_is_bot then (db, MsgIgnored)
  else
    match guild with
    | None => (db, MsgIgnored)
    | Some guild =>
        if bool_decide (channel = vouch_channel cfg guild) then
          if negb says_vouch then (db, MsgIgnored)
          else
            let won_rows := won_ended db guild author in
            if bool_decide (won_rows = []) then (db, MsgNotAWinner)
            else
              let vouched_ids :=
                (filter (λ v, v.1 = (guild, author)) (vouches db)).*2 in
              let remaining := filter (λ row, row.1 ∉ vouched_ids) won_rows in
              match remaining with
              | [] => (db, MsgAllVouched)
              | [(gw_id, prize_text)] =>
                  if bool_decide ((guild, author, gw_id) ∈ vouch_blocks db)
                  then (db, MsgBlocked gw_id)
                  else
                    match add_vouch db guild author gw_id with
                    | Some db' => (db', MsgRecorded gw_id prize_text)
                    | None => (db, MsgFailed)
                    end
              | _ => (db, MsgChoose remaining)
              end
        else (db, MsgCommands)
    end.

(** ** The leaderboard *)

(** [ORDER BY wc.wins DESC, vc.vouch_count DESC] on rows
    [(user_id, wins, vouch_count)]. *)
Definition board_before (a b : Z * Z * Z) : Prop :=
  b.1.2 < a.1.2 ∨ (b.1.2 = a.1.2 ∧ b.2 ≤ a.2).

#[global] Instance board_before_dec : RelDecision board_before.
Proof. intros a b. unfold board_before. apply _. Defined.

(** [top_winners]: the win-count rows of the guild with the vouch count of
    each user; a negative [LIMIT] is no limit. *)
Definition top_winners (db : DB) (guild limit : Z) : list (Z * Z * Z) :=
  let rows :=
    (λ kv : Z * Z * Z, (kv.1.2, kv.2, vouch_count db guild kv.1.2))
      <$> filter (λ kv, kv.1.1 = guild) (map_to_list (win_counts db)) in
  let sorted := merge_sort board_before rows in
  if bool_decide (0 ≤ limit) then take (Z.to_nat limit) sorted else sorted.

(** [[lines[i:i + 25] for i in range(0, len(lines), 25)]] *)
Definition chunks {A} (size : nat) (lines : list A) : list (list A) :=
  (λ i, take size (drop (i * size) lines))
    <$> List.seq 0 ((length lines + size - 1) / size)%nat.

(** The lines of the leaderboard: rank, user, wins, vouches; a row with a
    zero user id is skipped and keeps its rank. *)
Definition leaderboard_lines (top : list (Z * Z * Z)) : list (nat * (Z * Z * Z)) :=
  filter (λ line, line.2.1.1 ≠ 0) (imap (λ i row, (S i, row)) top).

Inductive LeaderboardReply :=
| BoardNoWins
| BoardOnePage (page : list (nat * (Z * Z * Z)))
| BoardPaged (pages : list (list (nat * (Z * Z * Z))))
| BoardIndexError.

(** [GWGroup.leaderboard]; with several pages the view is sent showing the
    first one, and [pages[0]] of no page at all raises. *)
Definition leaderboard (db : DB) (guild : Z) : LeaderboardReply :=
  let top := top_winners db guild 100 in
  if bool_decide (top = []) then BoardNoWins
  else
    match chunks 25 (leaderboard_lines top) with
    | [] => BoardIndexError
    | [page] => BoardOnePage page
    | pages => BoardPaged pages
    end.

(** [LeaderboardView]: the number of pages and the page shown. *)
Record LeaderboardView := mkView {
  n_pages : nat;
  current_page : nat
}.

(** [update_buttons]: whether the previous and the next button are disabled. *)
Definition prev_disabled (v : LeaderboardView) : bool :=
  bool_decide (current_page v = O).

Definition next_disabled (v : LeaderboardView) : bool :=
  bool_decide (Z.of_nat (current_page v) = Z.of_nat (n_pages v) - 1).

Definition prev_btn (v : LeaderboardView) : LeaderboardView :=
  if bool_decide (0 < current_page v)%nat
  then mkView (n_pages v) (current_page v - 1)
  else v.

Definition next_btn (v : LeaderboardView) : LeaderboardView :=
  if bool_decide (Z.of_nat (current_page v) < Z.of_nat (n_pages v) - 1)
  then mkView (n_pages v) (current_page v + 1)
  else v.

(** The view as [__init__] builds it, and a press of one of its two paging
    buttons. *)
Definition new_view (pages : nat) : LeaderboardView := mkView pages 0.

Inductive Button := PrevButton | NextButton.

Definition press (v : LeaderboardView) (b : Button) : LeaderboardView :=
  match b with
  | PrevButton => prev_btn v
  | NextButton => next_btn v
  end.

(** ** The list of giveaways *)

(** [ORDER BY id DESC] on giveaway rows. *)
Definition newest_row_first (a b : Giveaway) : Prop := id b ≤ id a.

#[global] Instance newest_row_first_dec : RelDecision newest_row_first.
Proof. intros a b. unfold newest_row_first. apply _. Defined.

(** [winners_map.setdefault(wr["giveaway_id"], []).append(wr["user_id"])]
    over the winner rows. *)
Definition group_winners (winner_rows : list (Z * Z)) : gmap Z (list Z) :=
  foldl (λ m wr, <[wr.1 := default [] (m !! wr.1) ++ [wr.2]]> m) ∅ winner_rows.

(** [GWGroup.list]: [None] is the reply that no giveaways are found;
    otherwise one line per giveaway of the guild, with the winners named on
    the line of an ended giveaway ([Some []] reads "None") and no winners
    text on the line of a running one. *)
Definition list_ (db : DB) (guild : Z) : option (list (Giveaway * option (list Z))) :=
  let rows :=
    merge_sort newest_row_first (filter (λ g, guild_id g = guild) (giveaways db)) in
  if bool_decide (rows = []) then None
  else
    let ended_ids := id <$> filter (λ r, status r = ended) rows in
    let winners_map :=
      if bool_decide (ended_ids ≠ [])
      then group_winners (filter (λ wr, wr.1 ∈ ended_ids) (winners db))
      else ∅ in
    Some ((λ r, (r, if bool_decide (status r = ended)
                    then Some (default [] (winners_map !! id r))
                    else None)) <$> rows).

(** ** Runs with the vouch commands *)

Inductive Cmd :=
| CmdOp (op : Op)
| CmdVouch (guild user_id giveaway_id : Z)
| CmdAddVouch (guild user_id giveaway_id : Z)
| CmdRemoveVouch (guild user_id giveaway_id : Z)
| CmdMessage (cfg : gmap Z (option Z)) (guild author channel : Z).

Definition exec {order : SetOrder} (db : DB) (c : Cmd) : DB :=
  match c with
  | CmdOp op => step db op
  | CmdVouch guild u gid => (vouch db guild u gid).1
  | CmdAddVouch guild u gid => (addvouch db guild u gid).1
  | CmdRemoveVouch guild u gid => (removevouch db guild u gid).1
  | CmdMessage cfg guild u channel =>
      (on_message db cfg false (Some guild) u channel true).1
  end.

Definition exec_all {order : SetOrder} (db : DB) (cs : list Cmd) : DB :=
  foldl exec db cs.

(** Uniqueness of the keyed rows, the AUTOINCREMENT bound, the foreign keys
    to [giveaways], and the same reference for [vouch_blocks], which declares
    no foreign key. *)
Definition integrity (db : DB) : Prop :=
  NoDup (id <$> giveaways db)
  ∧ (∀ g, g ∈ giveaways db → id g ≤ seq db)
  ∧ NoDup (entrants db) ∧ NoDup (winners db) ∧ NoDup (vouches db)
  ∧ NoDup (vouch_blocks db)
  ∧ (∀ r, r ∈ entrants db → r.1 ∈ id <$> giveaways db)
  ∧ fk_winners db
  ∧ (∀ v, v ∈ vouches db → v.2 ∈ id <$> giveaways db)
  ∧ (∀ v, v ∈ vouch_blocks db → v.2 ∈ id <$> giveaways db).

(** No stored win count is zero or negative. *)
Definition positive_counts (db : DB) : Prop :=
  ∀ k w, win_counts db !! k = Some w → 0 < w.

(** An ended giveaway of the guild that the user holds a winner row of and
    has no vouch for. *)
Definition unvouched_win (db : DB) (guild user_id giveaway_id : Z) : Prop :=
  ∃ g, fetch_giveaway db giveaway_id = Some g ∧ guild_id g = guild
       ∧ status g = ended ∧ user_id ∈ get_winners db giveaway_id
       ∧ (guild, user_id, giveaway_id) ∉ vouches db.

(** ** Facts about the helpers *)

Lemma fetch_giveaway_Some db giveaway_id g :
  fetch_giveaway db giveaway_id = Some g → g ∈ giveaways db ∧ id g = giveaway_id.
Proof.
  unfold fetch_giveaway. intros H.
  apply head_Some_elem_of in H. by apply list_elem_of_filter in H as [? ?].
Qed.

Lemma fetch_giveaway_None db giveaway_id :
  fetch_giveaway db giveaway_id = None ↔ giveaway_id ∉ id <$> giveaways db.
Proof.
  unfold fetch_giveaway. rewrite head_None. split.
  - intros H Hin. apply list_elem_of_fmap in Hin as (g & -> & Hg).
    assert (g ∈ filter (λ g0, id g0 = id g) (giveaways db)) as Hf
      by (by apply list_elem_of_filter).
    rewrite H in Hf. by apply not_elem_of_nil in Hf.
  - intros H. destruct (filter _ _) as [|g l] eqn:E; [done|].
    assert (g ∈ filter (λ g0, id g0 = giveaway_id) (giveaways db)) as Hf
      by (rewrite E; left).
    apply list_elem_of_filter in Hf as [<- Hg].
    exfalso. apply H. apply list_elem_of_fmap. eauto.
Qed.

Lemma giveaway_exists_fetch db giveaway_id :
  giveaway_exists db giveaway_id = true ↔ is_Some (fetch_giveaway db giveaway_id).
Proof.
  unfold giveaway_exists. rewrite bool_decide_eq_true.
  rewrite <- not_eq_None_Some, fetch_giveaway_None. split; [tauto|].
  intros H. by destruct (decide (giveaway_id ∈ id <$> giveaways db)).
Qed.

Lemma stored_wins_nonneg_default db guild u :
  win_counts db !! (guild, u) = None → stored_wins db guild u = 0.
Proof. unfold stored_wins. by intros ->. Qed.

Lemma upsert_win_lookup guild wc u k :
  upsert_win guild wc u !! k =
  if decide (k = (guild, u)) then Some (default 0 (wc !! k) + 1) else wc !! k.
Proof.
  unfold upsert_win. destruct (decide (k = (guild, u))) as [->|Hne].
  - destruct (wc !! (guild, u)); by rewrite lookup_insert_eq.
  - destruct (wc !! (guild, u)); by rewrite lookup_insert_ne.
Qed.

Lemma dec_win_lookup guild wc u k :
  dec_win guild wc u !! k =
  if decide (k = (guild, u))
  then (λ w, if bool_decide (0 < w) then w - 1 else w) <$> wc !! k
  else wc !! k.
Proof.
  unfold dec_win. destruct (decide (k = (guild, u))) as [->|Hne].
  - destruct (wc !! (guild, u)) as [w|] eqn:E; simpl; [|by rewrite E].
    case_bool_decide; [by rewrite lookup_insert_eq | by rewrite E].
  - destruct (wc !! (guild, u)) as [w|]; [|done].
    case_bool_decide; [by rewrite lookup_insert_ne | done].
Qed.

Lemma prune_zero_lookup guild wc k :
  prune_zero guild wc !! k =
  match wc !! k with
  | Some w => if decide (k.1 = guild ∧ w ≤ 0) then None else Some w
  | None => None
  end.
Proof.
  unfold prune_zero. destruct (wc !! k) as [w|] eqn:E.
  - destruct (decide (k.1 = guild ∧ w ≤ 0)) as [H|H].
    + apply map_lookup_filter_None. right. intros w' Hw'. simpl.
      assert (w' = w) as -> by congruence. tauto.
    + apply map_lookup_filter_Some. done.
  - apply map_lookup_filter_None. by left.
Qed.

(** A batch of decrements over distinct users lowers each positive count
    once. *)
Lemma foldl_dec_win_lookup guild us wc k :
  NoDup us →
  foldl (dec_win guild) wc us !! k =
  if decide (k.1 = guild ∧ k.2 ∈ us)
  then (λ w, if bool_decide (0 < w) then w - 1 else w) <$> wc !! k
  else wc !! k.
Proof.
  intros Hnd. revert wc. induction Hnd as [|u us Hu Hnd IH]; intros wc; simpl.
  - destruct (decide _) as [[_ H]|]; [by apply not_elem_of_nil in H | done].
  - rewrite IH, dec_win_lookup. destruct k as [g' u']. simpl.
    destruct (decide ((g', u') = (guild, u))) as [Heq|Hne].
    + injection Heq as -> ->.
      destruct (decide (guild = guild ∧ u ∈ us)) as [[_ ?]|_]; [done|].
      destruct (decide (guild = guild ∧ u ∈ u :: us)) as [_|H]; [done|].
      exfalso. apply H. split; [done | left].
    + destruct (decide (g' = guild ∧ u' ∈ us)) as [[-> H]|H].
      * destruct (decide (guild = guild ∧ u' ∈ u :: us)) as [_|H']; [done|].
        exfalso. apply H'. split; [done | by right].
      * destruct (decide (g' = guild ∧ u' ∈ u :: us)) as [[-> H']|_]; [|done].
        exfalso. apply elem_of_cons in H' as [->|H']; [by apply Hne | by apply H].
Qed.

(** The stored count after decrementing a batch and pruning the guild. *)
Lemma decrement_stored guild us wc g' u :
  NoDup us →
  default 0 (prune_zero guild (foldl (dec_win guild) wc us) !! (g', u)) =
  if decide (g' = guild)
  then Z.max 0 (default 0 (wc !! (g', u)) - (if decide (u ∈ us) then 1 else 0))
  else default 0 (wc !! (g', u)).
Proof.
  intros Hnd. rewrite prune_zero_lookup, foldl_dec_win_lookup by done. simpl.
  destruct (decide (g' = guild)) as [->|Hg].
  - destruct (decide (u ∈ us)) as [Hu|Hu].
    + rewrite decide_True by done.
      destruct (wc !! (guild, u)) as [w|]; simpl; [|done].
      case_bool_decide; destruct (decide _) as [[_ ?]|Hn]; simpl; try lia.
      all: exfalso; apply Hn; split; [done | lia].
    + rewrite decide_False by tauto.
      destruct (wc !! (guild, u)) as [w|]; simpl; [|done].
      destruct (decide _) as [[_ ?]|Hn]; simpl; [lia|].
      assert (¬ w ≤ 0) by tauto. lia.
  - rewrite decide_False by tauto.
    destruct (wc !! (g', u)) as [w|]; simpl; [|done].
    rewrite decide_False by tauto. done.
Qed.


Lemma foldl_delete_winner giveaway_id us tbl :
  foldl (delete_winner giveaway_id) tbl us =
  filter (λ r, ¬ (r.1 = giveaway_id ∧ r.2 ∈ us)) tbl.
Proof.
  revert tbl. induction us as [|u us IH]; intros tbl; simpl.
  - symmetry. induction tbl as [|r tbl IHt]; [done|].
    rewrite filter_cons_True; [by f_equal|].
    intros [_ H]. by apply not_elem_of_nil in H.
  - rewrite IH. unfold delete_winner. rewrite list_filter_filter.
    apply list_filter_iff. intros [g' u']. simpl. split.
    + intros [H1 H2] [-> H3]. apply elem_of_cons in H3 as [->|H3]; tauto.
    + intros H. split.
      * intros [-> H3]. apply H. split; [done | by right].
      * intros [= -> ->]. apply H. split; [done | left].
Qed.

Lemma get_winners_remove db giveaway_id us gid' :
  get_winners (remove_winners db giveaway_id us) gid' =
  if decide (gid' = giveaway_id)
  then filter (λ u, u ∉ us) (get_winners db gid')
  else get_winners db gid'.
Proof.
  unfold get_winners, select_user_id, remove_winners. simpl.
  rewrite foldl_delete_winner.
  induction (winners db) as [|[g' u'] tbl IH]; simpl.
  - by destruct (decide _).
  - destruct (decide (gid' = giveaway_id)) as [->|Hne].
    + destruct (decide (g' = giveaway_id)) as [->|Hg].
      * rewrite (filter_cons_True (λ r, r.1 = giveaway_id) (giveaway_id, u')) by done.
        simpl. destruct (decide (u' ∈ us)) as [Hu|Hu].
        -- rewrite filter_cons_False by (simpl; tauto).
           rewrite (filter_cons_False (λ u, u ∉ us)) by tauto. done.
        -- rewrite filter_cons_True by (simpl; tauto).
           rewrite (filter_cons_True (λ r, r.1 = giveaway_id)) by done.
           simpl. rewrite (filter_cons_True (λ u, u ∉ us)) by done.
           by f_equal.
      * rewrite filter_cons_True by (simpl; tauto).
        rewrite !(filter_cons_False (λ r, r.1 = giveaway_id) (g', u')) by done.
        done.
    + destruct (decide (g' = gid')) as [->|Hg].
      * rewrite filter_cons_True by (simpl; tauto).
        rewrite !(filter_cons_True (λ r, r.1 = gid') (gid', u')) by done.
        simpl. by f_equal.
      * destruct (decide (¬ ((g', u').1 = giveaway_id ∧ (g', u').2 ∈ us))).
        -- rewrite filter_cons_True by done.
           rewrite !(filter_cons_False (λ r, r.1 = gid') (g', u')) by done. done.
        -- rewrite filter_cons_False by done.
           rewrite !(filter_cons_False (λ r, r.1 = gid') (g', u')) by done. done.
Qed.

Lemma select_user_id_elem tbl giveaway_id u :
  u ∈ select_user_id tbl giveaway_id ↔ (giveaway_id, u) ∈ tbl.
Proof.
  unfold select_user_id. rewrite list_elem_of_fmap. split.
  - intros ([g' u'] & -> & H). apply list_elem_of_filter in H as [H1 H2].
    simpl in *. by subst.
  - intros H. exists (giveaway_id, u). split; [done|].
    by apply list_elem_of_filter.
Qed.

Lemma select_user_id_NoDup tbl giveaway_id :
  NoDup tbl → NoDup (select_user_id tbl giveaway_id).
Proof.
  intros Hnd. unfold select_user_id. apply NoDup_fmap_2_strong.
  - intros [g1 u1] [g2 u2] H1 H2. simpl. intros ->.
    apply list_elem_of_filter in H1 as [H1 _], H2 as [H2 _]. simpl in *.
    by subst.
  - by apply NoDup_filter.
Qed.

Lemma select_user_id_app t1 t2 giveaway_id :
  select_user_id (t1 ++ t2) giveaway_id =
  select_user_id t1 giveaway_id ++ select_user_id t2 giveaway_id.
Proof. unfold select_user_id. by rewrite filter_app, fmap_app. Qed.

Lemma select_user_id_filter_other tbl giveaway_id gid' :
  gid' ≠ giveaway_id →
  select_user_id (filter (λ r, r.1 ≠ giveaway_id) tbl) gid' = select_user_id tbl gid'.
Proof.
  intros Hne. unfold select_user_id. rewrite list_filter_filter. f_equal.
  apply list_filter_iff. intros [g u]. simpl. split; [tauto|].
  intros ->. done.
Qed.


Lemma select_insert_or_ignore tbl giveaway_id u gid' :
  select_user_id (insert_or_ignore tbl (giveaway_id, u)) gid' =
  if decide (gid' = giveaway_id)
  then insert_or_ignore (select_user_id tbl gid') u
  else select_user_id tbl gid'.
Proof.
  unfold insert_or_ignore at 1. case_bool_decide as Hin.
  - destruct (decide _) as [->|]; [|done].
    unfold insert_or_ignore. rewrite bool_decide_eq_true_2; [done|].
    by apply select_user_id_elem.
  - rewrite select_user_id_app. unfold select_user_id at 2.
    destruct (decide (gid' = giveaway_id)) as [->|Hne].
    + rewrite filter_cons_True by done. simpl.
      unfold insert_or_ignore. rewrite bool_decide_eq_false_2; [done|].
      by rewrite select_user_id_elem.
    + rewrite filter_cons_False by (simpl; congruence). simpl.
      by rewrite app_nil_r.
Qed.

Lemma select_foldl_insert tbl giveaway_id us gid' :
  select_user_id (foldl insert_or_ignore tbl (pair giveaway_id <$> us)) gid' =
  if decide (gid' = giveaway_id)
  then foldl insert_or_ignore (select_user_id tbl gid') us
  else select_user_id tbl gid'.
Proof.
  revert tbl. induction us as [|u us IH]; intros tbl; simpl.
  - by destruct (decide _).
  - rewrite IH, select_insert_or_ignore. by destruct (decide _).
Qed.

Lemma insert_or_ignore_elem {A} `{EqDecision A} (l : list A) x y :
  y ∈ insert_or_ignore l x ↔ y ∈ l ∨ y = x.
Proof.
  unfold insert_or_ignore. case_bool_decide.
  - split; [tauto|]. intros [?| ->]; done.
  - rewrite elem_of_app, list_elem_of_singleton. done.
Qed.

Lemma insert_or_ignore_NoDup {A} `{EqDecision A} (l : list A) x :
  NoDup l → NoDup (insert_or_ignore l x).
Proof.
  intros Hnd. unfold insert_or_ignore. case_bool_decide; [done|].
  apply NoDup_app. split_and!; [done| |apply NoDup_singleton].
  intros y Hy Hx. apply list_elem_of_singleton in Hx. by subst.
Qed.

Lemma foldl_insert_elem {A} `{EqDecision A} (l xs : list A) y :
  y ∈ foldl insert_or_ignore l xs ↔ y ∈ l ∨ y ∈ xs.
Proof.
  revert l. induction xs as [|x xs IH]; intros l; simpl.
  - rewrite elem_of_nil. tauto.
  - rewrite IH, insert_or_ignore_elem, elem_of_cons. tauto.
Qed.

Lemma foldl_insert_NoDup {A} `{EqDecision A} (l xs : list A) :
  NoDup l → NoDup (foldl insert_or_ignore l xs).
Proof.
  revert l. induction xs as [|x xs IH]; intros l Hnd; simpl; [done|].
  by apply IH, insert_or_ignore_NoDup.
Qed.

(** Fresh, distinct rows are appended in order. *)
Lemma foldl_insert_fresh {A} `{EqDecision A} (l xs : list A) :
  NoDup xs → (∀ x, x ∈ xs → x ∉ l) → foldl insert_or_ignore l xs = l ++ xs.
Proof.
  intros Hnd. revert l. induction Hnd as [|x xs Hx Hnd IH]; intros l Hfresh; simpl.
  - by rewrite app_nil_r.
  - unfold insert_or_ignore at 2.
    rewrite bool_decide_eq_false_2 by (apply Hfresh; left).
    rewrite IH.
    + by rewrite <- app_assoc.
    + intros y Hy. rewrite elem_of_app, list_elem_of_singleton.
      intros [H| ->]; [|done]. revert H. apply Hfresh. by right.
Qed.

Lemma foldl_upsert_lookup guild us wc k :
  k.1 ≠ guild ∨ k.2 ∉ us → foldl (upsert_win guild) wc us !! k = wc !! k.
Proof.
  revert wc. induction us as [|u us IH]; intros wc Hk; simpl; [done|].
  rewrite IH.
  - rewrite upsert_win_lookup. destruct (decide _) as [->|]; [|done].
    simpl in Hk. destruct Hk as [?|Hk]; [done|]. exfalso. apply Hk. left.
  - destruct Hk as [?|Hk]; [by left|]. right. intros ?. apply Hk. by right.
Qed.

(** A batch of increments over distinct users raises each count once. *)
Lemma foldl_upsert_stored guild us wc g' u :
  NoDup us →
  default 0 (foldl (upsert_win guild) wc us !! (g', u)) =
  default 0 (wc !! (g', u)) + (if decide (g' = guild ∧ u ∈ us) then 1 else 0).
Proof.
  intros Hnd. revert wc. induction Hnd as [|x us Hx Hnd IH]; intros wc; simpl.
  - destruct (decide _) as [[_ H]|]; [by apply not_elem_of_nil in H | lia].
  - rewrite IH, upsert_win_lookup.
    destruct (decide ((g', u) = (guild, x))) as [[= -> ->]|Hne]; simpl.
    + rewrite decide_False by tauto.
      rewrite decide_True by (split; [done | left]). lia.
    + destruct (decide (g' = guild ∧ u ∈ us)) as [[-> H]|H].
      * rewrite decide_True by (split; [done | by right]). done.
      * rewrite decide_False; [done|]. intros [-> H'].
        apply elem_of_cons in H' as [->|H']; [by apply Hne | by apply H].
Qed.

(** ** Facts about [random.sample] *)

(** One round of the loop splits the pool into the element taken and the
    pool of the next round. *)
Lemma sample_round_perm (pool : list Z) j x y :
  pool !! j = Some x → last pool = Some y →
  pool ≡ₚ x :: take (length pool - 1) (<[j := y]> pool).
Proof.
  intros Hj Hlast. apply last_Some in Hlast as [l ->].
  rewrite length_app. simpl.
  replace (length l + 1 - 1)%nat with (length l) by lia.
  destruct (decide (j < length l)%nat) as [Hlt|Hge].
  - rewrite insert_app_l by done.
    rewrite take_app_length' by (by rewrite length_insert).
    rewrite lookup_app_l in Hj by done.
    rewrite insert_take_drop by done.
    rewrite <- (take_drop_middle l j x) at 1 by done.
    rewrite <- !app_assoc. simpl.
    rewrite <- Permutation_middle. symmetry.
    rewrite <- Permutation_middle.
    rewrite (Permutation_app_comm (drop (S j) l) [y]). simpl.
    by rewrite <- Permutation_middle.
  - assert (j = length l) as ->.
    { apply lookup_lt_Some in Hj. rewrite length_app in Hj. simpl in Hj. lia. }
    rewrite list_lookup_middle in Hj by done. injection Hj as <-.
    rewrite list_insert_id by (by rewrite list_lookup_middle).
    rewrite take_app_length. by rewrite <- Permutation_cons_append.
Qed.

Lemma sample_round_defined (pool : list Z) d :
  pool ≠ [] →
  ∃ x y, pool !! (d `mod` length pool)%nat = Some x ∧ last pool = Some y.
Proof.
  intros Hne.
  assert (0 < length pool)%nat as Hlen by (destruct pool; [done | simpl; lia]).
  destruct (lookup_lt_is_Some_2 pool (d `mod` length pool)%nat) as [x Hx].
  { apply Nat.mod_upper_bound. lia. }
  destruct (last pool) as [y|] eqn:Hy.
  - eauto.
  - apply last_None in Hy. done.
Qed.

(** The sample is a sub-multiset of the population. *)
Lemma sample_loop_submseteq pool k draws : sample_loop pool k draws ⊆+ pool.
Proof.
  revert pool draws. induction k as [|k IH]; intros pool draws; simpl.
  - apply submseteq_nil_l.
  - destruct (pool !! _) as [x|] eqn:Hx; [|apply submseteq_nil_l].
    destruct (last pool) as [y|] eqn:Hy; [|apply submseteq_nil_l].
    etrans; [apply submseteq_skip, IH|].
    apply Permutation_submseteq. symmetry. by apply sample_round_perm.
Qed.

Lemma sample_loop_length pool k draws :
  (k ≤ length pool)%nat → length (sample_loop pool k draws) = k.
Proof.
  revert pool draws. induction k as [|k IH]; intros pool draws Hk; simpl; [done|].
  assert (pool ≠ []) as Hne by (intros ->; simpl in Hk; lia).
  destruct (sample_round_defined pool (hd O draws) Hne) as (x & y & Hx & Hy).
  rewrite Hx, Hy. simpl. f_equal. apply IH.
  rewrite length_take, length_insert. lia.
Qed.

Lemma sample_loop_NoDup pool k draws :
  NoDup pool → NoDup (sample_loop pool k draws).
Proof.
  intros H.
  destruct (submseteq_Permutation _ _ (sample_loop_submseteq pool k draws))
    as [rest Hperm].
  rewrite Hperm in H. by apply NoDup_app in H as [? _].
Qed.

Lemma sample_loop_elem pool k draws x :
  x ∈ sample_loop pool k draws → x ∈ pool.
Proof. intros H. eapply elem_of_submseteq; [done | apply sample_loop_submseteq]. Qed.


Lemma random_sample_Some population k draws :
  0 ≤ k ≤ len population →
  random_sample population k draws =
  Some (sample_loop population (Z.to_nat k) draws).
Proof. intros H. unfold random_sample. by rewrite bool_decide_eq_true_2. Qed.

(** ** Facts about status updates and closing *)

Lemma db_eta db :
  mkDB (giveaways db) (seq db) (entrants db) (winners db) (win_counts db)
       (vouches db) (vouch_blocks db) = db.
Proof. by destruct db. Qed.

Lemma fetch_update f db giveaway_id gid' :
  (∀ g, id (f g) = id g) →
  fetch_giveaway (update_giveaway f db giveaway_id) gid' =
  if decide (gid' = giveaway_id)
  then f <$> fetch_giveaway db gid'
  else fetch_giveaway db gid'.
Proof.
  intros Hid. unfold fetch_giveaway, update_giveaway. simpl.
  induction (giveaways db) as [|g gs IH]; simpl.
  - by destruct (decide _).
  - case_bool_decide as Hg.
    + destruct (decide (gid' = giveaway_id)) as [->|Hne].
      * rewrite !filter_cons_True by (by rewrite ?Hid). done.
      * rewrite !filter_cons_False by (rewrite ?Hid; congruence). done.
    + destruct (decide (id g = gid')) as [Heq|Hne'].
      * rewrite !filter_cons_True by done.
        rewrite decide_False by congruence. done.
      * rewrite !filter_cons_False by done. done.
Qed.

Lemma ids_update f db giveaway_id :
  (∀ g, id (f g) = id g) →
  id <$> giveaways (update_giveaway f db giveaway_id) = id <$> giveaways db.
Proof.
  intros Hid. unfold update_giveaway. simpl. rewrite <- list_fmap_compose.
  apply list_fmap_ext. intros _ g _. simpl. case_bool_decide; by rewrite ?Hid.
Qed.

Lemma fetch_set_status db giveaway_id s gid' :
  fetch_giveaway (set_giveaway_status db giveaway_id s) gid' =
  if decide (gid' = giveaway_id)
  then (λ g, set_status g s) <$> fetch_giveaway db gid'
  else fetch_giveaway db gid'.
Proof. by apply fetch_update. Qed.


Section Closing.
Context {order : SetOrder}.

Lemma set_list_nil : set_list [] = [].
Proof.
  destruct (set_list []) as [|x l] eqn:E; [done|].
  assert (x ∈ set_list []) as H by (rewrite E; left).
  apply (proj1 (set_list_elem _ _)) in H. by apply not_elem_of_nil in H.
Qed.


Lemma close_giveaway_eq db g draws :
  0 ≤ winners_count g → giveaway_exists db (id g) = true →
  let ws := drawn (get_entrants db (id g)) (winners_count g) draws in
  close_giveaway db g draws =
  Some (set_giveaway_status
          (increment_win_counts
             (with_winners db
                (foldl insert_or_ignore (winners db) (pair (id g) <$> ws)))
             (guild_id g) ws)
          (id g) ended, ws).
Proof.
  intros Hcount Hex ws. unfold close_giveaway, drawn in *.
  case_bool_decide as Hes; simpl.
  - rewrite random_sample_Some by (unfold len; lia). simpl.
    unfold set_winners. rewrite Hex, orb_true_r. done.
  - subst ws. simpl. unfold increment_win_counts, with_winners. simpl.
    unfold with_win_counts. simpl. by rewrite db_eta.
Qed.

Lemma drawn_length es count draws :
  0 ≤ count → len (drawn es count draws) = Z.min count (len (set_list es)).
Proof.
  intros Hc. unfold drawn. case_bool_decide as Hes.
  - unfold len. rewrite sample_loop_length; lia.
  - assert (es = []) as -> by (by destruct (decide (es = []))).
    rewrite set_list_nil. unfold len. simpl. lia.
Qed.

Lemma drawn_NoDup es count draws : NoDup (drawn es count draws).
Proof.
  unfold drawn. case_bool_decide; [|apply NoDup_nil_2].
  apply sample_loop_NoDup, set_list_NoDup.
Qed.

Lemma drawn_elem es count draws u : u ∈ drawn es count draws → u ∈ es.
Proof.
  unfold drawn. case_bool_decide; [|by intros ?%not_elem_of_nil].
  intros Hu. apply sample_loop_elem in Hu. by apply set_list_elem.
Qed.

End Closing.

(** ** Selection at closing *)

Section Selection.
Context {order : SetOrder}.


End Selection.


(** ** The eligibility gate *)

(** C7: pressing Join is let through the gate exactly when the stored win
    count of the user in the guild (0 without a row) is at most the number
    of vouch rows of the user in the guild, whatever giveaways they belong
    to (0 without rows); with equal values the user is let through.  A
    refusal leaves the database as it was, and a user let through is an
    entrant of the giveaway afterwards when the giveaway has a row. *)
Theorem join_gate db giveaway_id guild user_id :
  let w := stored_wins db guild user_id in
  let v := vouch_count db guild user_id in
  (w ≤ v ↔ (join db giveaway_id guild user_id).2 ≠ JoinRefused w v)
  ∧ (w ≤ v ↔ (join db giveaway_id guild user_id).2 = JoinAlreadyIn
              ∨ (join db giveaway_id guild user_id).2 = JoinedNow)
  ∧ (¬ w ≤ v ↔ join db giveaway_id guild user_id = (db, JoinRefused w v))
  ∧ (w = v → (join db giveaway_id guild user_id).2 ≠ JoinRefused w v)
  ∧ (win_counts db !! (guild, user_id) = None → w = 0)
  ∧ ((∀ gid, (guild, user_id, gid) ∉ vouches db) → v = 0)
  ∧ (w ≤ v → giveaway_exists db giveaway_id = true →
     user_id ∈ get_entrants (join db giveaway_id guild user_id).1 giveaway_id).
Proof.
  intros w v. unfold join. fold w v.
  destruct (decide (w ≤ v)) as [Hle|Hgt].
  - rewrite bool_decide_eq_false_2 by lia.
    split_and!; [| | | | | |
      intros _ Hex; case_bool_decide as Hin; simpl; [done|];
      unfold add_entrant; rewrite Hex; unfold get_entrants; simpl;
      apply select_user_id_elem, insert_or_ignore_elem; by right].
    + split; [|done]. intros _. by case_bool_decide.
    + split; [|done]. intros _. case_bool_decide; simpl; tauto.
    + split; [done|]. by case_bool_decide.
    + intros _. by case_bool_decide.
    + apply stored_wins_nonneg_default.
    + intros Hnone. unfold v, vouch_count.
      destruct (filter _ _) as [|[[g u] gid] l] eqn:E; [done|].
      assert ((g, u, gid) ∈ filter (λ r, r.1 = (guild, user_id)) (vouches db))
        as Hin by (rewrite E; left).
      apply list_elem_of_filter in Hin as [[= -> ->] Hin]. by apply Hnone in Hin.
  - rewrite bool_decide_eq_true_2 by lia. simpl.
    split_and!; [| | | | | | done].
    + split; [done|]. intros H. by exfalso.
    + split; [done|]. intros [?|?]; done.
    + done.
    + lia.
    + apply stored_wins_nonneg_default.
    + intros Hnone. unfold v, vouch_count.
      destruct (filter _ _) as [|[[g u] gid] l] eqn:E; [done|].
      assert ((g, u, gid) ∈ filter (λ r, r.1 = (guild, user_id)) (vouches db))
        as Hin by (rewrite E; left).
      apply list_elem_of_filter in Hin as [[= -> ->] Hin]. by apply Hnone in Hin.
Qed.

(** Two wins and two vouches, for two different giveaways: let through. *)
Lemma join_gate_witness :
  let db := mkDB [mkGiveaway 3 10 100 None 7 "Nitro" 1 1000 running] 3 [] []
              {[ (10, 21) := 2 ]} [(10, 21, 1); (10, 21, 2)] [] in
  stored_wins db 10 21 = vouch_count db 10 21
  ∧ (join db 3 10 21).2 ≠ JoinRefused (stored_wins db 10 21) (vouch_count db 10 21).
Proof.
  intros db. split; [reflexivity|].
  apply (join_gate db 3 10 21). reflexivity.
Defined.

(** ** The manual winner *)

Lemma insert_or_ignore_present {A} `{EqDecision A} (l : list A) x :
  x ∈ l → insert_or_ignore l x = l.
Proof. intros H. unfold insert_or_ignore. by rewrite bool_decide_eq_true_2. Qed.

Lemma insert_or_ignore_twice {A} `{EqDecision A} (l : list A) x :
  insert_or_ignore (insert_or_ignore l x) x = insert_or_ignore l x.
Proof. apply insert_or_ignore_present, insert_or_ignore_elem. by right. Qed.

Lemma stored_wins_upsert db guild u :
  default 0 (upsert_win guild (win_counts db) u !! (guild, u)) =
  stored_wins db guild u + 1.
Proof. rewrite upsert_win_lookup, decide_True by done. done. Qed.

(** C10: the manual-winner command takes the first giveaway of the guild
    with the same prize text when there is one and adds no giveaway row; it
    raises the stored win count of the user by one in every case, also when
    the winner row is already there and the winner table stays as it was;
    so a second call with the same guild, prize and user returns the same
    giveaway, leaves giveaways and winners as the first call left them, and
    raises the count once more. *)
Theorem manual_reuses_and_recounts db guild prize_text user_id now now' :
  let r1 := manual db guild prize_text user_id now in
  let r2 := manual r1.1 guild prize_text user_id now' in
  (∀ g, g ∈ giveaways db → guild_id g = guild → prize g = prize_text →
     giveaways r1.1 = giveaways db
     ∧ ∃ g0, g0 ∈ giveaways db ∧ guild_id g0 = guild ∧ prize g0 = prize_text
             ∧ r1.2 = id g0)
  ∧ stored_wins r1.1 guild user_id = stored_wins db guild user_id + 1
  ∧ ((r1.2, user_id) ∈ winners db → winners r1.1 = winners db)
  ∧ r2.2 = r1.2
  ∧ giveaways r2.1 = giveaways r1.1
  ∧ winners r2.1 = winners r1.1
  ∧ stored_wins r2.1 guild user_id = stored_wins r1.1 guild user_id + 1.
Proof.
  intros r1 r2. subst r1 r2. unfold manual, add_manual_giveaway_with_winner.
  set (P := λ g, guild_id g = guild ∧ prize g = prize_text).
  destruct (head (filter P (giveaways db))) as [r|] eqn:Hhead; simpl.
  - rewrite Hhead. simpl.
    assert (r ∈ filter P (giveaways db)) as Hr by (by apply head_Some_elem_of).
    apply list_elem_of_filter in Hr as [[Hr1 Hr2] Hr3].
    split_and!.
    + intros g _ _ _. split; [done|]. by exists r.
    + apply stored_wins_upsert.
    + apply insert_or_ignore_present.
    + done.
    + done.
    + apply insert_or_ignore_twice.
    + unfold stored_wins. simpl.
      by rewrite !upsert_win_lookup, !decide_True.
  - assert (filter P (giveaways db) = []) as Hnone by (by apply head_None).
    rewrite filter_app, Hnone. simpl.
    rewrite filter_cons_True by done. simpl.
    split_and!.
    + intros g Hg Hg1 Hg2. exfalso.
      assert (g ∈ filter P (giveaways db)) as Hin
        by (by apply list_elem_of_filter).
      rewrite Hnone in Hin. by apply not_elem_of_nil in Hin.
    + apply stored_wins_upsert.
    + apply insert_or_ignore_present.
    + done.
    + done.
    + apply insert_or_ignore_twice.
    + unfold stored_wins. simpl.
      by rewrite !upsert_win_lookup, !decide_True.
Qed.

(** A user recorded twice for the same prize: one winner row, two wins. *)
Lemma manual_reuses_witness :
  let g := mkGiveaway 1 10 100 (Some 500) 7 "Nitro" 1 1000 ended in
  let db := mkDB [g] 1 [] [] ∅ [] [] in
  let r1 := manual db 10 "Nitro" 21 2000 in
  let r2 := manual r1.1 10 "Nitro" 21 3000 in
  giveaways r1.1 = giveaways db ∧ r1.2 = 1 ∧ r2.2 = 1
  ∧ winners r2.1 = [(1, 21)] ∧ stored_wins r2.1 10 21 = 2.
Proof.
  intros g db r1 r2.
  destruct (manual_reuses_and_recounts db 10 "Nitro" 21 2000 3000)
    as (Hreuse & _ & _ & Hid & _ & Hw & _).
  destruct (Hreuse g) as [Hgs _]; [left | reflexivity | reflexivity |].
  split; [exact Hgs|]. split; [reflexivity|]. split; [exact Hid|].
  split; [exact Hw | reflexivity].
Defined.

(** ** Deleting a giveaway *)

Lemma fetch_after_delete db giveaway_id gid' :
  head (filter (λ g, id g = gid') (filter (λ g, id g ≠ giveaway_id) (giveaways db))) =
  if decide (gid' = giveaway_id) then None else fetch_giveaway db gid'.
Proof.
  rewrite list_filter_filter. destruct (decide (gid' = giveaway_id)) as [->|Hne].
  - apply head_None. induction (giveaways db) as [|g gs IH]; [done|].
    rewrite filter_cons_False by tauto. done.
  - unfold fetch_giveaway. f_equal. apply list_filter_iff.
    intros g. split; [tauto|]. intros <-. done.
Qed.




(** ** Rerolling *)

Section Rerolling.
Context {order : SetOrder}.

Lemma set_list_length xs : NoDup xs → length (set_list xs) = length xs.
Proof.
  intros Hnd. apply Permutation_length. apply NoDup_Permutation;
    [apply set_list_NoDup | done | intros x; apply set_list_elem].
Qed.

Lemma reroll_pool_elem es prev u :
  u ∈ reroll_pool es prev ↔ u ∈ es ∧ u ∉ prev.
Proof.
  unfold reroll_pool.
  rewrite set_list_elem, list_elem_of_filter, set_list_elem. tauto.
Qed.

Lemma reroll_pool_NoDup es prev : NoDup (reroll_pool es prev).
Proof. apply set_list_NoDup. Qed.

Lemma remove_count_range prev count :
  prev ≠ [] → 1 ≤ remove_count prev count ≤ len prev.
Proof.
  intros Hne. unfold remove_count, len.
  destruct prev; [done|]. simpl. lia.
Qed.

Lemma reroll_to_remove_facts prev count target tr :
  prev ≠ [] → NoDup prev → reroll_to_remove prev count target = Some tr →
  tr ≠ [] ∧ NoDup tr ∧ (∀ u, u ∈ tr → u ∈ prev)
  ∧ (1 ≤ len tr ≤ len prev)
  ∧ match target with
    | Some t => tr = [t] ∧ t ∈ prev
    | None => len tr = remove_count prev count
              ∧ tr = drop (length prev - Z.to_nat (remove_count prev count)) prev
    end.
Proof.
  intros Hne Hnd. unfold reroll_to_remove. destruct target as [t|].
  - case_bool_decide as Ht; [done|]. intros [= <-].
    assert (t ∈ prev) as Hin by (by destruct (decide (t ∈ prev))).
    split_and!; [done | apply NoDup_singleton | | | | done | done].
    + by intros u ->%list_elem_of_singleton.
    + unfold len. simpl. lia.
    + unfold len. destruct prev; [done | simpl; lia].
  - intros [= <-]. fold (remove_count prev count).
    pose proof (remove_count_range prev count Hne) as Hk.
    assert (len (drop (length prev - Z.to_nat (remove_count prev count)) prev)
            = remove_count prev count) as Hlen.
    { unfold len in *. rewrite length_drop. lia. }
    split_and!; [| | | lia | lia | done | done].
    + intros E. rewrite E in Hlen. unfold len in Hlen. simpl in Hlen. lia.
    + eapply sublist_NoDup; [done | apply sublist_drop].
    + intros u Hu. eapply elem_of_sublist; [done | apply sublist_drop].
Qed.

Lemma remove_keeps_tables db gid tr guild :
  let db2 := decrement_win_counts (remove_winners db gid tr) guild tr in
  giveaways db2 = giveaways db ∧ entrants db2 = entrants db
  ∧ winners db2 = filter (λ r, ¬ (r.1 = gid ∧ r.2 ∈ tr)) (winners db)
  ∧ vouches db2 = vouches db ∧ vouch_blocks db2 = vouch_blocks db
  ∧ seq db2 = seq db.
Proof. simpl. by rewrite foldl_delete_winner. Qed.

(** What a reroll that gets as far as removing winners does. *)
Lemma reroll_outcome db guild gid count target draws g tr :
  fetch_giveaway db gid = Some g → guild_id g = guild → status g = ended →
  let prev := set_list (get_winners db gid) in
  prev ≠ [] → reroll_to_remove prev count target = Some tr →
  let db2 := decrement_win_counts (remove_winners db gid tr) guild tr in
  let pool := reroll_pool (get_entrants db gid) prev in
  let new := sample_loop pool (Z.to_nat (Z.min (len pool) (len tr))) draws in
  let r := reroll db guild gid count target draws in
  (get_entrants db gid = [] ∧ r = (db2, RerollNoEntrants))
  ∨ (get_entrants db gid ≠ [] ∧ pool = [] ∧ r = (db2, RerollNoEligible))
  ∨ (get_entrants db gid ≠ [] ∧ pool ≠ []
     ∧ r = (increment_win_counts
              (with_winners db2 (winners db2 ++ (pair gid <$> new))) guild new,
            RerollComplete tr new)).
Proof.
  intros Hg Hguild Hst prev Hprev Htr db2 pool new r.
  pose proof (fetch_giveaway_Some _ _ _ Hg) as [Hin Hid].
  subst r. unfold reroll. rewrite Hg, Hid, Hguild.
  rewrite bool_decide_eq_false_2 by tauto.
  rewrite bool_decide_eq_false_2 by (rewrite Hst; tauto).
  fold prev. rewrite bool_decide_eq_false_2 by done. rewrite Htr.
  fold db2. change (get_entrants db2 gid) with (get_entrants db gid).
  destruct (decide (get_entrants db gid = [])) as [Hes|Hes].
  { left. by rewrite bool_decide_eq_true_2. }
  right. rewrite bool_decide_eq_false_2 by done. fold pool.
  destruct (decide (pool = [])) as [Hp|Hp].
  { left. by rewrite bool_decide_eq_true_2. }
  right. rewrite bool_decide_eq_false_2 by done.
  rewrite random_sample_Some by (unfold len; lia). fold new.
  unfold set_winners.
  assert (giveaway_exists db2 gid = true) as ->.
  { apply giveaway_exists_fetch. change (fetch_giveaway db2 gid)
      with (fetch_giveaway db gid). by rewrite Hg. }
  rewrite orb_true_r. split_and!; [done..|].
  rewrite foldl_insert_fresh; [done| |].
  - apply NoDup_fmap_2; [|apply sample_loop_NoDup, reroll_pool_NoDup].
    by intros ?? [=].
  - intros x Hx. apply list_elem_of_fmap in Hx as (u & -> & Hu).
    apply sample_loop_elem, reroll_pool_elem in Hu as [_ Hu].
    intros Hw. apply Hu. apply set_list_elem, select_user_id_elem.
    simpl in Hw. rewrite foldl_delete_winner in Hw.
    by apply list_elem_of_filter in Hw as [_ ?].
Qed.

(** A reroll either stops before it writes anything or gets as far as
    removing winners. *)
Lemma reroll_inv db guild gid count target draws :
  let r := reroll db guild gid count target draws in
  let prev := set_list (get_winners db gid) in
  (r.1 = db ∧ (r.2 = RerollNotFound ∨ r.2 = RerollNotEnded
               ∨ r.2 = RerollNoPreviousWinners ∨ r.2 = RerollNotAWinner))
  ∨ ∃ g tr, fetch_giveaway db gid = Some g ∧ guild_id g = guild
            ∧ status g = ended ∧ prev ≠ []
            ∧ reroll_to_remove prev count target = Some tr.
Proof.
  intros r prev. subst r. unfold reroll.
  destruct (fetch_giveaway db gid) as [g|] eqn:Hg; [|left; simpl; tauto].
  pose proof (fetch_giveaway_Some _ _ _ Hg) as [_ Hid]. rewrite Hid. fold prev.
  case_bool_decide as Hguild; [left; simpl; tauto|].
  case_bool_decide as Hst; [left; simpl; tauto|].
  case_bool_decide as Hprev; [left; simpl; tauto|].
  destruct (reroll_to_remove prev count target) as [tr|] eqn:Htr;
    [|left; simpl; tauto].
  right. exists g, tr. split_and!; try done.
Qed.

(** C5: when a reroll replies that there are no entrants, or no eligible
    entrants, to reroll from, the database it leaves is the one in which the
    winners chosen for removal have been removed and their win counts
    lowered: the removal set is not empty, none of its members is a winner
    of the giveaway any more, each one's stored count is one lower (never
    below zero), and the reply is the failure, not a completed reroll. *)
Theorem reroll_failure_keeps_removal db guild gid count target draws db' res :
  reroll db guild gid count target draws = (db', res) →
  res = RerollNoEntrants ∨ res = RerollNoEligible →
  ∃ g tr,
    fetch_giveaway db gid = Some g ∧ guild_id g = guild
    ∧ reroll_to_remove (set_list (get_winners db gid)) count target = Some tr
    ∧ tr ≠ [] ∧ (∀ u, u ∈ tr → u ∈ get_winners db gid)
    ∧ db' = decrement_win_counts (remove_winners db gid tr) guild tr
    ∧ get_winners db' gid = filter (λ u, u ∉ tr) (get_winners db gid)
    ∧ (∀ u, u ∈ tr → u ∉ get_winners db' gid)
    ∧ (∀ u, u ∈ tr →
         stored_wins db' guild u = Z.max 0 (stored_wins db guild u - 1))
    ∧ (res = RerollNoEntrants ↔ get_entrants db gid = [])
    ∧ db' ≠ db.
Proof.
  intros Hr Hres.
  destruct (reroll_inv db guild gid count target draws)
    as [[_ Hearly]|(g & tr & Hg & Hguild & Hst & Hprev & Htr)].
  { rewrite Hr in Hearly. simpl in Hearly.
    destruct Hres as [-> | ->]; destruct Hearly as [?|[?|[?|?]]]; done. }
  destruct (reroll_to_remove_facts _ _ _ _ Hprev (set_list_NoDup _) Htr)
    as (Hne & Hndtr & Hsub & _).
  assert (db' = decrement_win_counts (remove_winners db gid tr) guild tr
          ∧ (res = RerollNoEntrants ↔ get_entrants db gid = [])) as [-> Hiff].
  { destruct (reroll_outcome db guild gid count target draws g tr Hg Hguild Hst
                Hprev Htr) as [[Hes Ho]|[(Hes & Hp & Ho)|(Hes & Hp & Ho)]];
      rewrite Hr in Ho; injection Ho as -> ->.
    - done.
    - split; [done|]. split; [done|]. intros ?. done.
    - destruct Hres; done. }
  assert (get_winners (decrement_win_counts (remove_winners db gid tr) guild tr) gid
          = filter (λ u, u ∉ tr) (get_winners db gid)) as Hws.
  { change (get_winners (decrement_win_counts ?d _ _) gid) with (get_winners d gid).
    by rewrite get_winners_remove, decide_True. }
  exists g, tr. split_and!; try done.
  - intros u Hu. by apply set_list_elem, Hsub.
  - intros u Hu. rewrite Hws. intros Hin.
    by apply list_elem_of_filter in Hin as [? _].
  - intros u Hu. unfold stored_wins. simpl.
    rewrite decrement_stored, decide_True by done. by rewrite decide_True.
  - intros Heq. destruct tr as [|u tr]; [done|].
    assert (u ∈ get_winners db gid) as Hu by (apply set_list_elem, Hsub; left).
    rewrite <- Heq, Hws in Hu. apply list_elem_of_filter in Hu as [Hu _].
    apply Hu. left.
Qed.

End Rerolling.

(** The only entrant is the winner: rerolling removes the winner, prunes the
    win-count row and replies that no eligible entrant remains. *)
Lemma reroll_failure_witness :
  let g := mkGiveaway 1 10 100 (Some 500) 7 "Nitro" 1 1000 ended in
  let db := mkDB [g] 1 [(1, 21)] [(1, 21)] {[ (10, 21) := 1 ]} [] [] in
  let r := reroll (order := insertion_order) db 10 1 (Some 1) None [] in
  r.2 = RerollNoEligible ∧ winners r.1 = [] ∧ win_counts r.1 = ∅ ∧ r.1 ≠ db.
Proof.
  intros g db r.
  destruct (reroll_failure_keeps_removal (order := insertion_order)
              db 10 1 (Some 1) None [] r.1 r.2)
    as (g' & tr & _ & _ & _ & _ & _ & _ & _ & _ & _ & _ & Hchanged).
  - vm_compute. reflexivity.
  - right. vm_compute. reflexivity.
  - split; [vm_compute; reflexivity|]. split; [vm_compute; reflexivity|].
    split; [vm_compute; reflexivity | exact Hchanged].
Defined.

Section RerollWinners.
Context {order : SetOrder}.

Lemma select_user_id_pairs gid us gid' :
  select_user_id (pair gid <$> us) gid' = if decide (gid' = gid) then us else [].
Proof.
  unfold select_user_id. induction us as [|u us IH]; simpl.
  - by destruct (decide _).
  - destruct (decide (gid' = gid)) as [->|Hne].
    + rewrite filter_cons_True by done. simpl. by f_equal.
    + rewrite filter_cons_False by (simpl; congruence). done.
Qed.

(** The winners of every giveaway after a reroll that got as far as removing
    winners: the ones kept, then the replacements. *)
Lemma reroll_winners_after db guild gid count target draws g tr :
  fetch_giveaway db gid = Some g → guild_id g = guild → status g = ended →
  let ws := get_winners db gid in
  set_list ws ≠ [] → reroll_to_remove (set_list ws) count target = Some tr →
  let r := reroll db guild gid count target draws in
  ∃ added,
    get_winners r.1 gid = filter (λ u, u ∉ tr) ws ++ added
    ∧ NoDup added
    ∧ (∀ u, u ∈ added → u ∈ get_entrants db gid ∧ u ∉ ws)
    ∧ len added ≤ len tr
    ∧ ((r.2 = RerollNoEntrants ∧ added = [] ∧ get_entrants db gid = [])
       ∨ (r.2 = RerollNoEligible ∧ added = []
          ∧ reroll_pool (get_entrants db gid) (set_list ws) = [])
       ∨ (r.2 = RerollComplete tr added
          ∧ len added =
            Z.min (len (reroll_pool (get_entrants db gid) (set_list ws))) (len tr)))
    ∧ (∀ gid', gid' ≠ gid → get_winners r.1 gid' = get_winners db gid')
    ∧ giveaways r.1 = giveaways db ∧ entrants r.1 = entrants db
    ∧ seq r.1 = seq db
    ∧ winners r.1 =
      filter (λ row, ¬ (row.1 = gid ∧ row.2 ∈ tr)) (winners db) ++ (pair gid <$> added)
    ∧ (∀ g' u,
         stored_wins r.1 g' u =
         (if decide (g' = guild)
          then Z.max 0 (stored_wins db g' u - (if decide (u ∈ tr) then 1 else 0))
          else stored_wins db g' u)
         + (if decide (g' = guild ∧ u ∈ added) then 1 else 0)).
Proof.
  intros Hg Hguild Hst ws Hprev Htr r.
  destruct (reroll_to_remove_facts _ _ _ _ Hprev (set_list_NoDup _) Htr)
    as (_ & Hndtr & _).
  assert (∀ g' u, stored_wins (decrement_win_counts (remove_winners db gid tr) guild tr)
                    g' u =
                  if decide (g' = guild)
                  then Z.max 0 (stored_wins db g' u - (if decide (u ∈ tr) then 1 else 0))
                  else stored_wins db g' u) as Hdec.
  { intros g' u. unfold stored_wins. simpl. by rewrite decrement_stored. }
  pose proof (get_winners_remove db gid tr) as Hrem.
  destruct (reroll_outcome db guild gid count target draws g tr Hg Hguild Hst
              Hprev Htr) as [[Hes Ho]|[(Hes & Hp & Ho)|(Hes & Hp & Ho)]];
    subst r; rewrite Ho; simpl.
  - exists []. rewrite app_nil_r.
    change (get_winners (decrement_win_counts ?d _ _)) with (get_winners d).
    split_and!; try done.
    + by rewrite Hrem, decide_True.
    + apply NoDup_nil_2.
    + by intros u ?%not_elem_of_nil.
    + unfold len. simpl. lia.
    + by left.
    + intros gid' Hne. by rewrite Hrem, decide_False.
    + simpl. by rewrite foldl_delete_winner, app_nil_r.
    + intros g' u. rewrite Hdec.
      rewrite (decide_False (P := g' = guild ∧ u ∈ [])); [lia|].
      by intros [_ ?%not_elem_of_nil].
  - exists []. rewrite app_nil_r.
    change (get_winners (decrement_win_counts ?d _ _)) with (get_winners d).
    split_and!; try done.
    + by rewrite Hrem, decide_True.
    + apply NoDup_nil_2.
    + by intros u ?%not_elem_of_nil.
    + unfold len. simpl. lia.
    + right. by left.
    + intros gid' Hne. by rewrite Hrem, decide_False.
    + simpl. by rewrite foldl_delete_winner, app_nil_r.
    + intros g' u. rewrite Hdec.
      rewrite (decide_False (P := g' = guild ∧ u ∈ [])); [lia|].
      by intros [_ ?%not_elem_of_nil].
  - set (pool := reroll_pool (get_entrants db gid) (set_list ws)) in *.
    set (new := sample_loop pool (Z.to_nat (Z.min (len pool) (len tr))) draws).
    exists new.
    assert (len new = Z.min (len pool) (len tr)) as Hlen.
    { unfold len, new. rewrite sample_loop_length; unfold len; lia. }
    split_and!; try done.
    + unfold get_winners at 1. simpl. rewrite select_user_id_app.
      rewrite select_user_id_pairs, decide_True by done. f_equal.
      specialize (Hrem gid). rewrite decide_True in Hrem by done.
      unfold ws. rewrite <- Hrem. unfold get_winners, remove_winners. simpl.
      by rewrite foldl_delete_winner.
    + apply sample_loop_NoDup, reroll_pool_NoDup.
    + intros u Hu. apply sample_loop_elem, reroll_pool_elem in Hu as [? Hu].
      split; [done|]. by rewrite set_list_elem in Hu.
    + lia.
    + right. by right.
    + intros gid' Hne. unfold get_winners at 1. simpl.
      rewrite select_user_id_app, select_user_id_pairs, decide_False by done.
      rewrite app_nil_r. specialize (Hrem gid'). rewrite decide_False in Hrem by done.
      rewrite <- Hrem. unfold get_winners, remove_winners. simpl.
      by rewrite foldl_delete_winner.
    + simpl. by rewrite foldl_delete_winner.
    + intros g' u. rewrite <- Hdec. unfold stored_wins at 1. simpl.
      rewrite foldl_upsert_stored by apply sample_loop_NoDup, reroll_pool_NoDup.
      done.
Qed.

End RerollWinners.

(** ** Which winners a reroll removes *)

Section Removal.
Context {order : SetOrder}.


End Removal.



(** ** Whom a reroll can draw *)

Section Pool.
Context {order : SetOrder}.


End Pool.



(** ** Closing and the stored status *)

Section Guard.
Context {order : SetOrder}.




End Guard.



(** ** Integrity of the tables and the cap on winners *)

Lemma get_winners_absent db gid :
  fk_winners db → gid ∉ id <$> giveaways db → get_winners db gid = [].
Proof.
  intros Hfk Hgid. destruct (get_winners db gid) as [|u l] eqn:E; [done|].
  assert (u ∈ get_winners db gid) as Hu by (rewrite E; left).
  apply select_user_id_elem, Hfk in Hu. done.
Qed.

Lemma giveaway_by_id (gs : list Giveaway) g g' :
  NoDup (id <$> gs) → g ∈ gs → g' ∈ gs → id g = id g' → g = g'.
Proof.
  intros Hnd Hg Hg' Hid.
  apply list_elem_of_lookup in Hg as [i Hi], Hg' as [j Hj].
  assert (i = j) as ->.
  { apply (NoDup_lookup (id <$> gs) i j (id g)); [done| |].
    - by rewrite list_lookup_fmap, Hi.
    - by rewrite list_lookup_fmap, Hj, Hid. }
  congruence.
Qed.

Lemma inv_empty : inv empty_db.
Proof.
  unfold inv, fk_winners, capped. simpl. split_and!.
  - apply NoDup_nil_2.
  - by intros g ?%not_elem_of_nil.
  - apply NoDup_nil_2.
  - by intros r ?%not_elem_of_nil.
  - by intros g ?%not_elem_of_nil.
Qed.

(** The invariant only looks at giveaways, [seq] and winners. *)
Lemma inv_ext db db' :
  giveaways db' = giveaways db → seq db' = seq db → winners db' = winners db →
  inv db → inv db'.
Proof.
  intros Hg Hs Hw. unfold inv, fk_winners, capped, get_winners.
  by rewrite Hg, Hs, Hw.
Qed.

Section Invariant.
Context {order : SetOrder}.

Lemma close_running_inv db g draws :
  inv db → g ∈ giveaways db → status g = running →
  ∃ r, close_giveaway db g draws = Some r
       ∧ inv r.1
       ∧ giveaways r.1 =
         (λ g0, if bool_decide (id g0 = id g) then set_status g0 ended else g0)
           <$> giveaways db
       ∧ entrants r.1 = entrants db
       ∧ (∀ row, row ∈ winners r.1 → row ∈ winners db ∨ row ∈ entrants db).
Proof.
  intros (Hids & Hseq & Hnd & Hfk & Hcap) Hg Hst.
  destruct (Hcap g Hg) as [Hlen Hrun]. specialize (Hrun Hst).
  assert (0 ≤ winners_count g) as Hcount by (unfold len in Hlen; lia).
  assert (giveaway_exists db (id g) = true) as Hex.
  { apply bool_decide_eq_true. apply list_elem_of_fmap. eauto. }
  set (ws := drawn (get_entrants db (id g)) (winners_count g) draws).
  eexists. split; [by apply close_giveaway_eq|]. simpl. fold ws.
  assert (∀ gid', select_user_id
            (foldl insert_or_ignore (winners db) (pair (id g) <$> ws)) gid' =
          if decide (gid' = id g) then ws else get_winners db gid') as Hsel.
  { intros gid'. rewrite select_foldl_insert.
    destruct (decide _) as [->|]; [|done]. fold (get_winners db (id g)).
    rewrite Hrun. rewrite foldl_insert_fresh; [done | apply drawn_NoDup |].
    by intros x _ ?%not_elem_of_nil. }
  split_and!; [|done|done|].
  - unfold inv, fk_winners, capped. simpl. split_and!.
    + rewrite <- list_fmap_compose.
      erewrite list_fmap_ext; [exact Hids|]. intros _ g0 _. simpl.
      by case_bool_decide.
    + intros g' Hg'. apply list_elem_of_fmap in Hg' as (g0 & -> & Hg0).
      specialize (Hseq g0 Hg0). by case_bool_decide.
    + by apply foldl_insert_NoDup.
    + intros row Hrow. rewrite <- list_fmap_compose.
      erewrite list_fmap_ext with (g := id); [|intros _ g0 _; simpl; by case_bool_decide].
      apply foldl_insert_elem in Hrow as [Hrow|Hrow]; [by apply Hfk|].
      apply list_elem_of_fmap in Hrow as (u & -> & _). simpl.
      apply list_elem_of_fmap. eauto.
    + intros g' Hg'. apply list_elem_of_fmap in Hg' as (g0 & -> & Hg0).
      unfold get_winners. simpl.
      case_bool_decide as Hid0; simpl.
      * rewrite Hsel, Hid0, decide_True by done.
        assert (g0 = g) as -> by (by apply (giveaway_by_id (giveaways db))).
        split; [|done]. unfold ws. rewrite drawn_length by done. lia.
      * rewrite Hsel, decide_False by done. by apply Hcap.
  - intros row Hrow. apply foldl_insert_elem in Hrow as [Hrow|Hrow]; [by left|].
    right. apply list_elem_of_fmap in Hrow as (u & -> & Hu).
    apply drawn_elem in Hu. by apply select_user_id_elem.
Qed.

Lemma start_inv db guild channel host seconds w p now message :
  inv db → inv (start db guild channel host seconds w p now message).1.
Proof.
  intros Hinv. unfold start. case_bool_decide as Hw; [|done].
  destruct seconds as [s|]; [|done]. case_bool_decide; [done|]. simpl.
  destruct Hinv as (Hids & Hseq & Hnd & Hfk & Hcap).
  set (new := mkGiveaway (seq db + 1) guild channel None host p w (now + s) running).
  set (f := λ g : Giveaway,
         if bool_decide (id g = seq db + 1) then set_message g (Some message) else g).
  assert (∀ g, id (f g) = id g ∧ winners_count (f g) = winners_count g
               ∧ status (f g) = status g) as Hf.
  { intros g. unfold f. by case_bool_decide. }
  assert (seq db + 1 ∉ id <$> giveaways db) as Hfresh.
  { intros Hin. apply list_elem_of_fmap in Hin as (g & Hg1 & Hg2).
    specialize (Hseq g Hg2). lia. }
  assert (id <$> (f <$> giveaways db ++ [new]) = (id <$> giveaways db) ++ [seq db + 1])
    as Hids'.
  { rewrite <- list_fmap_compose, fmap_app. simpl. f_equal.
    - apply list_fmap_ext. intros _ g _. simpl. apply Hf.
    - f_equal. apply Hf. }
  unfold inv, fk_winners, capped. simpl. fold f.
  change (set_id _ (seq db + 1)) with new. rewrite Hids'. split_and!.
  - apply NoDup_app. split_and!; [done| |apply NoDup_singleton].
    intros x Hx ->%list_elem_of_singleton. done.
  - intros g' Hg'. apply list_elem_of_fmap in Hg' as (g0 & -> & Hg0).
    destruct (Hf g0) as (-> & _). apply elem_of_app in Hg0 as [Hg0|Hg0].
    + specialize (Hseq g0 Hg0). lia.
    + apply list_elem_of_singleton in Hg0 as ->. simpl. lia.
  - done.
  - intros row Hrow. apply elem_of_app. left. by apply Hfk.
  - intros g' Hg'. apply list_elem_of_fmap in Hg' as (g0 & -> & Hg0).
    destruct (Hf g0) as (-> & -> & ->). unfold get_winners. simpl.
    apply elem_of_app in Hg0 as [Hg0|Hg0]; [by apply Hcap|].
    apply list_elem_of_singleton in Hg0 as ->. simpl.
    fold (get_winners db (seq db + 1)).
    rewrite get_winners_absent by done. unfold len. simpl. split; [lia|done].
Qed.

Lemma end_inv db guild gid draws :
  inv db →
  inv (end_ db guild gid draws).1
  ∧ ∀ row, row ∈ winners (end_ db guild gid draws).1 →
           row ∈ winners db ∨ row ∈ entrants db.
Proof.
  intros Hinv. unfold end_.
  destruct (fetch_giveaway db gid) as [g|] eqn:Hg; [|by split; [|left]].
  apply fetch_giveaway_Some in Hg as [Hg Hid].
  case_bool_decide; [by split; [|left]|].
  case_bool_decide as Hst; [by split; [|left]|].
  assert (status g = running) as Hrun by (by destruct (status g)).
  destruct (close_running_inv db g draws Hinv Hg Hrun) as (r & -> & Hr & _ & _ & Hw).
  done.
Qed.

(** The loop of [scheduler]. *)
Lemma scheduler_loop_inv now rest db ds :
  inv db → NoDup (id <$> rest) →
  (∀ g, g ∈ rest → g ∈ giveaways db ∧ status g = running) →
  let st := foldl (λ st g,
                     if bool_decide (ends_at g ≤ now) then
                       (match close_giveaway st.1 g (hd [] st.2) with
                        | Some r => r.1
                        | None => st.1
                        end, tl st.2)
                     else st) (db, ds) rest in
  inv st.1 ∧ entrants st.1 = entrants db
  ∧ ∀ row, row ∈ winners st.1 → row ∈ winners db ∨ row ∈ entrants db.
Proof.
  revert db ds. induction rest as [|g rest IH]; intros db ds Hinv Hnd Hrest; simpl.
  { split_and!; [done | done | by left]. }
  rewrite fmap_cons in Hnd. apply NoDup_cons in Hnd as [Hg Hnd].
  destruct (Hrest g) as [Hgin Hrun]; [left|].
  case_bool_decide as Hdue; simpl.
  - destruct (close_running_inv db g (hd [] ds) Hinv Hgin Hrun)
      as (r & -> & Hr & Hgs & Hes & Hw).
    destruct (IH r.1 (tl ds) Hr Hnd) as (H1 & H2 & H3).
    + intros g' Hg'. destruct (Hrest g') as [Hg'in Hg'run]; [by right|].
      split; [|done]. rewrite Hgs. apply list_elem_of_fmap. exists g'.
      split; [|done]. rewrite bool_decide_eq_false_2; [done|].
      intros Heq. apply Hg. rewrite <- Heq. apply list_elem_of_fmap. eauto.
    + split_and!; [done | congruence |].
      intros row Hrow. apply H3 in Hrow as [Hrow|Hrow].
      * by apply Hw.
      * right. by rewrite <- Hes.
  - apply IH; [done | done |]. intros g' Hg'. apply Hrest. by right.
Qed.

Lemma scheduler_inv db now draws :
  inv db →
  inv (scheduler db now draws)
  ∧ ∀ row, row ∈ winners (scheduler db now draws) →
           row ∈ winners db ∨ row ∈ entrants db.
Proof.
  intros Hinv. unfold scheduler.
  destruct (scheduler_loop_inv now (fetch_running_giveaways db) db draws Hinv)
    as (H1 & _ & H3); [| |done].
  - destruct Hinv as (Hids & _). eapply sublist_NoDup; [exact Hids|].
    apply fmap_sublist, sublist_filter.
  - intros g Hg. unfold fetch_running_giveaways in Hg.
    by apply list_elem_of_filter in Hg as [? ?].
Qed.

Lemma filter_out_length (ws tr : list Z) :
  NoDup ws → NoDup tr → (∀ u, u ∈ tr → u ∈ ws) →
  (length (filter (λ u, u ∉ tr) ws) + length tr = length ws)%nat.
Proof.
  intros Hws Htr Hsub.
  pose proof (filter_app_complement (λ u, u ∉ tr) ws) as Hperm.
  apply Permutation_length in Hperm. rewrite length_app in Hperm.
  assert (filter (λ u : Z, ¬ (u ∉ tr)) ws ≡ₚ tr) as Hin.
  { apply NoDup_Permutation; [by apply NoDup_filter | done |].
    intros u. rewrite list_elem_of_filter. split.
    - intros [Hu _]. by destruct (decide (u ∈ tr)).
    - intros Hu. split; [tauto | by apply Hsub]. }
  apply Permutation_length in Hin. lia.
Qed.

Lemma reroll_keeps_inv db guild gid count target draws :
  inv db →
  inv (reroll db guild gid count target draws).1
  ∧ ∀ row, row ∈ winners (reroll db guild gid count target draws).1 →
           row ∈ winners db ∨ row ∈ entrants db.
Proof.
  intros Hinv.
  destruct (reroll_inv db guild gid count target draws)
    as [[-> _]|(g & tr & Hg & Hguild & Hst & Hprev & Htr)]; [by split; [|left]|].
  destruct (reroll_to_remove_facts _ _ _ _ Hprev (set_list_NoDup _) Htr)
    as (_ & Hndtr & Hsub & _).
  destruct (reroll_winners_after db guild gid count target draws g tr
              Hg Hguild Hst Hprev Htr)
    as (added & Hw & Hnda & Hfresh & Hlen & _ & Hother & Hgs & Hes & Hseq' & Htbl & _).
  pose proof (fetch_giveaway_Some _ _ _ Hg) as [Hgin Hid].
  destruct Hinv as (Hids & Hseq & Hnd & Hfk & Hcap).
  split.
  - unfold inv, fk_winners, capped. rewrite Hgs, Hseq', Htbl. split_and!.
    + done.
    + done.
    + apply NoDup_app. split_and!.
      * by apply NoDup_filter.
      * intros row Hrow Hnew. apply list_elem_of_fmap in Hnew as (u & -> & Hu).
        apply list_elem_of_filter in Hrow as [_ Hrow].
        apply Hfresh in Hu as [_ Hu]. apply Hu. by apply select_user_id_elem.
      * apply NoDup_fmap_2; [|done]. by intros ?? [=].
    + intros row Hrow. apply elem_of_app in Hrow as [Hrow|Hrow].
      * apply list_elem_of_filter in Hrow as [_ Hrow]. by apply Hfk.
      * apply list_elem_of_fmap in Hrow as (u & -> & _). simpl.
        apply list_elem_of_fmap. eauto.
    + intros g' Hg'. destruct (decide (id g' = gid)) as [Heq|Hne].
      * assert (g' = g) as -> by (apply (giveaway_by_id (giveaways db)); congruence).
        rewrite Hid, Hw. split; [|by rewrite Hst].
        destruct (Hcap g Hgin) as [Hc _]. rewrite Hid in Hc.
        assert (NoDup (get_winners db gid)) as Hndw
          by (by apply select_user_id_NoDup).
        pose proof (filter_out_length (get_winners db gid) tr Hndw Hndtr) as Hfl.
        unfold len in *. rewrite length_app.
        assert (∀ u, u ∈ tr → u ∈ get_winners db gid) as Hsub'
          by (intros u Hu; by apply set_list_elem, Hsub).
        specialize (Hfl Hsub'). lia.
      * rewrite Hother by done. by apply Hcap.
  - intros row Hrow. rewrite Htbl in Hrow.
    apply elem_of_app in Hrow as [Hrow|Hrow].
    + left. by apply list_elem_of_filter in Hrow as [_ ?].
    + right. apply list_elem_of_fmap in Hrow as (u & -> & Hu).
      apply Hfresh in Hu as [Hu _]. by apply select_user_id_elem.
Qed.

Lemma adjust_remove_inv db guild gid u :
  inv db →
  inv (adjustwins db guild gid u false).1
  ∧ ∀ row, row ∈ winners (adjustwins db guild gid u false).1 → row ∈ winners db.
Proof.
  intros Hinv. unfold adjustwins.
  destruct (fetch_giveaway db gid) as [g|] eqn:Hg; [|done].
  case_bool_decide; [done|]. unfold adjust_win_for_gw. rewrite Hg.
  rewrite bool_decide_eq_false_2 by lia. rewrite bool_decide_eq_true_2 by lia.
  simpl. destruct Hinv as (Hids & Hseq & Hnd & Hfk & Hcap).
  split.
  - unfold inv, fk_winners, capped. simpl. split_and!; [done | done | | |].
    + by apply NoDup_filter.
    + intros row Hrow. apply list_elem_of_filter in Hrow as [_ Hrow]. by apply Hfk.
    + intros g' Hg'. destruct (Hcap g' Hg') as [Hc Hr].
      pose proof (get_winners_remove db gid [u] (id g')) as Hrem.
      unfold get_winners, remove_winners in Hrem. simpl in Hrem.
      unfold get_winners. simpl. rewrite Hrem.
      destruct (decide _); [|done]. split.
      * pose proof (length_filter (λ u0, u0 ∉ [u]) (get_winners db (id g'))).
        unfold len, get_winners in *. lia.
      * intros Hrun. specialize (Hr Hrun). unfold get_winners in Hr.
        by rewrite Hr.
  - intros row Hrow. by apply list_elem_of_filter in Hrow as [_ ?].
Qed.

Lemma delete_inv db guild gid :
  inv db →
  inv (delete db guild gid).1
  ∧ ∀ row, row ∈ winners (delete db guild gid).1 → row ∈ winners db.
Proof.
  intros Hinv. unfold delete.
  destruct (fetch_giveaway db gid) as [g|] eqn:Hg; [|done].
  case_bool_decide; [done|]. unfold delete_giveaway. rewrite Hg. simpl.
  destruct Hinv as (Hids & Hseq & Hnd & Hfk & Hcap).
  split.
  - unfold inv, fk_winners, capped. simpl. split_and!.
    + eapply sublist_NoDup; [exact Hids|]. apply fmap_sublist, sublist_filter.
    + intros g' Hg'. apply list_elem_of_filter in Hg' as [_ Hg']. by apply Hseq.
    + by apply NoDup_filter.
    + intros row Hrow. apply list_elem_of_filter in Hrow as [Hne Hrow].
      apply Hfk, list_elem_of_fmap in Hrow as (g0 & Hid0 & Hg0).
      apply list_elem_of_fmap. exists g0. split; [done|].
      apply list_elem_of_filter. split; [congruence | done].
    + intros g' Hg'. apply list_elem_of_filter in Hg' as [Hne Hg'].
      unfold get_winners. simpl. rewrite select_user_id_filter_other by done.
      by apply Hcap.
  - intros row Hrow. by apply list_elem_of_filter in Hrow as [_ ?].
Qed.

(** Every command of the engine keeps the invariant, and a winner row it
    adds is an entrant row of the state it starts from. *)
Lemma step_inv db op :
  inv db → engine_op op →
  inv (step db op)
  ∧ ∀ row, row ∈ winners (step db op) → row ∈ winners db ∨ row ∈ entrants db.
Proof.
  intros Hinv Hop. destruct op; simpl in *.
  - split; [by apply start_inv|]. intros row Hrow. left. revert Hrow.
    unfold start. case_bool_decide; [|done]. destruct seconds; [|done].
    by case_bool_decide.
  - assert (giveaways (join db giveaway_id guild user_id).1 = giveaways db
            ∧ seq (join db giveaway_id guild user_id).1 = seq db
            ∧ winners (join db giveaway_id guild user_id).1 = winners db)
      as (H1 & H2 & H3).
    { unfold join. case_bool_decide; [done|]. case_bool_decide; [done|].
      simpl. unfold add_entrant. by destruct (giveaway_exists _ _). }
    split; [by eapply inv_ext|]. rewrite H3. by left.
  - assert (giveaways (leave db giveaway_id user_id).1 = giveaways db
            ∧ seq (leave db giveaway_id user_id).1 = seq db
            ∧ winners (leave db giveaway_id user_id).1 = winners db)
      as (H1 & H2 & H3).
    { unfold leave. by case_bool_decide. }
    split; [by eapply inv_ext|]. rewrite H3. by left.
  - by apply end_inv.
  - by apply scheduler_inv.
  - by apply reroll_keeps_inv.
  - subst add. destruct (adjust_remove_inv db guild giveaway_id user_id Hinv).
    split; [done|]. intros row Hrow. left. auto.
  - done.
  - destruct (delete_inv db guild giveaway_id Hinv).
    split; [done|]. intros row Hrow. left. auto.
Qed.

Lemma run_inv ops db : inv db → Forall engine_op ops → inv (run db ops).
Proof.
  revert db. induction ops as [|op ops IH]; intros db Hinv Hops; [done|].
  apply Forall_cons in Hops as [Hop Hops]. simpl. apply IH; [|done].
  by apply step_inv.
Qed.

End Invariant.

Section Cap.
Context {order : SetOrder}.


End Cap.



(** ** The aggregate under the commands that draw *)












Section Aggregate.
Context {order : SetOrder}.











End Aggregate.

(** ** The win-count aggregate *)

(** C1, evaluated where it fails: a giveaway is started and closed without
    entrants, and a win is added by hand for user 7 twice.  The second
    [INSERT OR IGNORE] adds no winner row, but the count is raised again:
    the stored aggregate is 2 while [user_wins] counts one winner record. *)
Lemma adjust_twice_drifts :
  let db := run (order := insertion_order) empty_db
              [OpStart 10 100 7 (Some 60) 1 "Nitro" 1000 500;
               OpEnd 10 1 [];
               OpAdjust 10 1 7 true;
               OpAdjust 10 1 7 true] in
  winners db = [(1, 7)]
  ∧ win_counts db !! (10, 7) = Some 2
  ∧ stored_wins db 10 7 = 2
  ∧ (user_wins db 10 7).1 = 1.
Proof. vm_compute. split_and!; reflexivity. Qed.

(** * More of the engine *)

(** ** Joining and leaving *)

Lemma filter_ne_fresh {A} `{EqDecision A} (l : list A) x :
  x ∉ l → filter (λ y, y ≠ x) (l ++ [x]) = l.
Proof.
  intros Hx. rewrite filter_app, filter_cons_False, filter_nil, app_nil_r by tauto.
  induction l as [|y l IH]; [done|].
  apply not_elem_of_cons in Hx as [Hne Hx].
  rewrite filter_cons_True by done. f_equal. by apply IH.
Qed.



(** X2: leaving undoes joining: a user who was not an entrant, joins and
    leaves again leaves the database exactly as it was; leaving without
    being an entrant writes nothing; and leaving removes the row whatever the
    status of the giveaway and whatever the gate would say. *)
Theorem leave_undoes_join db giveaway_id guild user_id :
  (user_id ∉ get_entrants db giveaway_id →
     leave db giveaway_id user_id = (db, false)
     ∧ ((join db giveaway_id guild user_id).2 = JoinedNow →
        giveaway_exists db giveaway_id = true →
        leave (join db giveaway_id guild user_id).1 giveaway_id user_id = (db, true)))
  ∧ (user_id ∈ get_entrants db giveaway_id →
     (leave db giveaway_id user_id).2 = true
     ∧ (user_id ∉ get_entrants (leave db giveaway_id user_id).1 giveaway_id)
     ∧ ∀ gid' u', (gid', u') ≠ (giveaway_id, user_id) →
         ((u' ∈ get_entrants (leave db giveaway_id user_id).1 gid')
          ↔ (u' ∈ get_entrants db gid'))).
Proof.
  split.
  - intros Hnew. split.
    + unfold leave. by rewrite bool_decide_eq_true_2.
    + unfold join. case_bool_decide; [done|].
      rewrite bool_decide_eq_false_2 by done. simpl. intros _ Hex.
      unfold add_entrant. rewrite Hex.
      assert ((giveaway_id, user_id) ∉ entrants db) as Hrow
        by (by rewrite <- select_user_id_elem).
      unfold insert_or_ignore. rewrite bool_decide_eq_false_2 by done.
      unfold leave. rewrite bool_decide_eq_false_2.
      * unfold remove_entrant, with_entrants. simpl.
        rewrite filter_ne_fresh by done. by rewrite db_eta.
      * intros Hn. apply Hn. unfold get_entrants. simpl.
        apply select_user_id_elem, elem_of_app. right. left.
  - intros Hin. unfold leave. rewrite bool_decide_eq_false_2 by tauto. simpl.
    split; [done|]. unfold get_entrants. simpl. split.
    + rewrite select_user_id_elem, list_elem_of_filter. tauto.
    + intros gid' u' Hne. rewrite !select_user_id_elem, list_elem_of_filter.
      tauto.
Qed.

Lemma leave_undoes_witness :
  let db := mkDB [mkGiveaway 1 10 100 None 7 "Nitro" 1 1000 ended] 1
              [(1, 21)] [] ∅ [] [] in
  leave (join db 1 10 22).1 1 22 = (db, true)
  ∧ get_entrants (leave db 1 21).1 1 = [].
Proof.
  intros db.
  destruct (leave_undoes_join db 1 10 22) as [Hnew _].
  destruct Hnew as [_ Hround];
    [refine (bool_decide_unpack _ _); vm_compute; exact I|].
  split; [exact (Hround eq_refl eq_refl) | reflexivity].
Defined.

(** ** Commands addressed to another guild *)

Section Refusals.
Context {order : SetOrder}.

(** X3: a command that names a giveaway without a row, or a giveaway of
    another guild than the one it is issued in, is answered "not found" (or
    "invalid") and writes nothing: ending, rerolling, deleting, adjusting
    wins, vouching, adding and removing a vouch. *)
Theorem foreign_giveaway_untouched db guild gid draws count target user_id add :
  (fetch_giveaway db gid = None
   ∨ ∃ g, fetch_giveaway db gid = Some g ∧ guild_id g ≠ guild) →
  end_ db guild gid draws = (db, EndNotFound)
  ∧ reroll db guild gid count target draws = (db, RerollNotFound)
  ∧ delete db guild gid = (db, false)
  ∧ adjustwins db guild gid user_id add = (db, false)
  ∧ addvouch db guild user_id gid = (db, VouchInvalid)
  ∧ removevouch db guild user_id gid = (db, RemoveInvalid)
  ∧ (vouch db guild user_id gid).1 = db
  ∧ ((vouch db guild user_id gid).2 = VouchInvalid
     ∨ (vouch db guild user_id gid).2 = VouchBlocked).
Proof.
  unfold end_, reroll, delete, adjustwins, addvouch, removevouch, vouch.
  intros [Hnone|(g & Hg & Hguild)].
  - rewrite Hnone. split_and!; try done; case_bool_decide; simpl; tauto.
  - rewrite Hg. rewrite !(bool_decide_eq_true_2 (guild_id g ≠ guild)) by done.
    split_and!; try done; case_bool_decide; simpl; tauto.
Qed.

End Refusals.

Lemma foreign_giveaway_witness :
  let g := mkGiveaway 1 10 100 (Some 500) 7 "Nitro" 1 1000 ended in
  let db := mkDB [g] 1 [(1, 21); (1, 22)] [(1, 21)] {[ (10, 21) := 1 ]} [] [] in
  reroll (order := insertion_order) db 11 1 None None [O] = (db, RerollNotFound)
  ∧ delete db 11 1 = (db, false).
Proof.
  intros g db.
  destruct (foreign_giveaway_untouched (order := insertion_order)
              db 11 1 [O] None None 21 true) as (_ & H1 & H2 & _).
  - right. exists g. split; [reflexivity | vm_compute; congruence].
  - split; [exact H1 | exact H2].
Defined.

(** ** Adjusting wins by hand *)


Section AdjustWins.
Context {order : SetOrder}.


End AdjustWins.


(** ** What closing and rerolling write *)

Section Effects.
Context {order : SetOrder}.

Lemma close_giveaway_Some db g draws r :
  close_giveaway db g draws = Some r →
  NoDup r.2
  ∧ (∀ u, u ∈ r.2 → u ∈ get_entrants db (id g))
  ∧ r.1 = set_giveaway_status
            (increment_win_counts
               (with_winners db
                  (foldl insert_or_ignore (winners db) (pair (id g) <$> r.2)))
               (guild_id g) r.2)
            (id g) ended.
Proof.
  unfold close_giveaway. case_bool_decide as Hes; simpl.
  - unfold random_sample. case_bool_decide; simpl; [|done].
    unfold set_winners. destruct (_ || _); simpl; [|done].
    intros [= <-]. simpl. split_and!; [| |done].
    + apply sample_loop_NoDup, set_list_NoDup.
    + intros u Hu. apply sample_loop_elem in Hu. by apply set_list_elem.
  - intros [= <-]. simpl. split_and!; [apply NoDup_nil_2 | |].
    + by intros u ?%not_elem_of_nil.
    + unfold increment_win_counts, with_winners, with_win_counts. simpl.
      by rewrite db_eta.
Qed.



End Effects.



(** ** The aggregate and the list of wins *)


#[global] Instance newer_first_total : Total newer_first.
Proof. intros a b. unfold newer_first. lia. Qed.

#[global] Instance newer_first_trans : Transitive newer_first.
Proof. intros a b c. unfold newer_first. lia. Qed.

Lemma won_rows_elem db guild u gid p :
  (gid, p) ∈ (g ← giveaways db;
              w ← winners db;
              if bool_decide (id g = w.1 ∧ guild_id g = guild ∧ w.2 = u)
              then [(id g, prize g)] else [])
  ↔ ∃ g, g ∈ giveaways db ∧ id g = gid ∧ prize g = p ∧ guild_id g = guild
         ∧ (gid, u) ∈ winners db.
Proof.
  rewrite list_elem_of_bind. split.
  - intros (g & Hin & Hg). apply list_elem_of_bind in Hin as ([gid' u'] & Hin & Hw).
    case_bool_decide as Hc; [|by apply not_elem_of_nil in Hin].
    apply list_elem_of_singleton in Hin as [= -> ->].
    simpl in Hc. destruct Hc as (Hid & Hgd & ->). rewrite <- Hid in Hw. eauto 10.
  - intros (g & Hg & <- & <- & Hgd & Hw). exists g. split; [|done].
    apply list_elem_of_bind. exists (id g, u). split; [|done].
    rewrite bool_decide_eq_true_2 by done. left.
Qed.

(** X8: [user_wins] returns the number of entries of its list; the list is
    ordered by giveaway id, newest first, and holds exactly the giveaways of
    the guild that the user has a winner row of, with their prizes: wins in
    another guild or of another user are not listed. *)
Theorem user_wins_lists_own_wins db guild user_id :
  let r := user_wins db guild user_id in
  r.1 = len r.2
  ∧ StronglySorted newer_first r.2
  ∧ (∀ gid p, (gid, p) ∈ r.2 ↔
       ∃ g, g ∈ giveaways db ∧ id g = gid ∧ prize g = p ∧ guild_id g = guild
            ∧ user_id ∈ get_winners db gid).
Proof.
  intros r. subst r. unfold user_wins. simpl. split_and!.
  - done.
  - apply StronglySorted_merge_sort; apply _.
  - intros gid p. rewrite merge_sort_Permutation, won_rows_elem.
    by setoid_rewrite select_user_id_elem.
Qed.

(** ** The scheduler *)

Section Scheduler.
Context {order : SetOrder}.

(** The giveaway rows after the loop of [scheduler]. *)
Lemma scheduler_loop_rows now rest db ds :
  inv db → NoDup (id <$> rest) →
  (∀ g, g ∈ rest → g ∈ giveaways db ∧ status g = running) →
  giveaways (foldl (λ st g,
                      if bool_decide (ends_at g ≤ now) then
                        (match close_giveaway st.1 g (hd [] st.2) with
                         | Some r => r.1
                         | None => st.1
                         end, tl st.2)
                      else st) (db, ds) rest).1 =
  (λ g0, if bool_decide (g0 ∈ rest ∧ ends_at g0 ≤ now)
         then set_status g0 ended else g0) <$> giveaways db.
Proof.
  revert db ds. induction rest as [|g rest IH]; intros db ds Hinv Hnd Hrest; simpl.
  { rewrite <- (list_fmap_id (giveaways db)) at 1. apply list_fmap_ext.
    intros _ g0 _. done. }
  rewrite fmap_cons in Hnd. apply NoDup_cons in Hnd as [Hg Hnd].
  destruct (Hrest g) as [Hgin Hrun]; [left|].
  assert (NoDup (id <$> giveaways db)) as Hids by (by destruct Hinv).
  case_bool_decide as Hdue; simpl.
  - destruct (close_running_inv db g (hd [] ds) Hinv Hgin Hrun)
      as (r & -> & Hr & Hgs & _).
    rewrite IH; [|done|done|].
    + rewrite Hgs, <- list_fmap_compose. apply list_fmap_ext.
      intros i g0 Hi. cbv beta. unfold compose.
      assert (g0 ∈ giveaways db) as Hg0 by (by eapply list_elem_of_lookup_2).
      destruct (decide (id g0 = id g)) as [Heq|Hne].
      * assert (g0 = g) as -> by (by apply (giveaway_by_id (giveaways db))).
        rewrite (bool_decide_eq_true_2 (id g = id g)) by done. cbv iota.
        rewrite bool_decide_eq_false_2.
        -- rewrite bool_decide_eq_true_2; [done|]. split; [left | done].
        -- intros [Hin _].
           destruct (Hrest (set_status g ended)) as [_ Hst]; [by right | done].
      * rewrite (bool_decide_eq_false_2 (id g0 = id g)) by done. cbv iota.
        destruct (decide (g0 ∈ rest ∧ ends_at g0 ≤ now)) as [Hc|Hc].
        -- rewrite !bool_decide_eq_true_2; [done | | done].
           split; [right|]; tauto.
        -- rewrite !bool_decide_eq_false_2; [done | | done].
           intros [Hin ?]. apply elem_of_cons in Hin as [->|Hin]; tauto.
    + intros g' Hg'. destruct (Hrest g') as [Hg'in Hg'run]; [by right|].
      split; [|done]. rewrite Hgs. apply list_elem_of_fmap. exists g'.
      split; [|done]. rewrite bool_decide_eq_false_2; [done|].
      intros Heq. apply Hg. rewrite <- Heq. apply list_elem_of_fmap. eauto.
  - rewrite IH; [|done|done|].
    + apply list_fmap_ext. intros _ g0 _. cbv beta.
      destruct (decide (g0 ∈ rest ∧ ends_at g0 ≤ now)) as [Hc|Hc].
      * rewrite !bool_decide_eq_true_2; [done | | done]. split; [right|]; tauto.
      * rewrite !bool_decide_eq_false_2; [done | | done].
        intros [Hin ?]. apply elem_of_cons in Hin as [->|Hin]; tauto.
    + intros g' Hg'. apply Hrest. by right.
Qed.

Lemma scheduler_loop_idle now (rest : list Giveaway) (st : DB * list (list nat)) :
  (∀ g, g ∈ rest → ¬ ends_at g ≤ now) →
  foldl (λ st g,
           if bool_decide (ends_at g ≤ now) then
             (match close_giveaway st.1 g (hd [] st.2) with
              | Some r => r.1
              | None => st.1
              end, tl st.2)
           else st) st rest = st.
Proof.
  revert st. induction rest as [|g rest IH]; intros st Hrest; simpl; [done|].
  rewrite bool_decide_eq_false_2 by (apply Hrest; left).
  apply IH. intros g' Hg'. apply Hrest. by right.
Qed.

(** X9: in a state reached by the commands that go through the selection,
    one tick of the scheduler at time [now] ends every running giveaway
    whose deadline has passed and no other: afterwards every giveaway still
    running has its deadline ahead, the rows of the giveaways that were
    ended already or are not due are unchanged, and a second tick at the
    same time writes nothing. *)
Theorem tick_closes_exactly_the_due ops now draws draws' :
  Forall engine_op ops →
  let db := run empty_db ops in
  let db' := scheduler db now draws in
  (∀ g, g ∈ giveaways db' → status g = running → now < ends_at g)
  ∧ (∀ g, g ∈ giveaways db → status g = running → ends_at g ≤ now →
       set_status g ended ∈ giveaways db')
  ∧ (∀ g, g ∈ giveaways db → status g = ended ∨ now < ends_at g →
       g ∈ giveaways db')
  ∧ scheduler db' now draws' = db'.
Proof.
  intros Hops db db'.
  assert (inv db) as Hinv by (apply run_inv; [apply inv_empty | done]).
  assert (giveaways db' =
          (λ g0, if bool_decide (g0 ∈ fetch_running_giveaways db ∧ ends_at g0 ≤ now)
                 then set_status g0 ended else g0) <$> giveaways db) as Hrows.
  { unfold db', scheduler. apply scheduler_loop_rows; [done| |].
    - destruct Hinv as (Hids & _). eapply sublist_NoDup; [exact Hids|].
      apply fmap_sublist, sublist_filter.
    - intros g Hg. unfold fetch_running_giveaways in Hg.
      by apply list_elem_of_filter in Hg as [? ?]. }
  assert (∀ g, g ∈ giveaways db' → status g = running → now < ends_at g) as Hahead.
  { intros g'. rewrite Hrows. intros Hg' Hrun.
    apply list_elem_of_fmap in Hg' as (g0 & -> & Hg0).
    case_bool_decide as Hc; [done|].
    assert (g0 ∈ fetch_running_giveaways db) by (by apply list_elem_of_filter).
    destruct (decide (ends_at g0 ≤ now)); [tauto | lia]. }
  split_and!.
  - done.
  - intros g Hg Hrun Hdue. rewrite Hrows. apply list_elem_of_fmap. exists g.
    split; [|done]. rewrite bool_decide_eq_true_2; [done|].
    split; [|done]. by apply list_elem_of_filter.
  - intros g Hg Hc. rewrite Hrows. apply list_elem_of_fmap. exists g.
    split; [|done]. rewrite bool_decide_eq_false_2; [done|].
    intros [Hin Hdue]. apply list_elem_of_filter in Hin as [Hrun _].
    destruct Hc as [Hc|Hc]; [congruence | lia].
  - unfold scheduler at 1. rewrite scheduler_loop_idle; [done|].
    intros g Hg. apply list_elem_of_filter in Hg as [Hrun Hg].
    specialize (Hahead g Hg Hrun). lia.
Qed.

End Scheduler.

Lemma tick_closes_witness :
  let ops := [OpStart 10 100 7 (Some 60) 1 "Nitro" 1000 500;
              OpStart 10 100 7 (Some 6000) 1 "Boost" 1000 501;
              OpJoin 1 10 21; OpJoin 2 10 21] in
  let db := scheduler (order := insertion_order)
              (run (order := insertion_order) empty_db ops) 2000 [[O]] in
  (status <$> giveaways db) = [ended; running]
  ∧ scheduler (order := insertion_order) db 2000 [[O]] = db.
Proof.
  intros ops db.
  assert (Forall engine_op ops) as Hops by (repeat constructor).
  destruct (tick_closes_exactly_the_due (order := insertion_order)
              ops 2000 [[O]] [[O]] Hops) as (_ & _ & _ & Hidle).
  split; [vm_compute; reflexivity | exact Hidle].
Defined.

(** ** Integrity of the tables under every command *)

Lemma upsert_positive (guild : Z) (wc : gmap (Z * Z) Z) (u : Z) :
  (∀ k w, wc !! k = Some w → 0 < w) →
  ∀ k w, upsert_win guild wc u !! k = Some w → 0 < w.
Proof.
  intros Hpos k w. rewrite upsert_win_lookup. destruct (decide _) as [->|].
  - intros [= <-]. destruct (wc !! (guild, u)) as [w'|] eqn:E; simpl; [|lia].
    specialize (Hpos _ _ E). lia.
  - apply Hpos.
Qed.

Lemma foldl_upsert_positive (guild : Z) (us : list Z) (wc : gmap (Z * Z) Z) :
  (∀ k w, wc !! k = Some w → 0 < w) →
  ∀ k w, foldl (upsert_win guild) wc us !! k = Some w → 0 < w.
Proof.
  revert wc. induction us as [|u us IH]; intros wc Hpos; simpl; [done|].
  apply IH. by apply upsert_positive.
Qed.

Lemma decrement_positive (guild : Z) (us : list Z) (wc : gmap (Z * Z) Z) :
  (∀ k w, wc !! k = Some w → 0 < w) →
  ∀ k w, prune_zero guild (foldl (dec_win guild) wc us) !! k = Some w → 0 < w.
Proof.
  intros Hpos.
  assert (∀ k w, foldl (dec_win guild) wc us !! k = Some w →
                 0 ≤ w ∧ (k.1 ≠ guild → 0 < w)) as Hq.
  { assert (∀ k w, wc !! k = Some w → 0 ≤ w ∧ (k.1 ≠ guild → 0 < w)) as Hq0.
    { intros k w Hk. specialize (Hpos k w Hk). lia. }
    clear Hpos. revert wc Hq0. induction us as [|u us IH]; intros wc Hq0; [done|].
    simpl. apply IH. intros k w. rewrite dec_win_lookup.
    destruct (decide (k = (guild, u))) as [->|]; [|apply Hq0].
    destruct (wc !! (guild, u)) as [w'|] eqn:E; simpl; [|done].
    intros [= <-]. destruct (Hq0 _ _ E) as [H0 _]. simpl.
    split; [case_bool_decide; lia | done]. }
  intros k w. rewrite prune_zero_lookup.
  destruct (foldl _ _ _ !! k) as [w'|] eqn:E; [|done].
  destruct (decide _) as [|Hn]; [done|]. intros [= <-].
  destruct (Hq _ _ E) as [H0 H1].
  destruct (decide (k.1 = guild)); [|by apply H1].
  destruct (decide (w' ≤ 0)); [tauto | lia].
Qed.

(** Tables over the same giveaway ids stay sound when their rows are old
    rows or refer to a giveaway. *)
Lemma integrity_same_ids db db' :
  integrity db →
  id <$> giveaways db' = id <$> giveaways db → seq db' = seq db →
  NoDup (entrants db') → NoDup (winners db') → NoDup (vouches db') →
  NoDup (vouch_blocks db') →
  (∀ r, r ∈ entrants db' → r ∈ entrants db ∨ r.1 ∈ id <$> giveaways db) →
  (∀ r, r ∈ winners db' → r ∈ winners db ∨ r.1 ∈ id <$> giveaways db) →
  (∀ v, v ∈ vouches db' → v ∈ vouches db ∨ v.2 ∈ id <$> giveaways db) →
  (∀ v, v ∈ vouch_blocks db' → v ∈ vouch_blocks db ∨ v.2 ∈ id <$> giveaways db) →
  integrity db'.
Proof.
  intros (Hids & Hseq & _ & _ & _ & _ & Hfe & Hfw & Hfv & Hfb)
    Hi Hs He Hw Hv Hb He' Hw' Hv' Hb'.
  unfold integrity, fk_winners. rewrite Hi, Hs. split_and!; try done.
  - intros g Hg. assert (id g ∈ id <$> giveaways db) as Hin.
    { rewrite <- Hi. apply list_elem_of_fmap. eauto. }
    apply list_elem_of_fmap in Hin as (g0 & -> & Hg0). by apply Hseq.
  - intros r Hr. destruct (He' r Hr); [by apply Hfe | done].
  - intros r Hr. destruct (Hw' r Hr); [by apply Hfw | done].
  - intros v Hv0. destruct (Hv' v Hv0); [by apply Hfv | done].
  - intros v Hv0. destruct (Hb' v Hv0); [by apply Hfb | done].
Qed.

Lemma exists_in_ids db gid :
  giveaway_exists db gid = true → gid ∈ id <$> giveaways db.
Proof. unfold giveaway_exists. by rewrite bool_decide_eq_true. Qed.

Lemma fetch_in_ids db gid g :
  fetch_giveaway db gid = Some g → gid ∈ id <$> giveaways db.
Proof.
  intros Hg. apply fetch_giveaway_Some in Hg as [Hg <-].
  apply list_elem_of_fmap. eauto.
Qed.

Lemma add_vouch_sound db guild u gid db' :
  integrity db → add_vouch db guild u gid = Some db' →
  integrity db' ∧ win_counts db' = win_counts db.
Proof.
  intros Hint. unfold add_vouch.
  destruct (_ || _) eqn:Hc; [|done]. intros [= <-]. split; [|done].
  pose proof Hint as (_ & _ & He & Hw & Hv & Hb & _).
  apply (integrity_same_ids db); simpl; try done; try (intros r Hr; by left).
  - by apply insert_or_ignore_NoDup.
  - intros v Hin. apply insert_or_ignore_elem in Hin as [?| ->]; [by left|].
    apply orb_true_iff in Hc as [Hc|Hc].
    + left. by apply bool_decide_eq_true in Hc.
    + right. by apply exists_in_ids.
Qed.

Lemma update_sound f db gid :
  (∀ g, id (f g) = id g) → integrity db → integrity (update_giveaway f db gid).
Proof.
  intros Hf Hint. pose proof Hint as (_ & _ & He & Hw & Hv & Hb & _).
  apply (integrity_same_ids db); try done; try (intros r Hr; by left).
  by apply ids_update.
Qed.

Lemma set_winners_sound db gid ws db' :
  integrity db → set_winners db gid ws = Some db' →
  integrity db' ∧ win_counts db' = win_counts db.
Proof.
  intros Hint. unfold set_winners. destruct (_ || _) eqn:Hc; [|done].
  intros [= <-]. split; [|done].
  pose proof Hint as (_ & _ & He & Hw & Hv & Hb & _).
  apply (integrity_same_ids db); simpl; try done; try (intros r Hr; by left).
  - by apply foldl_insert_NoDup.
  - intros r Hr. apply foldl_insert_elem in Hr as [?|Hr]; [by left|].
    apply list_elem_of_fmap in Hr as (u & -> & Hu). right. simpl.
    apply orb_true_iff in Hc as [Hc|Hc].
    + apply bool_decide_eq_true in Hc. subst ws. by apply not_elem_of_nil in Hu.
    + by apply exists_in_ids.
Qed.

Lemma increment_sound db guild us :
  integrity db → positive_counts db →
  integrity (increment_win_counts db guild us)
  ∧ positive_counts (increment_win_counts db guild us).
Proof.
  intros Hint Hpos. split; [done|].
  unfold positive_counts. simpl. by apply foldl_upsert_positive.
Qed.

Lemma remove_sound db gid guild tr :
  integrity db → positive_counts db →
  integrity (decrement_win_counts (remove_winners db gid tr) guild tr)
  ∧ positive_counts (decrement_win_counts (remove_winners db gid tr) guild tr).
Proof.
  intros Hint Hpos. split.
  - pose proof Hint as (_ & _ & He & Hw & Hv & Hb & _).
    apply (integrity_same_ids db); simpl; try done; try (intros r Hr; by left).
    + rewrite foldl_delete_winner. by apply NoDup_filter.
    + intros r Hr. rewrite foldl_delete_winner in Hr.
      apply list_elem_of_filter in Hr as [_ Hr]. by left.
  - unfold positive_counts. simpl. by apply decrement_positive.
Qed.

Section Sound.
Context {order : SetOrder}.

Lemma close_sound db g draws r :
  integrity db → positive_counts db → close_giveaway db g draws = Some r →
  integrity r.1 ∧ positive_counts r.1.
Proof.
  intros Hint Hpos. unfold close_giveaway. case_bool_decide as Hes; simpl.
  - destruct (random_sample _ _ _) as [ws|]; simpl; [|done].
    destruct (set_winners db (id g) ws) as [db1|] eqn:Hset; simpl; [|done].
    intros [= <-]. simpl.
    destruct (set_winners_sound _ _ _ _ Hint Hset) as [Hint1 Hwc].
    assert (positive_counts db1) as Hpos1 by (unfold positive_counts; by rewrite Hwc).
    destruct (increment_sound db1 (guild_id g) ws Hint1 Hpos1) as [Hint2 Hpos2].
    split; [|done]. by apply update_sound.
  - intros [= <-]. simpl. split; [|done]. by apply update_sound.
Qed.

Lemma scheduler_preserves (P : DB → Prop) db now draws :
  (∀ db g ds r, P db → close_giveaway db g ds = Some r → P r.1) →
  P db → P (scheduler db now draws).
Proof.
  intros Hclose. unfold scheduler.
  generalize (fetch_running_giveaways db) as due. intros due.
  change db with (db, draws).1 at 1. generalize (db, draws) as st.
  induction due as [|g due IH]; intros st Hst; simpl; [done|].
  apply IH. case_bool_decide; [|done]. simpl.
  destruct (close_giveaway st.1 g (hd [] st.2)) as [r|] eqn:Hc; [|done].
  by eapply Hclose.
Qed.

End Sound.

Lemma insert_giveaway_sound db g :
  integrity db → integrity (insert_giveaway db g).1.
Proof.
  intros (Hids & Hseq & He & Hw & Hv & Hb & Hfe & Hfw & Hfv & Hfb).
  unfold integrity, fk_winners. simpl. rewrite fmap_app. simpl.
  split_and!; try done.
  - apply NoDup_app. split_and!; [done| |apply NoDup_singleton].
    intros i Hi ->%list_elem_of_singleton.
    apply list_elem_of_fmap in Hi as (g0 & Hi & Hg0). apply Hseq in Hg0. lia.
  - intros g0 [Hg0| ->%list_elem_of_singleton]%elem_of_app; simpl; [|lia].
    apply Hseq in Hg0. lia.
  - intros r Hr. apply elem_of_app. left. by apply Hfe.
  - intros r Hr. apply elem_of_app. left. by apply Hfw.
  - intros r Hr. apply elem_of_app. left. by apply Hfv.
  - intros r Hr. apply elem_of_app. left. by apply Hfb.
Qed.

Lemma delete_giveaway_sound db gid :
  integrity db → positive_counts db →
  integrity (delete_giveaway db gid).1 ∧ positive_counts (delete_giveaway db gid).1.
Proof.
  intros Hint Hpos. unfold delete_giveaway.
  destruct (fetch_giveaway db gid) as [row|]; [|done]. simpl. split.
  - destruct Hint as (Hids & Hseq & He & Hw & Hv & Hb & Hfe & Hfw & Hfv & Hfb).
    assert (∀ i, i ∈ id <$> giveaways db → i ≠ gid →
                 i ∈ id <$> filter (λ g, id g ≠ gid) (giveaways db)) as Hkeep.
    { intros i (g & -> & Hg)%list_elem_of_fmap Hne.
      apply list_elem_of_fmap. exists g. split; [done|].
      by apply list_elem_of_filter. }
    unfold integrity, fk_winners. simpl. split_and!.
    + eapply sublist_NoDup; [exact Hids|]. apply fmap_sublist, sublist_filter.
    + intros g [_ Hg]%list_elem_of_filter. by apply Hseq.
    + by apply NoDup_filter.
    + by apply NoDup_filter.
    + by apply NoDup_filter.
    + by apply NoDup_filter.
    + intros r [Hne Hr]%list_elem_of_filter. apply Hkeep; [by apply Hfe | done].
    + intros r [Hne Hr]%list_elem_of_filter. apply Hkeep; [by apply Hfw | done].
    + intros r [Hne Hr]%list_elem_of_filter. apply Hkeep; [by apply Hfv | done].
    + intros r [Hne Hr]%list_elem_of_filter. apply Hkeep; [by apply Hfb | done].
  - unfold positive_counts. simpl. by apply decrement_positive.
Qed.

Lemma adjust_sound db gid u change :
  integrity db → positive_counts db →
  integrity (adjust_win_for_gw db gid u change).1
  ∧ positive_counts (adjust_win_for_gw db gid u change).1.
Proof.
  intros Hint Hpos. unfold adjust_win_for_gw.
  destruct (fetch_giveaway db gid) as [row|] eqn:Hrow; [|done].
  pose proof Hint as (_ & _ & He & Hw & Hv & Hb & _).
  repeat case_bool_decide; simpl; [| |done].
  - split.
    + apply (integrity_same_ids db); simpl; try done; try (intros r Hr; by left).
      * by apply insert_or_ignore_NoDup.
      * intros r [?| ->]%insert_or_ignore_elem; [by left|].
        right. simpl. by eapply fetch_in_ids.
    + unfold positive_counts. simpl. by apply upsert_positive.
  - split.
    + apply (integrity_same_ids db); simpl; try done; try (intros r Hr; by left).
      * by apply NoDup_filter.
      * intros r [_ Hr]%list_elem_of_filter. by left.
    + unfold positive_counts. simpl.
      apply (decrement_positive (guild_id row) [u]). exact Hpos.
Qed.

Lemma manual_sound db guild p u now :
  integrity db → positive_counts db →
  integrity (add_manual_giveaway_with_winner db guild p u now).1
  ∧ positive_counts (add_manual_giveaway_with_winner db guild p u now).1.
Proof.
  intros Hint Hpos. unfold add_manual_giveaway_with_winner.
  destruct (head _) as [r|] eqn:Hrow.
  - simpl. split.
    + pose proof Hint as (_ & _ & He & Hw & Hv & Hb & _).
      apply (integrity_same_ids db); simpl; try done; try (intros x Hx; by left).
      * by apply insert_or_ignore_NoDup.
      * intros x [?| ->]%insert_or_ignore_elem; [by left|].
        right. simpl. apply head_Some_elem_of in Hrow.
        apply list_elem_of_filter in Hrow as [_ Hrow].
        apply list_elem_of_fmap. eauto.
    + unfold positive_counts. simpl. by apply upsert_positive.
  - set (g := mkGiveaway 0 guild 0 None 0 p 1 now ended).
    pose proof (insert_giveaway_sound db g Hint) as Hint1.
    unfold insert_giveaway in *. simpl in *. split.
    + pose proof Hint1 as (_ & _ & He & Hw & Hv & Hb & _).
      eapply (integrity_same_ids _); [exact Hint1|..]; simpl; try done;
        try (intros x Hx; by left).
      * by apply insert_or_ignore_NoDup.
      * intros x [?| ->]%insert_or_ignore_elem; [by left|].
        right. simpl. rewrite fmap_app. apply elem_of_app. right. simpl.
        by apply list_elem_of_singleton.
    + unfold positive_counts. simpl. by apply upsert_positive.
Qed.

Lemma removevouch_sound db guild u gid :
  integrity db → integrity (removevouch db guild u gid).1.
Proof.
  intros Hint. unfold removevouch.
  destruct (fetch_giveaway db gid) as [g|] eqn:Hg; [|done].
  repeat case_bool_decide; simpl; try done.
  pose proof Hint as (_ & _ & He & Hw & Hv & Hb & _).
  apply (integrity_same_ids db); simpl; try done; try (intros x Hx; by left).
  - by apply NoDup_filter.
  - by apply insert_or_ignore_NoDup.
  - intros x [_ Hx]%list_elem_of_filter. by left.
  - intros x [?| ->]%insert_or_ignore_elem; [by left|].
    right. simpl. by eapply fetch_in_ids.
Qed.

Lemma vouch_sound db guild u gid :
  integrity db →
  integrity (vouch db guild u gid).1
  ∧ win_counts (vouch db guild u gid).1 = win_counts db.
Proof.
  intros Hint. unfold vouch.
  case_bool_decide; [done|].
  destruct (fetch_giveaway db gid) as [g|]; [|done].
  repeat case_bool_decide; simpl; try done.
  destruct (add_vouch db guild u gid) as [db'|] eqn:Ha; [|done].
  by eapply add_vouch_sound.
Qed.

Lemma addvouch_sound db guild u gid :
  integrity db →
  integrity (addvouch db guild u gid).1
  ∧ win_counts (addvouch db guild u gid).1 = win_counts db.
Proof.
  intros Hint. unfold addvouch.
  destruct (fetch_giveaway db gid) as [g|]; [|done].
  repeat case_bool_decide; simpl; try done.
  destruct (add_vouch db guild u gid) as [db'|] eqn:Ha; [|done].
  by eapply add_vouch_sound.
Qed.

Lemma on_message_sound db cfg bot guild u channel says :
  integrity db →
  integrity (on_message db cfg bot guild u channel says).1
  ∧ win_counts (on_message db cfg bot guild u channel says).1 = win_counts db.
Proof.
  intros Hint. unfold on_message.
  destruct bot; [done|]. destruct guild as [guild|]; [|done].
  case_bool_decide; [|done]. destruct says; simpl; [|done].
  case_bool_decide; [done|].
  destruct (filter _ (won_ended db guild u)) as [|[gw p] [|? ?]]; try done.
  case_bool_decide; [done|].
  destruct (add_vouch db guild u gw) as [db'|] eqn:Ha; [|done].
  by eapply add_vouch_sound.
Qed.

Section SoundRuns.
Context {order : SetOrder}.

Lemma reroll_sound db guild gid count target draws :
  integrity db → positive_counts db →
  integrity (reroll db guild gid count target draws).1
  ∧ positive_counts (reroll db guild gid count target draws).1.
Proof.
  intros Hint Hpos. unfold reroll.
  destruct (fetch_giveaway db gid) as [g|]; [|done].
  case_bool_decide; [done|]. case_bool_decide; [done|].
  case_bool_decide; [done|].
  destruct (reroll_to_remove _ count target) as [tr|]; [|done].
  pose proof (remove_sound db (id g) (guild_id g) tr Hint Hpos) as [Hint2 Hpos2].
  case_bool_decide; [done|]. case_bool_decide; [done|].
  destruct (random_sample _ _ draws) as [new|]; [|done].
  destruct (set_winners _ (id g) new) as [db3|] eqn:Hset; [|done].
  destruct (set_winners_sound _ _ _ _ Hint2 Hset) as [Hint3 Hwc].
  apply increment_sound; [done|].
  unfold positive_counts. by rewrite Hwc.
Qed.

Lemma step_sound db op :
  integrity db → positive_counts db →
  integrity (step db op) ∧ positive_counts (step db op).
Proof.
  intros Hint Hpos.
  pose proof Hint as (_ & _ & He & Hw & Hv & Hb & _).
  destruct op as [guild channel host seconds w p now message | gid guild u | gid u
                 | guild gid draws | now draws | guild gid count target draws
                 | guild gid u add | guild p u now | guild gid]; simpl.
  - unfold start. case_bool_decide; [|done].
    destruct seconds as [s|]; [|done]. case_bool_decide; [done|]. simpl.
    split; [|done]. apply update_sound; [done|]. by apply insert_giveaway_sound.
  - unfold join. case_bool_decide; [done|]. case_bool_decide; [done|].
    simpl. unfold add_entrant. destruct (giveaway_exists db gid) eqn:Hex; [|done].
    split; [|done].
    apply (integrity_same_ids db); simpl; try done; try (intros r Hr; by left).
    + by apply insert_or_ignore_NoDup.
    + intros r [?| ->]%insert_or_ignore_elem; [by left|].
      right. by apply exists_in_ids.
  - unfold leave. case_bool_decide; [done|]. simpl. split; [|done].
    apply (integrity_same_ids db); simpl; try done; try (intros r Hr; by left).
    + by apply NoDup_filter.
    + intros r [_ Hr]%list_elem_of_filter. by left.
  - unfold end_. destruct (fetch_giveaway db gid) as [g|]; [|done].
    case_bool_decide; [done|]. case_bool_decide; [done|].
    destruct (close_giveaway db g draws) as [r|] eqn:Hc; [|done].
    by eapply close_sound.
  - apply (scheduler_preserves (λ d, integrity d ∧ positive_counts d)); [|done].
    intros d g ds r [Hi Hp] Hc. by eapply close_sound.
  - by apply reroll_sound.
  - unfold adjustwins. destruct (fetch_giveaway db gid) as [g|]; [|done].
    case_bool_decide; [done|]. by apply adjust_sound.
  - by apply manual_sound.
  - unfold delete. destruct (fetch_giveaway db gid) as [g|]; [|done].
    case_bool_decide; [done|]. by apply delete_giveaway_sound.
Qed.

Lemma exec_sound db c :
  integrity db → positive_counts db →
  integrity (exec db c) ∧ positive_counts (exec db c).
Proof.
  intros Hint Hpos. destruct c as [op|guild u gid|guild u gid|guild u gid|cfg guild u ch];
    cbn [exec].
  - by apply step_sound.
  - destruct (vouch_sound db guild u gid Hint) as [Hi Hwc].
    split; [done|]. unfold positive_counts. by rewrite Hwc.
  - destruct (addvouch_sound db guild u gid Hint) as [Hi Hwc].
    split; [done|]. unfold positive_counts. by rewrite Hwc.
  - split; [by apply removevouch_sound|].
    unfold removevouch. destruct (fetch_giveaway db gid) as [g|]; [|done].
    repeat case_bool_decide; done.
  - destruct (on_message_sound db cfg false (Some guild) u ch true Hint) as [Hi Hwc].
    split; [done|]. unfold positive_counts. by rewrite Hwc.
Qed.

Lemma exec_all_sound db cs :
  integrity db → positive_counts db →
  integrity (exec_all db cs) ∧ positive_counts (exec_all db cs).
Proof.
  revert db. induction cs as [|c cs IH]; intros db Hint Hpos; [done|].
  simpl. destruct (exec_sound db c Hint Hpos). by apply IH.
Qed.

Lemma empty_sound : integrity empty_db ∧ positive_counts empty_db.
Proof.
  split.
  - unfold integrity, fk_winners. simpl.
    split_and!; try apply NoDup_nil_2; by intros ? ?%not_elem_of_nil.
  - intros k w. unfold empty_db. cbn [win_counts]. by rewrite lookup_empty.
Qed.

End SoundRuns.

Section Reachable.
Context {order : SetOrder}.


(** X11: no run from the empty database leaves a zero or negative row in
    [win_counts]: the decrements stop at zero and each is followed by the
    deletion of the guild's rows at zero, so a stored count is at least 1
    and [stored_wins] is 0 only for a user without a row. *)
Theorem stored_counts_stay_positive cs guild u :
  let db := exec_all empty_db cs in
  positive_counts db
  ∧ (stored_wins db guild u = 0 ↔ win_counts db !! (guild, u) = None).
Proof.
  intros db.
  assert (positive_counts db) as Hpos by (apply exec_all_sound; apply empty_sound).
  split; [done|]. unfold stored_wins.
  destruct (win_counts db !! (guild, u)) as [w|] eqn:E; simpl; [|done].
  specialize (Hpos _ _ E). split; [lia | done].
Qed.



End Reachable.


(** ** Vouches *)

Lemma user_vouches_elem db guild u gid p :
  (gid, p) ∈ get_user_vouches db guild u
  ↔ ∃ g, g ∈ giveaways db ∧ id g = gid ∧ prize g = p
         ∧ (guild, u, gid) ∈ vouches db.
Proof.
  unfold get_user_vouches. rewrite merge_sort_Permutation, list_elem_of_bind. split.
  - intros (g & Hin & Hg).
    apply list_elem_of_bind in Hin as ([[guild' u'] gid'] & Hin & Hv).
    case_bool_decide as Hc; [|by apply not_elem_of_nil in Hin].
    apply list_elem_of_singleton in Hin as [= -> ->].
    simpl in Hc. destruct Hc as (Hid & [= -> ->]). rewrite <- Hid in Hv. eauto 10.
  - intros (g & Hg & <- & <- & Hv). exists g. split; [|done].
    apply list_elem_of_bind. exists (guild, u, id g). split; [|done].
    rewrite bool_decide_eq_true_2 by done. left.
Qed.

Lemma user_vouches_ids db guild u gid :
  integrity db →
  gid ∈ (get_user_vouches db guild u).*1 ↔ (guild, u, gid) ∈ vouches db.
Proof.
  intros (_ & _ & _ & _ & _ & _ & _ & _ & Hfv & _). split.
  - intros ([gid' p] & -> & Hin)%list_elem_of_fmap. simpl.
    apply user_vouches_elem in Hin as (g & _ & _ & _ & Hv). done.
  - intros Hv. pose proof (Hfv _ Hv) as (g & Hid & Hg)%list_elem_of_fmap.
    simpl in Hid. apply list_elem_of_fmap. exists (gid, prize g). split; [done|].
    apply user_vouches_elem. exists g. eauto.
Qed.

Lemma vouch_count_insert db guild u gid guild' u' :
  (guild, u, gid) ∉ vouches db →
  vouch_count (with_vouches db (insert_or_ignore (vouches db) (guild, u, gid)))
    guild' u' =
  vouch_count db guild' u'
  + (if bool_decide (guild' = guild ∧ u' = u) then 1 else 0).
Proof.
  intros Hno. unfold vouch_count, insert_or_ignore, len. simpl.
  rewrite bool_decide_eq_false_2 by done. rewrite filter_app, length_app.
  case_bool_decide as Hc.
  - destruct Hc as [-> ->]. rewrite filter_cons_True by done. simpl. lia.
  - rewrite filter_cons_False; [simpl; lia|]. simpl. intros [= -> ->]. tauto.
Qed.

Lemma vouch_count_remove db guild u gid guild' u' (bs : list (Z * Z * Z)) :
  NoDup (vouches db) → (guild, u, gid) ∈ vouches db →
  vouch_count
    (mkDB (giveaways db) (seq db) (entrants db) (winners db) (win_counts db)
       (filter (λ v, v ≠ (guild, u, gid)) (vouches db)) bs) guild' u' =
  vouch_count db guild' u'
  - (if bool_decide (guild' = guild ∧ u' = u) then 1 else 0).
Proof.
  intros Hnd Hin. unfold vouch_count, len. simpl.
  generalize dependent (vouches db). intros vs. induction vs as [|v vs IH]; intros Hnd Hin.
  { by apply not_elem_of_nil in Hin. }
  apply NoDup_cons in Hnd as [Hv Hnd].
  destruct (decide (v = (guild, u, gid))) as [->|Hne].
  - rewrite filter_cons_False by (intros Hx; by apply Hx).
    assert (filter (λ v, v ≠ (guild, u, gid)) vs = vs) as ->.
    { clear IH Hin Hnd. induction vs as [|x vs IH]; [done|].
      apply not_elem_of_cons in Hv as [Hx Hv].
      rewrite filter_cons_True by done. by rewrite IH. }
    case_bool_decide as Hc.
    + destruct Hc as [-> ->]. rewrite filter_cons_True by done. simpl. lia.
    + rewrite filter_cons_False; [lia|]. simpl. intros [= -> ->]. tauto.
  - rewrite (filter_cons_True (λ v, v ≠ (guild, u, gid))) by done.
    apply elem_of_cons in Hin as [Hin|Hin]; [by destruct Hne|].
    specialize (IH Hnd Hin).
    destruct (decide (v.1 = (guild', u'))) as [Hp|Hp].
    + rewrite !filter_cons_True by done. simpl length. lia.
    + rewrite !filter_cons_False by done. done.
Qed.

Section Vouching.
Context {order : SetOrder}.

(** X13: [/gw vouch] in any reachable state.  The vouch is recorded exactly
    when it is not blocked, the giveaway has a row in the caller's guild,
    the caller holds a winner row of it and has no vouch for it yet; the
    giveaway need not have ended.  A recorded vouch is one new row: the
    caller's vouch count in the guild goes up by one, no other count and no
    other table changes, and the same command again answers that the vouch
    is already there.  Every other answer writes nothing, and the insert
    never fails. *)
Theorem vouch_records_once cs guild u gid :
  let db := exec_all empty_db cs in
  let r := vouch db guild u gid in
  (r.2 = VouchRecorded ↔
     ((guild, u, gid) ∉ vouch_blocks db)
     ∧ (∃ g, fetch_giveaway db gid = Some g ∧ guild_id g = guild)
     ∧ u ∈ get_winners db gid
     ∧ ((guild, u, gid) ∉ vouches db))
  ∧ (r.2 = VouchRecorded →
       vouches r.1 = vouches db ++ [(guild, u, gid)]
       ∧ (∀ guild' u', vouch_count r.1 guild' u' =
            vouch_count db guild' u'
            + (if bool_decide (guild' = guild ∧ u' = u) then 1 else 0))
       ∧ giveaways r.1 = giveaways db ∧ entrants r.1 = entrants db
       ∧ winners r.1 = winners db ∧ win_counts r.1 = win_counts db
       ∧ vouch_blocks r.1 = vouch_blocks db
       ∧ vouch r.1 guild u gid = (r.1, VouchAlready))
  ∧ (r.2 ≠ VouchRecorded → r.1 = db)
  ∧ r.2 ≠ VouchFailed.
Proof.
  intros db r.
  assert (integrity db) as Hint by (apply exec_all_sound; apply empty_sound).
  pose proof (user_vouches_ids db guild u gid Hint) as Hvid.
  subst r. unfold vouch.
  case_bool_decide as Hb.
  { simpl. split_and!; try done. split; [done|tauto]. }
  destruct (fetch_giveaway db gid) as [g|] eqn:Hg; cycle 1.
  { simpl. split_and!; try done. split; [done|]. by intros (_ & (g & ? & _) & _). }
  case_bool_decide as Hgd.
  { simpl. split_and!; try done. split; [done|].
    intros (_ & (g' & [= <-] & ?) & _). done. }
  case_bool_decide as Hw.
  { simpl. split_and!; try done. split; [done|tauto]. }
  case_bool_decide as Hv.
  { simpl. split_and!; try done. split; [done|]. rewrite <- Hvid. tauto. }
  assert ((guild, u, gid) ∉ vouches db) as Hno by (by rewrite <- Hvid).
  assert (giveaway_exists db gid = true) as Hex.
  { apply giveaway_exists_fetch. by rewrite Hg. }
  unfold add_vouch. rewrite Hex, orb_true_r. simpl.
  assert (insert_or_ignore (vouches db) (guild, u, gid) =
          vouches db ++ [(guild, u, gid)]) as Hins.
  { unfold insert_or_ignore. by rewrite bool_decide_eq_false_2. }
  split_and!; try done.
  - split; [|done]. intros _. split_and!; eauto.
  - intros _. split_and!; try done.
    + intros guild' u'. by apply vouch_count_insert.
    + change (vouch_blocks (with_vouches db _)) with (vouch_blocks db).
      rewrite (bool_decide_eq_false_2 (_ ∈ vouch_blocks db)) by done.
      change (fetch_giveaway (with_vouches db _) gid) with (fetch_giveaway db gid).
      rewrite Hg.
      rewrite (bool_decide_eq_false_2 (guild_id g ≠ guild))
        by (intros Hx; by apply Hx).
      change (get_winners (with_vouches db _) gid) with (get_winners db gid).
      rewrite (bool_decide_eq_false_2 (u ∉ get_winners db gid))
        by (intros Hx; by apply Hx).
      rewrite bool_decide_eq_true_2; [done|].
      apply list_elem_of_fmap. exists (gid, prize g). split; [done|].
      apply user_vouches_elem. exists g.
      apply fetch_giveaway_Some in Hg as [Hin Hid]. split_and!; try done.
      simpl. rewrite Hins. apply elem_of_app. right. by apply list_elem_of_singleton.
Qed.

End Vouching.

Lemma vouch_records_witness :
  vouches
    (vouch (exec_all (order := insertion_order) empty_db
              [CmdOp (OpStart 10 20 30 (Some 60) 1 "prize" 1000 77);
               CmdOp (OpJoin 1 10 7); CmdOp (OpEnd 10 1 [0%nat])])
       10 7 1).1 = [(10, 7, 1)].
Proof.
  pose proof (vouch_records_once (order := insertion_order)
                [CmdOp (OpStart 10 20 30 (Some 60) 1 "prize" 1000 77);
                 CmdOp (OpJoin 1 10 7); CmdOp (OpEnd 10 1 [0%nat])]
                10 7 1) as (_ & H & _).
  destruct (H eq_refl) as (Hv & _). exact Hv.
Defined.

Section Unvouching.
Context {order : SetOrder}.

(** X14: [/gw removevouch] in any reachable state.  It removes a vouch
    exactly when the giveaway has a row in the guild and the user has a
    vouch for it; it then deletes that one vouch row and stores a block for
    it, so the user's vouch count in the guild drops by one while the stored
    win counts, the winners and every other vouch stay.  From then on
    [/gw vouch] by that user for that giveaway answers that the vouch is
    blocked, and no message in the guild records it either.  Every other
    answer writes nothing. *)
Theorem removevouch_blocks_revouch cs guild u gid :
  let db := exec_all empty_db cs in
  let r := removevouch db guild u gid in
  (r.2 = RemoveDone ↔
     (∃ g, fetch_giveaway db gid = Some g ∧ guild_id g = guild)
     ∧ (guild, u, gid) ∈ vouches db)
  ∧ (r.2 = RemoveDone →
       ((guild, u, gid) ∉ vouches r.1)
       ∧ (guild, u, gid) ∈ vouch_blocks r.1
       ∧ (∀ v, v ≠ (guild, u, gid) → v ∈ vouches r.1 ↔ v ∈ vouches db)
       ∧ (∀ guild' u', vouch_count r.1 guild' u' =
            vouch_count db guild' u'
            - (if bool_decide (guild' = guild ∧ u' = u) then 1 else 0))
       ∧ giveaways r.1 = giveaways db ∧ entrants r.1 = entrants db
       ∧ winners r.1 = winners db ∧ win_counts r.1 = win_counts db
       ∧ vouch r.1 guild u gid = (r.1, VouchBlocked)
       ∧ (∀ cfg bot ch says p,
            (on_message r.1 cfg bot (Some guild) u ch says).2 ≠ MsgRecorded gid p))
  ∧ (r.2 ≠ RemoveDone → r.1 = db).
Proof.
  intros db r.
  assert (integrity db) as Hint by (apply exec_all_sound; apply empty_sound).
  pose proof (user_vouches_ids db guild u gid Hint) as Hvid.
  pose proof Hint as (_ & _ & _ & _ & Hnd & _).
  subst r. unfold removevouch.
  destruct (fetch_giveaway db gid) as [g|] eqn:Hg; cycle 1.
  { simpl. split_and!; try done. split; [done|]. by intros ((g & ? & _) & _). }
  case_bool_decide as Hgd.
  { simpl. split_and!; try done. split; [done|].
    intros ((g' & [= <-] & ?) & _). done. }
  case_bool_decide as Hv.
  { simpl. split_and!; try done. split; [done|]. rewrite <- Hvid. tauto. }
  assert ((guild, u, gid) ∈ vouches db) as Hin by (by apply Hvid).
  cbn [fst snd]. split_and!; try done.
  - split; [|done]. intros _. split; eauto.
  - intros _.
    assert ((guild, u, gid) ∈
            insert_or_ignore (vouch_blocks db) (guild, u, gid)) as Hblk.
    { apply insert_or_ignore_elem. by right. }
    split_and!; try done.
    + cbn [vouches]. intros [Hne _]%list_elem_of_filter. by apply Hne.
    + intros v Hne. cbn [vouches]. rewrite list_elem_of_filter. tauto.
    + intros guild' u'. by apply vouch_count_remove.
    + unfold vouch. cbn [vouch_blocks]. by rewrite bool_decide_eq_true_2.
    + intros cfg bot ch says p. unfold on_message.
      destruct bot; [done|]. case_bool_decide; [|done].
      destruct says; [|done]. cbn [negb].
      case_bool_decide; [done|].
      destruct (filter _ (won_ended _ guild u)) as [|[gw q] [|? ?]]; try done.
      cbn [vouch_blocks]. case_bool_decide as Hb; [done|].
      assert (gw ≠ gid) as Hne by (intros ->; by apply Hb).
      destruct (add_vouch _ guild u gw); [|done].
      simpl. intros [= ? _]. done.
Qed.

End Unvouching.

Lemma removevouch_witness :
  (vouch
     (removevouch
        (exec_all (order := insertion_order) empty_db
           [CmdOp (OpStart 10 20 30 (Some 60) 1 "prize" 1000 77);
            CmdOp (OpJoin 1 10 7); CmdOp (OpEnd 10 1 [0%nat]);
            CmdVouch 10 7 1])
        10 7 1).1 10 7 1).2 = VouchBlocked.
Proof.
  pose proof (removevouch_blocks_revouch (order := insertion_order)
                [CmdOp (OpStart 10 20 30 (Some 60) 1 "prize" 1000 77);
                 CmdOp (OpJoin 1 10 7); CmdOp (OpEnd 10 1 [0%nat]);
                 CmdVouch 10 7 1]
                10 7 1) as (_ & H & _).
  destruct (H eq_refl) as (_ & _ & _ & _ & _ & _ & _ & _ & Hv & _).
  by rewrite Hv.
Defined.

Lemma fetch_giveaway_iff db gid g :
  NoDup (id <$> giveaways db) →
  fetch_giveaway db gid = Some g ↔ g ∈ giveaways db ∧ id g = gid.
Proof.
  intros Hnd. split; [apply fetch_giveaway_Some|].
  intros [Hin Hid].
  destruct (fetch_giveaway db gid) as [g'|] eqn:Hg.
  - apply fetch_giveaway_Some in Hg as [Hin' Hid']. f_equal.
    apply (giveaway_by_id (giveaways db)); try done. by rewrite Hid.
  - apply fetch_giveaway_None in Hg. destruct Hg.
    apply list_elem_of_fmap. eauto.
Qed.

Lemma won_ended_elem db guild u gid p :
  (gid, p) ∈ won_ended db guild u
  ↔ ∃ g, g ∈ giveaways db ∧ id g = gid ∧ prize g = p ∧ guild_id g = guild
         ∧ status g = ended ∧ (gid, u) ∈ winners db.
Proof.
  unfold won_ended. rewrite list_elem_of_bind. split.
  - intros (g & Hin & Hg). apply list_elem_of_bind in Hin as ([gid' u'] & Hin & Hw).
    case_bool_decide as Hc; [|by apply not_elem_of_nil in Hin].
    apply list_elem_of_singleton in Hin as [= -> ->].
    simpl in Hc. destruct Hc as (Hid & Hgd & -> & Hst). rewrite <- Hid in Hw.
    eauto 10.
  - intros (g & Hg & <- & <- & Hgd & Hst & Hw). exists g. split; [|done].
    apply list_elem_of_bind. exists (id g, u). split; [|done].
    rewrite bool_decide_eq_true_2 by done. left.
Qed.

Lemma won_ended_NoDup db guild u :
  NoDup (id <$> giveaways db) → NoDup (winners db) →
  NoDup (won_ended db guild u).
Proof.
  intros Hids Hws. unfold won_ended.
  generalize dependent (giveaways db). intros gs.
  induction gs as [|g gs IH]; intros Hids; [apply NoDup_nil_2|].
  rewrite fmap_cons in Hids. apply NoDup_cons in Hids as [Hg Hids].
  rewrite bind_cons. apply NoDup_app. split_and!.
  - clear IH. generalize dependent (winners db). intros ws.
    induction ws as [|w ws IHw]; intros Hws; [apply NoDup_nil_2|].
    apply NoDup_cons in Hws as [Hw Hws]. rewrite bind_cons.
    case_bool_decide as Hc; [|by apply IHw].
    simpl. apply NoDup_cons. split; [|by apply IHw].
    intros (w' & Hin & Hw')%list_elem_of_bind.
    case_bool_decide as Hc'; [|by apply not_elem_of_nil in Hin].
    apply Hw. destruct w as [a b], w' as [a' b']. simpl in *.
    destruct Hc as (<- & _ & <- & _), Hc' as (<- & _ & <- & _). done.
  - intros [gid p] (w & Hin & _)%list_elem_of_bind
      (g' & Hin' & Hg')%list_elem_of_bind.
    case_bool_decide; [|by apply not_elem_of_nil in Hin].
    apply list_elem_of_singleton in Hin as [= -> ->].
    apply list_elem_of_bind in Hin' as (w' & Hin' & _).
    case_bool_decide; [|by apply not_elem_of_nil in Hin'].
    apply list_elem_of_singleton in Hin' as [= Hid _].
    apply Hg. rewrite Hid. apply list_elem_of_fmap. eauto.
  - by apply IH.
Qed.

Lemma NoDup_only {A} (l : list A) a :
  NoDup l → (∀ x, x ∈ l ↔ x = a) → l = [a].
Proof.
  intros Hnd Hall. destruct l as [|x l].
  - assert (a ∈ @nil A) as Hin by (by apply Hall). by apply not_elem_of_nil in Hin.
  - assert (x = a) as -> by (apply Hall; left).
    destruct l as [|y l]; [done|].
    assert (y = a) as -> by (apply Hall; right; left).
    apply NoDup_cons in Hnd as [Hx _]. destruct Hx. left.
Qed.

Lemma remaining_elem db guild u gid p :
  integrity db →
  (gid, p) ∈ filter (λ row : Z * string,
                       row.1 ∉ (filter (λ v : Z * Z * Z, v.1 = (guild, u))
                                  (vouches db)).*2)
               (won_ended db guild u)
  ↔ unvouched_win db guild u gid
    ∧ ∃ g, fetch_giveaway db gid = Some g ∧ prize g = p.
Proof.
  intros (Hids & _). rewrite list_elem_of_filter, won_ended_elem. simpl.
  assert (gid ∈ (filter (λ v : Z * Z * Z, v.1 = (guild, u)) (vouches db)).*2
          ↔ (guild, u, gid) ∈ vouches db) as ->.
  { rewrite list_elem_of_fmap. split.
    - intros ([[a b] c] & -> & [Hk Hin]%list_elem_of_filter).
      simpl in Hk. by injection Hk as -> ->.
    - intros Hin. exists (guild, u, gid). split; [done|].
      by apply list_elem_of_filter. }
  unfold unvouched_win. split.
  - intros (Hno & g & Hin & Hid & Hp & Hgd & Hst & Hw).
    assert (fetch_giveaway db gid = Some g) as Hg by (by apply fetch_giveaway_iff).
    split; [|eauto]. exists g. split_and!; try done.
    by apply select_user_id_elem.
  - intros ((g & Hg & Hgd & Hst & Hw & Hno) & (g' & Hg' & Hp)).
    rewrite Hg in Hg'. injection Hg' as <-.
    apply fetch_giveaway_Some in Hg as [Hin Hid].
    split; [done|]. exists g. split_and!; try done.
    by apply select_user_id_elem.
Qed.

Section Messages.
Context {order : SetOrder}.

(** X15: a message seen by [on_message] in any reachable state records a
    vouch exactly when its author is not a bot, it is sent in a guild in
    that guild's vouch channel, it contains the word, the author has exactly
    one ended win in the guild without a vouch, and that vouch is not
    blocked; the answer names that giveaway and its prize.  The vouch is one
    new row for the author and that giveaway, and nothing else changes.  A
    message that records no vouch writes nothing, also when a block, several
    open wins or none are reported. *)
Theorem message_records_single_open_win cs cfg bot guild author channel says :
  let db := exec_all empty_db cs in
  let r := on_message db cfg bot guild author channel says in
  (∀ gid p, r.2 = MsgRecorded gid p ↔
     bot = false ∧ says = true
     ∧ ∃ g0, guild = Some g0 ∧ channel = vouch_channel cfg g0
        ∧ (∀ gid', unvouched_win db g0 author gid' ↔ gid' = gid)
        ∧ ((g0, author, gid) ∉ vouch_blocks db)
        ∧ (∃ g, fetch_giveaway db gid = Some g ∧ prize g = p))
  ∧ (∀ gid p g0, r.2 = MsgRecorded gid p → guild = Some g0 →
       vouches r.1 = vouches db ++ [(g0, author, gid)]
       ∧ giveaways r.1 = giveaways db ∧ entrants r.1 = entrants db
       ∧ winners r.1 = winners db ∧ win_counts r.1 = win_counts db
       ∧ vouch_blocks r.1 = vouch_blocks db)
  ∧ ((∀ gid p, r.2 ≠ MsgRecorded gid p) → r.1 = db).
Proof.
  intros db r.
  assert (integrity db) as Hint by (apply exec_all_sound; apply empty_sound).
  subst r. unfold on_message.
  destruct bot.
  { simpl. split_and!; try done. intros gid p. split; [done|]. by intros (? & _). }
  destruct guild as [g0|]; cycle 1.
  { simpl. split_and!; try done. intros gid p. split; [done|].
    by intros (_ & _ & g0 & ? & _). }
  case_bool_decide as Hch; cycle 1.
  { simpl. split_and!; try done. intros gid p. split; [done|].
    intros (_ & _ & g1 & [= <-] & ? & _). done. }
  destruct says; cycle 1.
  { simpl. split_and!; try done. intros gid p. split; [done|]. by intros (_ & ? & _). }
  cbn [negb].
  pose proof (λ gid p, remaining_elem db g0 author gid p Hint) as Hrem.
  assert (NoDup (filter (λ row : Z * string,
                           row.1 ∉ (filter (λ v : Z * Z * Z, v.1 = (g0, author))
                                      (vouches db)).*2)
                   (won_ended db g0 author))) as Hnd.
  { apply NoDup_filter. destruct Hint as (? & _ & _ & ? & _).
    by apply won_ended_NoDup. }
  assert (∀ gid p,
            (∀ gid', unvouched_win db g0 author gid' ↔ gid' = gid) →
            (∃ g, fetch_giveaway db gid = Some g ∧ prize g = p) →
            ∀ x, x ∈ filter (λ row : Z * string,
                               row.1 ∉ (filter (λ v : Z * Z * Z, v.1 = (g0, author))
                                          (vouches db)).*2)
                       (won_ended db g0 author) ↔ x = (gid, p)) as Honly.
  { intros gid p Huniq (g & Hg & Hp) [gid' p']. rewrite Hrem. split.
    - intros (Hopen & g' & Hg' & Hp'). apply Huniq in Hopen as ->.
      rewrite Hg in Hg'. injection Hg' as <-. by rewrite <- Hp, <- Hp'.
    - intros [= -> ->]. split; [by apply Huniq | eauto]. }
  case_bool_decide as Hwon.
  { simpl. split_and!; try done. intros gid p. split; [done|].
    intros (_ & _ & g1 & [= <-] & _ & Huniq & _ & Hp).
    assert ((gid, p) ∈ filter (λ row : Z * string,
                                 row.1 ∉ (filter (λ v : Z * Z * Z, v.1 = (g0, author))
                                            (vouches db)).*2)
                         (won_ended db g0 author)) as Hin.
    { apply (Honly gid p); auto. }
    rewrite Hwon in Hin. by apply not_elem_of_nil in Hin. }
  destruct (filter _ (won_ended db g0 author)) as [|[gw q] [|y rest]] eqn:Hfl.
  - simpl. split_and!; try done. intros gid p. split; [done|].
    intros (_ & _ & g1 & [= <-] & _ & Huniq & _ & Hp).
    assert ((gid, p) ∈ @nil (Z * string)) as Hin by (apply (Honly gid p); auto).
    by apply not_elem_of_nil in Hin.
  - assert ((gw, q) ∈ [(gw, q)]) as Hgw by left.
    apply Hrem in Hgw as (Hopen & Hprize).
    case_bool_decide as Hb.
    { simpl. split_and!; try done. intros gid p. split; [done|].
      intros (_ & _ & g1 & [= <-] & _ & Huniq & Hnb & Hp).
      apply Huniq in Hopen as ->. done. }
    destruct Hopen as (g & Hg & Hgd & Hst & Hw & Hno).
    assert (giveaway_exists db gw = true) as Hex.
    { apply giveaway_exists_fetch. by rewrite Hg. }
    unfold add_vouch. rewrite Hex, orb_true_r. cbn [fst snd].
    split_and!.
    + intros gid p. split.
      * intros [= <- <-]. split_and!; try done. exists g0. split_and!; try done.
        intros gid'. split.
        -- intros Hopen'. destruct Hopen' as (g' & Hg' & Hrest).
           assert ((gid', prize g') ∈ [(gw, q)]) as Hin.
           { apply Hrem. split; [exists g'; by split | eauto]. }
           by apply list_elem_of_singleton in Hin as [= -> _].
        -- intros ->. exists g. by split_and!.
      * intros (_ & _ & g1 & [= <-] & _ & Huniq & _ & Hp).
        assert ((gid, p) ∈ [(gw, q)]) as Hin by (apply (Honly gid p); auto).
        by apply list_elem_of_singleton in Hin as [= -> ->].
    + intros gid p g1 [= <- <-] [= <-]. split_and!; try done.
      simpl. unfold insert_or_ignore. by rewrite bool_decide_eq_false_2.
    + intros Hnever. by destruct (Hnever gw q).
  - simpl. split_and!; try done. intros gid p. split; [done|].
    intros (_ & _ & g1 & [= <-] & _ & Huniq & _ & Hp).
    assert ((gw, q) = (gid, p)) as E1 by (apply (Honly gid p); auto; left).
    assert (y = (gid, p)) as E2 by (apply (Honly gid p); auto; right; left).
    apply NoDup_cons in Hnd as [Hx _]. destruct Hx. rewrite E1, E2. left.
Qed.

End Messages.

Lemma message_records_witness :
  vouches
    (on_message
       (exec_all (order := insertion_order) empty_db
          [CmdOp (OpStart 10 20 30 (Some 60) 1 "prize" 1000 77);
           CmdOp (OpJoin 1 10 7); CmdOp (OpEnd 10 1 [0%nat])])
       ∅ false (Some 10) 7 VOUCH_CHANNEL_ID true).1 = [(10, 7, 1)].
Proof.
  pose proof (message_records_single_open_win (order := insertion_order)
                [CmdOp (OpStart 10 20 30 (Some 60) 1 "prize" 1000 77);
                 CmdOp (OpJoin 1 10 7); CmdOp (OpEnd 10 1 [0%nat])]
                ∅ false (Some 10) 7 VOUCH_CHANNEL_ID true) as (_ & H & _).
  destruct (H 1 "prize" 10 eq_refl eq_refl) as (Hv & _). exact Hv.
Defined.

Section ModVouch.
Context {order : SetOrder}.

(** X16: [/gw addvouch] in any reachable state records the vouch exactly
    when the giveaway has a row in the guild and has ended, the user holds
    a winner row of it and has no vouch for it yet.  Unlike [/gw vouch] it
    does not look at the blocks: a vouch removed by [/gw removevouch] can
    be put back this way, and the block stays.  A recorded vouch is one new
    row that raises that user's vouch count by one; every other answer
    writes nothing. *)
Theorem addvouch_needs_ended_ignores_block cs guild u gid :
  let db := exec_all empty_db cs in
  let r := addvouch db guild u gid in
  (r.2 = VouchRecorded ↔
     (∃ g, fetch_giveaway db gid = Some g ∧ guild_id g = guild ∧ status g = ended)
     ∧ u ∈ get_winners db gid
     ∧ ((guild, u, gid) ∉ vouches db))
  ∧ (r.2 = VouchRecorded →
       vouches r.1 = vouches db ++ [(guild, u, gid)]
       ∧ (∀ guild' u', vouch_count r.1 guild' u' =
            vouch_count db guild' u'
            + (if bool_decide (guild' = guild ∧ u' = u) then 1 else 0))
       ∧ giveaways r.1 = giveaways db ∧ entrants r.1 = entrants db
       ∧ winners r.1 = winners db ∧ win_counts r.1 = win_counts db
       ∧ vouch_blocks r.1 = vouch_blocks db)
  ∧ (r.2 ≠ VouchRecorded → r.1 = db)
  ∧ r.2 ≠ VouchFailed ∧ r.2 ≠ VouchBlocked.
Proof.
  intros db r.
  assert (integrity db) as Hint by (apply exec_all_sound; apply empty_sound).
  pose proof (user_vouches_ids db guild u gid Hint) as Hvid.
  subst r. unfold addvouch.
  destruct (fetch_giveaway db gid) as [g|] eqn:Hg; cycle 1.
  { simpl. split_and!; try done. split; [done|]. by intros ((g & ? & _) & _). }
  case_bool_decide as Hgd.
  { simpl. split_and!; try done. split; [done|].
    intros ((g' & [= <-] & ? & _) & _). done. }
  case_bool_decide as Hst.
  { simpl. split_and!; try done. split; [done|].
    intros ((g' & [= <-] & _ & ?) & _). done. }
  case_bool_decide as Hw.
  { simpl. split_and!; try done. split; [done|tauto]. }
  case_bool_decide as Hv.
  { simpl. split_and!; try done. split; [done|]. rewrite <- Hvid. tauto. }
  assert ((guild, u, gid) ∉ vouches db) as Hno by (by rewrite <- Hvid).
  assert (giveaway_exists db gid = true) as Hex.
  { apply giveaway_exists_fetch. by rewrite Hg. }
  unfold add_vouch. rewrite Hex, orb_true_r. simpl.
  split_and!; try done.
  - split; [|done]. intros _. split_and!; eauto.
  - intros _. split_and!; try done.
    + unfold insert_or_ignore. by rewrite bool_decide_eq_false_2.
    + intros guild' u'. by apply vouch_count_insert.
Qed.

End ModVouch.

Lemma addvouch_witness :
  vouches
    (addvouch
       (exec_all (order := insertion_order) empty_db
          [CmdOp (OpStart 10 20 30 (Some 60) 1 "prize" 1000 77);
           CmdOp (OpJoin 1 10 7); CmdOp (OpEnd 10 1 [0%nat]);
           CmdVouch 10 7 1; CmdRemoveVouch 10 7 1])
       10 7 1).1 = [(10, 7, 1)].
Proof.
  pose proof (addvouch_needs_ended_ignores_block (order := insertion_order)
                [CmdOp (OpStart 10 20 30 (Some 60) 1 "prize" 1000 77);
                 CmdOp (OpJoin 1 10 7); CmdOp (OpEnd 10 1 [0%nat]);
                 CmdVouch 10 7 1; CmdRemoveVouch 10 7 1]
                10 7 1) as (_ & H & _).
  destruct (H eq_refl) as (Hv & _). exact Hv.
Defined.

(** ** The life of a giveaway row *)

Lemma set_status_same g : set_status g (status g) = g.
Proof. by destruct g. Qed.

Lemma fetch_insert_other db g gid :
  gid ≠ seq db + 1 →
  fetch_giveaway (insert_giveaway db g).1 gid = fetch_giveaway db gid.
Proof.
  intros Hne. unfold fetch_giveaway, insert_giveaway. simpl.
  rewrite filter_app, filter_cons_False by (simpl; lia).
  by rewrite filter_nil, app_nil_r.
Qed.

Lemma fetch_same_rows db db' gid :
  giveaways db' = giveaways db → fetch_giveaway db' gid = fetch_giveaway db gid.
Proof. unfold fetch_giveaway. by intros ->. Qed.

Section Rows.
Context {order : SetOrder}.

Lemma reroll_rows db guild gid count target draws :
  giveaways (reroll db guild gid count target draws).1 = giveaways db
  ∧ seq (reroll db guild gid count target draws).1 = seq db.
Proof.
  unfold reroll.
  destruct (fetch_giveaway db gid) as [g|]; [|done].
  case_bool_decide; [done|]. case_bool_decide; [done|].
  case_bool_decide; [done|].
  destruct (reroll_to_remove _ count target) as [tr|]; [|done].
  case_bool_decide; [done|]. case_bool_decide; [done|].
  destruct (random_sample _ _ draws) as [new|]; [|done].
  unfold set_winners. destruct (_ || _); done.
Qed.

Lemma close_rows db g draws r gid o :
  close_giveaway db g draws = Some r →
  seq r.1 = seq db
  ∧ (fetch_giveaway db gid = None ∨ fetch_giveaway db gid = o
     ∨ (∃ g0, o = Some g0 ∧ fetch_giveaway db gid = Some (set_status g0 ended)) →
     fetch_giveaway r.1 gid = None ∨ fetch_giveaway r.1 gid = o
     ∨ (∃ g0, o = Some g0 ∧ fetch_giveaway r.1 gid = Some (set_status g0 ended))).
Proof.
  intros Hc.
  assert (∃ d, r.1 = set_giveaway_status d (id g) ended
               ∧ giveaways d = giveaways db ∧ seq d = seq db) as (d & -> & Hgs & Hs).
  { revert Hc. unfold close_giveaway. case_bool_decide; simpl.
    - destruct (random_sample _ _ _) as [ws|]; simpl; [|done].
      unfold set_winners. destruct (_ || _); simpl; [|done].
      intros [= <-]. simpl. eexists. split; [done|]. done.
    - intros [= <-]. simpl. eexists. split; [done|]. done. }
  split; [done|]. rewrite fetch_set_status.
  rewrite (fetch_same_rows db d gid Hgs).
  destruct (decide (gid = id g)) as [->|]; [|done].
  intros [Hn|[Ho|(g0 & -> & Hg0)]].
  - left. by rewrite Hn.
  - destruct o as [g0|]; [|left; by rewrite Ho].
    right. right. exists g0. by rewrite Ho.
  - right. right. exists g0. by rewrite Hg0.
Qed.

Lemma exec_rows db c gid :
  integrity db → gid ≤ seq db →
  seq db ≤ seq (exec db c)
  ∧ (fetch_giveaway (exec db c) gid = None
     ∨ fetch_giveaway (exec db c) gid = fetch_giveaway db gid
     ∨ ∃ g0, fetch_giveaway db gid = Some g0
             ∧ fetch_giveaway (exec db c) gid = Some (set_status g0 ended)).
Proof.
  intros Hint Hle.
  assert (∀ db', giveaways db' = giveaways db → seq db' = seq db →
            seq db ≤ seq db'
            ∧ (fetch_giveaway db' gid = None
               ∨ fetch_giveaway db' gid = fetch_giveaway db gid
               ∨ ∃ g0, fetch_giveaway db gid = Some g0
                       ∧ fetch_giveaway db' gid = Some (set_status g0 ended)))
    as Hsame.
  { intros db' Hgs Hs. split; [lia|]. right. left. by apply fetch_same_rows. }
  destruct c as [op|guild u gid'|guild u gid'|guild u gid'|cfg guild u ch]; cbn [exec].
  - destruct op as [guild channel host seconds w p now message | gid' guild u | gid' u
                   | guild gid' draws | now draws | guild gid' count target draws
                   | guild gid' u add | guild p u now | guild gid']; cbn [step].
    + unfold start. case_bool_decide; [|by apply Hsame].
      destruct seconds as [s|]; [|by apply Hsame].
      case_bool_decide; [by apply Hsame|]. cbn [insert_giveaway fst snd].
      split; [simpl; lia|]. right. left.
      unfold set_giveaway_message_id. rewrite fetch_update by done.
      rewrite decide_False by lia.
      apply (fetch_insert_other db (mkGiveaway 0 guild channel None host p w
                                      (now + s) running)). lia.
    + unfold join. case_bool_decide; [by apply Hsame|].
      case_bool_decide; [by apply Hsame|]. simpl. unfold add_entrant.
      destruct (giveaway_exists db gid'); by apply Hsame.
    + unfold leave. case_bool_decide; by apply Hsame.
    + unfold end_. destruct (fetch_giveaway db gid') as [g|]; [|by apply Hsame].
      case_bool_decide; [by apply Hsame|]. case_bool_decide; [by apply Hsame|].
      destruct (close_giveaway db g draws) as [r|] eqn:Hc; [|by apply Hsame].
      destruct (close_rows db g draws r gid (fetch_giveaway db gid) Hc) as [Hs Hf].
      cbn [fst]. split; [lia|]. destruct Hf as [?|[?|(g0 & ? & ?)]]; eauto.
    + apply (scheduler_preserves
               (λ d, seq db ≤ seq d
                     ∧ (fetch_giveaway d gid = None
                        ∨ fetch_giveaway d gid = fetch_giveaway db gid
                        ∨ ∃ g0, fetch_giveaway db gid = Some g0
                                ∧ fetch_giveaway d gid = Some (set_status g0 ended))));
        [|split; [lia|by right; left]].
      intros d g ds r [Hs Hf] Hc.
      destruct (close_rows d g ds r gid (fetch_giveaway db gid) Hc) as [Hs' Hf'].
      split; [lia|].
      destruct Hf' as [?|[?|(g0 & ? & ?)]]; eauto.
    + destruct (reroll_rows db guild gid' count target draws) as [Hgs Hs].
      by apply Hsame.
    + unfold adjustwins. destruct (fetch_giveaway db gid') as [g|]; [|by apply Hsame].
      case_bool_decide; [by apply Hsame|]. unfold adjust_win_for_gw.
      destruct (fetch_giveaway db gid') as [row|]; [|by apply Hsame].
      repeat case_bool_decide; by apply Hsame.
    + unfold manual, add_manual_giveaway_with_winner.
      destruct (head _) as [r|]; [by apply Hsame|].
      cbn [insert_giveaway fst snd]. split; [simpl; lia|]. right. left.
      etrans; [|apply (fetch_insert_other db (mkGiveaway 0 guild 0 None 0 p 1 now ended));
                lia].
      by apply fetch_same_rows.
    + unfold delete. destruct (fetch_giveaway db gid') as [g|]; [|by apply Hsame].
      case_bool_decide; [by apply Hsame|]. unfold delete_giveaway.
      destruct (fetch_giveaway db gid') as [row|]; [|by apply Hsame].
      cbn [fst]. split; [simpl; lia|].
      unfold fetch_giveaway at 1 2. cbn [giveaways]. rewrite fetch_after_delete.
      destruct (decide (gid = gid')); [by left | by right; left].
  - unfold vouch. case_bool_decide; [by apply Hsame|].
    destruct (fetch_giveaway db gid') as [g|]; [|by apply Hsame].
    repeat (case_bool_decide; [by apply Hsame|]).
    unfold add_vouch. destruct (_ || _); by apply Hsame.
  - unfold addvouch.
    destruct (fetch_giveaway db gid') as [g|]; [|by apply Hsame].
    repeat (case_bool_decide; [by apply Hsame|]).
    unfold add_vouch. destruct (_ || _); by apply Hsame.
  - unfold removevouch.
    destruct (fetch_giveaway db gid') as [g|]; [|by apply Hsame].
    repeat (case_bool_decide; [by apply Hsame|]). by apply Hsame.
  - unfold on_message. case_bool_decide; [|by apply Hsame]. cbn [negb].
    case_bool_decide; [by apply Hsame|].
    destruct (filter _ (won_ended db guild u)) as [|[gw q] [|? ?]];
      try by apply Hsame.
    case_bool_decide; [by apply Hsame|].
    unfold add_vouch. destruct (_ || _); by apply Hsame.
Qed.

End Rows.

Section RowLife.
Context {order : SetOrder}.

Lemma exec_all_rows cs db gid :
  integrity db → positive_counts db → gid ≤ seq db →
  seq db ≤ seq (exec_all db cs)
  ∧ (fetch_giveaway (exec_all db cs) gid = None
     ∨ fetch_giveaway (exec_all db cs) gid = fetch_giveaway db gid
     ∨ ∃ g0, fetch_giveaway db gid = Some g0
             ∧ fetch_giveaway (exec_all db cs) gid = Some (set_status g0 ended)).
Proof.
  revert db. induction cs as [|c cs IH]; intros db Hint Hpos Hle.
  { simpl. split; [lia|]. by right; left. }
  cbn [exec_all foldl].
  destruct (exec_sound db c Hint Hpos) as [Hint1 Hpos1].
  destruct (exec_rows db c gid Hint Hle) as [Hs1 Hf1].
  destruct (IH (exec db c) Hint1 Hpos1 ltac:(lia)) as [Hs2 Hf2].
  unfold exec_all in *. split; [lia|].
  destruct Hf2 as [Hn|[He|(g1 & Hg1 & He)]]; [by left| |].
  - rewrite He. exact Hf1.
  - rewrite He. destruct Hf1 as [Hn|[He1|(g0 & Hg0 & He1)]].
    + by rewrite Hn in Hg1.
    + right. right. exists g1. by rewrite <- He1.
    + right. right. exists g0. split; [done|].
      rewrite He1 in Hg1. injection Hg1 as <-. by destruct g0.
Qed.

(** X17: the life of a giveaway row.  Take a giveaway stored in a reachable
    state and run any further commands, button presses, ticks and messages.
    Afterwards its id names either no giveaway (it was deleted), or the very
    same row, or the same row with the status changed from running to
    ended: no command reopens an ended giveaway, none changes the guild,
    channel, message, host, prize, number of winners or end time of a
    stored giveaway, and the id of a deleted giveaway is never given to a
    new one, since the counter never goes down. *)
Theorem giveaway_row_only_ends cs cs' gid g :
  let db := exec_all empty_db cs in
  let db' := exec_all db cs' in
  fetch_giveaway db gid = Some g →
  seq db ≤ seq db'
  ∧ (fetch_giveaway db' gid = None
     ∨ fetch_giveaway db' gid = Some g
     ∨ (status g = running ∧ fetch_giveaway db' gid = Some (set_status g ended))).
Proof.
  intros db db' Hg.
  destruct (exec_all_sound empty_db cs) as [Hint Hpos]; try apply empty_sound.
  fold db in Hint, Hpos.
  assert (gid ≤ seq db) as Hle.
  { apply fetch_giveaway_Some in Hg as [Hin <-].
    destruct Hint as (_ & Hseq & _). by apply Hseq. }
  destruct (exec_all_rows cs' db gid Hint Hpos Hle) as [Hs Hf].
  fold db' in Hs, Hf. split; [done|]. rewrite Hg in Hf.
  destruct Hf as [Hn|[He|(g0 & [= <-] & He)]]; [by left | by right; left |].
  destruct (status g) eqn:Hst.
  - by right; right.
  - right. left. rewrite He. f_equal. rewrite <- Hst. apply set_status_same.
Qed.

End RowLife.

Lemma giveaway_row_witness :
  fetch_giveaway
    (exec_all (order := insertion_order)
       (exec_all (order := insertion_order) empty_db
          [CmdOp (OpStart 10 20 30 (Some 60) 1 "prize" 1000 77)])
       [CmdOp (OpJoin 1 10 7); CmdOp (OpEnd 10 1 [0%nat]);
        CmdOp (OpStart 10 20 30 (Some 60) 1 "other" 2000 78)]) 1 =
  Some (mkGiveaway 1 10 20 (Some 77) 30 "prize" 1 1060 ended).
Proof.
  destruct (giveaway_row_only_ends (order := insertion_order)
              [CmdOp (OpStart 10 20 30 (Some 60) 1 "prize" 1000 77)]
              [CmdOp (OpJoin 1 10 7); CmdOp (OpEnd 10 1 [0%nat]);
               CmdOp (OpStart 10 20 30 (Some 60) 1 "other" 2000 78)]
              1 (mkGiveaway 1 10 20 (Some 77) 30 "prize" 1 1060 running) eq_refl)
    as [_ [H|[H|[_ H]]]].
  - discriminate H.
  - discriminate H.
  - exact H.
Defined.

(** ** The leaderboard *)

#[global] Instance board_before_total : Total board_before.
Proof. intros a b. unfold board_before. lia. Qed.

#[global] Instance board_before_trans : Transitive board_before.
Proof. intros a b c. unfold board_before. lia. Qed.

Lemma board_rows_elem db guild uid w v :
  (uid, w, v) ∈ (λ kv : Z * Z * Z, (kv.1.2, kv.2, vouch_count db guild kv.1.2))
                  <$> filter (λ kv : Z * Z * Z, kv.1.1 = guild)
                        (map_to_list (win_counts db))
  ↔ win_counts db !! (guild, uid) = Some w ∧ v = vouch_count db guild uid.
Proof.
  rewrite list_elem_of_fmap. split.
  - intros ([[g' u'] w'] & [= -> -> ->] & [Hg Hin]%list_elem_of_filter).
    simpl in *. subst g'. by apply elem_of_map_to_list in Hin.
  - intros [Hw ->]. exists (guild, uid, w). split; [done|].
    apply list_elem_of_filter. split; [done|]. by apply elem_of_map_to_list.
Qed.

Lemma board_rows_NoDup db guild :
  NoDup (((λ kv : Z * Z * Z, (kv.1.2, kv.2, vouch_count db guild kv.1.2))
            <$> filter (λ kv : Z * Z * Z, kv.1.1 = guild)
                  (map_to_list (win_counts db))).*1.*1).
Proof.
  rewrite <- !list_fmap_compose. apply NoDup_fmap_2_strong.
  - intros [[g1 u1] w1] [[g2 u2] w2] [Hg1 H1]%list_elem_of_filter
      [Hg2 H2]%list_elem_of_filter Heq. simpl in *. subst g1 g2 u2.
    f_equal. exact (map_to_list_unique _ _ _ _ H1 H2).
  - apply NoDup_filter, NoDup_map_to_list.
Qed.

(** What [top_winners] returns. *)
Lemma top_winners_facts db guild limit :
  let top := top_winners db guild limit in
  StronglySorted board_before top
  ∧ NoDup (top.*1.*1)
  ∧ (∀ uid w v, (uid, w, v) ∈ top →
       win_counts db !! (guild, uid) = Some w ∧ v = vouch_count db guild uid)
  ∧ (0 ≤ limit → len top ≤ limit)
  ∧ (∀ uid w, win_counts db !! (guild, uid) = Some w →
       (uid, w, vouch_count db guild uid) ∈ top
       ∨ (0 ≤ limit ∧ len top = limit
          ∧ ∀ t, t ∈ top → board_before t (uid, w, vouch_count db guild uid))).
Proof.
  intros top. subst top. unfold top_winners.
  set (rows := (λ kv : Z * Z * Z, (kv.1.2, kv.2, vouch_count db guild kv.1.2))
                 <$> filter (λ kv : Z * Z * Z, kv.1.1 = guild)
                       (map_to_list (win_counts db))).
  set (sorted := merge_sort board_before rows).
  assert (StronglySorted board_before sorted) as Hsorted
    by (apply StronglySorted_merge_sort; apply _).
  assert (sorted ≡ₚ rows) as Hperm by apply merge_sort_Permutation.
  assert (NoDup (sorted.*1.*1)) as Hnd.
  { rewrite Hperm. apply board_rows_NoDup. }
  assert (∀ uid w v, (uid, w, v) ∈ sorted ↔
            win_counts db !! (guild, uid) = Some w ∧ v = vouch_count db guild uid)
    as Hmem.
  { intros uid w v. rewrite Hperm. apply board_rows_elem. }
  case_bool_decide as Hlim; cycle 1.
  { split_and!; try done.
    - intros uid w v. apply Hmem.
    - intros uid w Hw. left. by apply Hmem. }
  set (n := Z.to_nat limit).
  pose proof (take_drop n sorted) as Hsplit.
  split_and!.
  - rewrite <- Hsplit in Hsorted. by apply StronglySorted_app_1_l in Hsorted.
  - rewrite <- Hsplit, !fmap_app in Hnd. by apply NoDup_app in Hnd as [? _].
  - intros uid w v Hin. apply Hmem. rewrite <- Hsplit. apply elem_of_app. by left.
  - intros _. unfold len. rewrite length_take. lia.
  - intros uid w Hw.
    assert ((uid, w, vouch_count db guild uid) ∈ sorted) as Hin by (by apply Hmem).
    rewrite <- Hsplit in Hin. apply elem_of_app in Hin as [Hin|Hin]; [by left|].
    right. split; [done|]. split.
    + unfold len. rewrite length_take.
      assert (n < length sorted)%nat; [|lia].
      destruct (decide (n < length sorted)%nat) as [|Hge]; [done|].
      rewrite drop_ge in Hin by lia. by apply not_elem_of_nil in Hin.
    + intros t Ht. rewrite <- Hsplit in Hsorted.
      by apply (StronglySorted_app_1_elem_of _ _ _ _ _ Hsorted).
Qed.

(** X18: [top_winners] returns a board ordered by wins, highest first, and
    among equal wins by vouches, highest first, with every user at most
    once; each entry is a win-count row of the guild with the number of
    vouch rows of that user in the guild (0 without any).  With a limit the
    board has at most that many entries, and a user with a row who is
    missing from it was cut off by the limit: the board is full and every
    entry on it is ordered before that user's row.  A negative limit cuts
    nothing. *)
Theorem top_winners_board db guild limit :
  let top := top_winners db guild limit in
  StronglySorted board_before top
  ∧ NoDup (top.*1.*1)
  ∧ (∀ uid w v, (uid, w, v) ∈ top →
       win_counts db !! (guild, uid) = Some w ∧ v = vouch_count db guild uid)
  ∧ (0 ≤ limit → len top ≤ limit)
  ∧ (∀ uid w, win_counts db !! (guild, uid) = Some w →
       (uid, w, vouch_count db guild uid) ∈ top
       ∨ (0 ≤ limit ∧ len top = limit
          ∧ ∀ t, t ∈ top → board_before t (uid, w, vouch_count db guild uid))).
Proof. apply top_winners_facts. Qed.

Lemma top_winners_witness :
  win_counts (mkDB [] 0 [] [] {[ (10, 1) := 3; (10, 2) := 5; (11, 3) := 9 ]}
                [(10, 2, 4)] []) !! (10, 2) = Some 5
  ∧ 1 = vouch_count (mkDB [] 0 [] [] {[ (10, 1) := 3; (10, 2) := 5; (11, 3) := 9 ]}
                       [(10, 2, 4)] []) 10 2.
Proof.
  apply (top_winners_board
           (mkDB [] 0 [] [] {[ (10, 1) := 3; (10, 2) := 5; (11, 3) := 9 ]}
              [(10, 2, 4)] []) 10 1).
  vm_compute. left.
Defined.

Lemma ceil_div_bounds (n size : nat) :
  (0 < size)%nat →
  let k := ((n + size - 1) / size)%nat in
  (n ≤ k * size)%nat ∧ (∀ i, (i < k)%nat ↔ (i * size < n)%nat).
Proof.
  intros Hs k.
  pose proof (Nat.div_mod_eq (n + size - 1) size) as Hdm.
  pose proof (Nat.mod_upper_bound (n + size - 1) size ltac:(lia)) as Hmod.
  fold k in Hdm. split; [nia|]. intros i. split; intros Hi; nia.
Qed.

Lemma chunks_concat_take {A} (size : nat) (l : list A) k :
  concat ((λ i, take size (drop (i * size) l)) <$> List.seq 0 k) = take (k * size) l.
Proof.
  induction k as [|k IH]; [done|].
  rewrite seq_S, fmap_app, concat_app, IH. simpl. rewrite app_nil_r.
  rewrite take_take_drop. f_equal. lia.
Qed.

Lemma chunks_concat {A} (size : nat) (l : list A) :
  (0 < size)%nat → concat (chunks size l) = l.
Proof.
  intros Hs. unfold chunks. rewrite chunks_concat_take.
  apply take_ge. by apply ceil_div_bounds.
Qed.

Lemma chunks_lookup {A} (size : nat) (l : list A) i p :
  (0 < size)%nat → chunks size l !! i = Some p →
  p = take size (drop (i * size) l) ∧ (i * size < length l)%nat.
Proof.
  intros Hs. unfold chunks. rewrite list_lookup_fmap.
  destruct (List.seq 0 _ !! i) as [j|] eqn:Hj; [|done].
  apply lookup_seq in Hj as [-> Hi]. simpl. intros [= <-].
  split; [done|]. by apply ceil_div_bounds.
Qed.

Lemma leaderboard_lines_elem (top : list (Z * Z * Z)) (rank : nat) (row : Z * Z * Z) :
  (rank, row) ∈ leaderboard_lines top
  ↔ (0 < rank)%nat ∧ top !! (rank - 1)%nat = Some row ∧ row.1.1 ≠ 0.
Proof.
  unfold leaderboard_lines. rewrite list_elem_of_filter. simpl.
  rewrite elem_of_lookup_imap. split.
  - intros [Hne (i & x & [= -> ->] & Hi)]. split_and!; [lia| |done].
    by replace (S i - 1)%nat with i by lia.
  - intros (Hr & Hi & Hne). split; [done|].
    exists (rank - 1)%nat, row. split; [|done]. f_equal. lia.
Qed.

Lemma leaderboard_lines_length top :
  (length (leaderboard_lines top) ≤ length top)%nat.
Proof.
  unfold leaderboard_lines. etrans; [apply length_filter|]. by rewrite length_imap.
Qed.

Lemma leaderboard_lines_nil top :
  leaderboard_lines top = [] ↔ ∀ row, row ∈ top → row.1.1 = 0.
Proof.
  split.
  - intros Hnil row Hin. destruct (decide (row.1.1 = 0)) as [|Hne]; [done|].
    apply list_elem_of_lookup in Hin as [i Hi].
    assert ((S i, row) ∈ leaderboard_lines top) as Hl.
    { apply leaderboard_lines_elem. split_and!; [lia| |done].
      by replace (S i - 1)%nat with i by lia. }
    rewrite Hnil in Hl. by apply not_elem_of_nil in Hl.
  - intros Hall. destruct (leaderboard_lines top) as [|[rank row] l] eqn:E; [done|].
    assert ((rank, row) ∈ leaderboard_lines top) as Hl by (rewrite E; left).
    apply leaderboard_lines_elem in Hl as (_ & Hi & Hne).
    destruct Hne. apply Hall. by eapply list_elem_of_lookup_2.
Qed.

(** X19: what [/gw leaderboard] sends, from the first 100 rows of the
    board.  It answers that no wins are recorded exactly when the guild has
    no win-count row.  Its lines are the rows with a user id other than 0,
    each with its rank on the board, so a skipped row leaves a gap in the
    ranks.  The lines are cut into pages of 25 in order: a single page is
    sent plain and holds all the lines; otherwise there are 2 to 4 pages,
    none empty, all but the last of exactly 25 lines, which joined give the
    lines back.  When the only row of the guild belongs to user id 0 there
    are rows but no page, and the command fails on [pages[0]]. *)
Theorem leaderboard_pages db guild :
  let top := top_winners db guild 100 in
  let lines := leaderboard_lines top in
  (leaderboard db guild = BoardNoWins ↔ ∀ u, win_counts db !! (guild, u) = None)
  ∧ (leaderboard db guild = BoardIndexError ↔
       is_Some (win_counts db !! (guild, 0))
       ∧ ∀ u, u ≠ 0 → win_counts db !! (guild, u) = None)
  ∧ (∀ page, leaderboard db guild = BoardOnePage page →
       page = lines ∧ (1 ≤ length page ≤ 25)%nat)
  ∧ (∀ pages, leaderboard db guild = BoardPaged pages →
       concat pages = lines ∧ (2 ≤ length pages ≤ 4)%nat
       ∧ ∀ i page, pages !! i = Some page →
           (1 ≤ length page ≤ 25)%nat
           ∧ ((S i < length pages)%nat → length page = 25%nat))
  ∧ (∀ rank row, (rank, row) ∈ lines ↔
       (0 < rank)%nat ∧ top !! (rank - 1)%nat = Some row ∧ row.1.1 ≠ 0).
Proof.
  intros top lines.
  destruct (top_winners_facts db guild 100) as (_ & Hnd & Hmem & Hlen & Hall).
  fold top in Hnd, Hmem, Hlen, Hall. specialize (Hlen ltac:(lia)).
  assert (top = [] ↔ ∀ u, win_counts db !! (guild, u) = None) as Hempty.
  { split.
    - intros Htop u. destruct (win_counts db !! (guild, u)) as [w|] eqn:Hw; [|done].
      destruct (Hall u w Hw) as [Hin|(_ & Hfull & _)].
      + rewrite Htop in Hin. by apply not_elem_of_nil in Hin.
      + rewrite Htop in Hfull. done.
    - intros Hnone. destruct top as [|[[u w] v] rest] eqn:E; [done|].
      destruct (Hmem u w v) as [Hw _]; [left|]. by rewrite Hnone in Hw. }
  assert (lines = [] ∧ top ≠ [] ↔
          is_Some (win_counts db !! (guild, 0))
          ∧ ∀ u, u ≠ 0 → win_counts db !! (guild, u) = None) as Hzero.
  { subst lines. rewrite leaderboard_lines_nil. split.
    - intros [Hz Hne]. split.
      + destruct top as [|[[u w] v] rest] eqn:E; [done|].
        assert (u = 0) as -> by (apply (Hz (u, w, v)); left).
        destruct (Hmem 0 w v) as [Hw _]; [left|]. by rewrite Hw.
      + intros u Hu. destruct (win_counts db !! (guild, u)) as [w|] eqn:Hw; [|done].
        destruct (Hall u w Hw) as [Hin|(_ & Hfull & _)].
        * by apply Hz in Hin.
        * assert (length top ≤ 1)%nat; [|unfold len in Hfull; lia].
          destruct top as [|a [|b rest]]; simpl; [lia..|].
          assert (a.1.1 = 0) as Ha by (apply Hz; left).
          assert (b.1.1 = 0) as Hb by (apply Hz; right; left).
          simpl in Hnd. apply NoDup_cons in Hnd as [Hx _]. destruct Hx.
          rewrite Ha, <- Hb. left.
    - intros [[w Hw] Hnone]. split.
      + intros [[u w'] v] Hin. simpl. apply Hmem in Hin as [Hw' _].
        destruct (decide (u = 0)) as [|Hne]; [done|].
        by rewrite (Hnone u Hne) in Hw'.
      + intros Htop. pose proof (proj1 Hempty Htop 0) as Hn. by rewrite Hn in Hw. }
  assert (length lines ≤ 100)%nat as Hll.
  { subst lines. etrans; [apply leaderboard_lines_length|]. unfold len in Hlen. lia. }
  assert (∀ i page, chunks 25 lines !! i = Some page →
            (1 ≤ length page ≤ 25)%nat
            ∧ ((S i < length (chunks 25 lines))%nat → length page = 25%nat)) as Hpage.
  { intros i page Hi. apply chunks_lookup in Hi as [-> Hi]; [|lia].
    rewrite length_take, length_drop. split; [lia|].
    unfold chunks. rewrite length_fmap, length_seq. intros HS.
    apply (ceil_div_bounds (length lines) 25 ltac:(lia)) in HS. lia. }
  assert ((length (chunks 25 lines) ≤ 4)%nat) as Hcount.
  { destruct (decide (length (chunks 25 lines) ≤ 4)%nat) as [|Hgt]; [done|].
    assert (4 < length (chunks 25 lines))%nat as H4 by lia.
    unfold chunks in H4. rewrite length_fmap, length_seq in H4.
    apply (ceil_div_bounds (length lines) 25 ltac:(lia)) in H4. lia. }
  assert (chunks 25 lines = [] ↔ lines = []) as Hnil.
  { split.
    - intros Hc. rewrite <- (chunks_concat 25 lines) by lia. by rewrite Hc.
    - by intros ->. }
  pose proof (chunks_concat 25 lines ltac:(lia)) as Hcat.
  unfold leaderboard. fold top. fold lines.
  split_and!.
  - case_bool_decide as Htop.
    + split; [intros _; by apply Hempty | done].
    + split; [by destruct (chunks 25 lines) as [|? [|? ?]] | by rewrite <- Hempty].
  - rewrite <- Hzero. case_bool_decide as Htop.
    + split; [done | by intros [_ ?]].
    + destruct (chunks 25 lines) as [|? [|? ?]] eqn:Hc.
      * split; [intros _; split; [by apply Hnil | done] | done].
      * split; [done|]. intros [Hl _]. by apply Hnil in Hl.
      * split; [done|]. intros [Hl _]. by apply Hnil in Hl.
  - intros page. case_bool_decide; [done|].
    destruct (chunks 25 lines) as [|p [|? ?]] eqn:Hc; try done.
    intros [= <-]. simpl in Hcat. rewrite app_nil_r in Hcat. split; [done|].
    apply (Hpage 0%nat p). done.
  - intros pages. case_bool_decide; [done|].
    destruct (chunks 25 lines) as [|p [|q rest]] eqn:Hc; try done.
    intros [= <-]. split_and!; [done | simpl; lia | done | done].
  - intros rank row. apply leaderboard_lines_elem.
Qed.

Lemma leaderboard_witness :
  [(1%nat, (2, 5, 1)); (2%nat, (1, 3, 0))] =
  leaderboard_lines
    (top_winners
       (mkDB [] 0 [] [] {[ (10, 1) := 3; (10, 2) := 5; (11, 3) := 9 ]}
          [(10, 2, 4)] []) 10 100)
  ∧ (1 ≤ length [(1%nat, (2, 5, 1)); (2%nat, (1, 3, 0))] ≤ 25)%nat.
Proof.
  apply (leaderboard_pages
           (mkDB [] 0 [] [] {[ (10, 1) := 3; (10, 2) := 5; (11, 3) := 9 ]}
              [(10, 2, 4)] []) 10).
  vm_compute. reflexivity.
Defined.

(** X20: the paging buttons of the leaderboard.  Whatever buttons are
    pressed on a view of at least one page, the number of pages stays and
    the page shown stays a valid index, so [pages[current_page]] never goes
    out of range.  A button is disabled exactly when pressing it would
    change nothing, and the two buttons undo each other whenever the first
    press moves. *)
Theorem view_stays_in_range pages (presses : list Button) :
  (1 ≤ pages)%nat →
  let v := foldl press (new_view pages) presses in
  n_pages v = pages
  ∧ (current_page v < pages)%nat
  ∧ (prev_disabled v = true ↔ prev_btn v = v)
  ∧ (next_disabled v = true ↔ next_btn v = v)
  ∧ (next_disabled v = false → prev_btn (next_btn v) = v)
  ∧ (prev_disabled v = false → next_btn (prev_btn v) = v).
Proof.
  intros Hp v.
  assert (n_pages v = pages ∧ (current_page v < pages)%nat) as [Hn Hc].
  { subst v. induction presses as [|b presses IH] using rev_ind; [simpl; lia|].
    rewrite foldl_app. simpl. destruct IH as [Hn Hc].
    destruct b; simpl; unfold prev_btn, next_btn; case_bool_decide; simpl; lia. }
  clearbody v. destruct v as [n c]. simpl in *. subst n.
  unfold prev_disabled, next_disabled, prev_btn, next_btn. simpl.
  split_and!; try done.
  - rewrite bool_decide_eq_true. case_bool_decide; split; try done; try lia.
    intros [= ?]. lia.
  - rewrite bool_decide_eq_true. case_bool_decide; split; try done; try lia.
    intros [= ?]. lia.
  - rewrite bool_decide_eq_false. intros Hlast.
    rewrite (bool_decide_eq_true_2 (Z.of_nat c < Z.of_nat pages - 1)) by lia.
    simpl. rewrite bool_decide_eq_true_2 by lia. f_equal. lia.
  - rewrite bool_decide_eq_false. intros Hfirst.
    rewrite (bool_decide_eq_true_2 (0 < c)%nat) by lia.
    simpl. rewrite bool_decide_eq_true_2 by lia. f_equal. lia.
Qed.

Lemma view_witness :
  current_page (foldl press (new_view 3) [NextButton; NextButton; NextButton; PrevButton])
  = 1%nat
  ∧ (current_page
       (foldl press (new_view 3) [NextButton; NextButton; NextButton; PrevButton])
     < 3)%nat.
Proof.
  split; [reflexivity|].
  apply (view_stays_in_range 3 [NextButton; NextButton; NextButton; PrevButton]).
  lia.
Defined.

(** X21: the vouch channel of a guild.  After [set_vouch_channel_id] with a
    channel id other than 0, [get_vouch_channel_id] returns that channel for
    the guild and [on_message] treats exactly that channel as the vouch
    channel: a message of the guild in any other channel is passed on to the
    commands and writes nothing.  A second setting replaces the first, the
    setting of another guild is not touched, and a guild without a row, or
    with NULL or 0 stored, falls back to the constant [VOUCH_CHANNEL_ID]. *)
Theorem vouch_channel_round_trip cfg guild c :
  c ≠ 0 →
  let cfg' := set_vouch_channel_id cfg guild (Some c) in
  get_vouch_channel_id cfg' guild = Some c
  ∧ vouch_channel cfg' guild = c
  ∧ (∀ guild', guild' ≠ guild →
       get_vouch_channel_id cfg' guild' = get_vouch_channel_id cfg guild')
  ∧ (∀ db author ch says, ch ≠ c →
       on_message db cfg' false (Some guild) author ch says = (db, MsgCommands))
  ∧ (∀ c', set_vouch_channel_id cfg' guild c' = set_vouch_channel_id cfg guild c')
  ∧ vouch_channel (set_vouch_channel_id cfg' guild None) guild = VOUCH_CHANNEL_ID
  ∧ vouch_channel (set_vouch_channel_id cfg' guild (Some 0)) guild = VOUCH_CHANNEL_ID
  ∧ (cfg !! guild = None → vouch_channel cfg guild = VOUCH_CHANNEL_ID).
Proof.
  intros Hc cfg'. subst cfg'.
  unfold vouch_channel, get_vouch_channel_id, set_vouch_channel_id.
  assert (∀ o : option Z, <[guild:=o]> (<[guild:=Some c]> cfg) = <[guild:=o]> cfg)
    as Hover by (intros o; apply insert_insert_eq).
  split_and!.
  - rewrite lookup_insert_eq. by rewrite bool_decide_eq_false_2.
  - rewrite lookup_insert_eq. by rewrite bool_decide_eq_false_2.
  - intros guild' Hne. by rewrite lookup_insert_ne.
  - intros db author ch says Hch. unfold on_message, vouch_channel,
      get_vouch_channel_id. rewrite lookup_insert_eq.
    rewrite (bool_decide_eq_false_2 (c = 0)) by done. simpl.
    by rewrite bool_decide_eq_false_2.
  - apply Hover.
  - by rewrite lookup_insert_eq.
  - rewrite lookup_insert_eq. by rewrite bool_decide_eq_true_2.
  - by intros ->.
Qed.

Lemma vouch_channel_witness :
  vouch_channel (set_vouch_channel_id ∅ 10 (Some 55)) 10 = 55.
Proof.
  apply (vouch_channel_round_trip ∅ 10 55). lia.
Defined.

(** ** The list of giveaways and the list of vouches *)

#[global] Instance newest_row_first_total : Total newest_row_first.
Proof. intros a b. unfold newest_row_first. lia. Qed.

#[global] Instance newest_row_first_trans : Transitive newest_row_first.
Proof. intros a b c. unfold newest_row_first. lia. Qed.

Lemma group_winners_lookup (rows : list (Z * Z)) (k : Z) :
  default [] (group_winners rows !! k) = select_user_id rows k.
Proof.
  unfold group_winners. induction rows as [|wr rows IH] using rev_ind; [done|].
  rewrite foldl_app. simpl. rewrite select_user_id_app.
  destruct (decide (k = wr.1)) as [->|Hne].
  - rewrite lookup_insert_eq. simpl. rewrite IH. f_equal.
    unfold select_user_id. by rewrite filter_cons_True.
  - rewrite lookup_insert_ne by done. rewrite IH.
    unfold select_user_id. rewrite filter_cons_False by done.
    simpl. by rewrite app_nil_r.
Qed.

(** X22: what [/gw list] shows.  It answers that no giveaways are found
    exactly when the guild has none.  Otherwise it shows the giveaways of
    the guild and no others, newest id first; the line of an ended giveaway
    names exactly the users with a winner row of that giveaway, in the order
    of the rows of the batched query, and the line of a running giveaway
    names no winners, also when a win was added to it by hand. *)
Theorem list_shows_guild_giveaways db guild :
  (list_ db guild = None ↔ ∀ g, g ∈ giveaways db → guild_id g ≠ guild)
  ∧ ∀ lines, list_ db guild = Some lines →
      StronglySorted newest_row_first lines.*1
      ∧ lines.*1 ≡ₚ filter (λ g, guild_id g = guild) (giveaways db)
      ∧ ∀ g ws, (g, ws) ∈ lines →
          ws = if bool_decide (status g = ended)
               then Some (get_winners db (id g)) else None.
Proof.
  unfold list_.
  set (mine := filter (λ g, guild_id g = guild) (giveaways db)).
  set (rows := merge_sort newest_row_first mine).
  assert (rows ≡ₚ mine) as Hperm by apply merge_sort_Permutation.
  assert (rows = [] ↔ ∀ g, g ∈ giveaways db → guild_id g ≠ guild) as Hnil.
  { split.
    - intros Hr g Hg Hgd. assert (g ∈ rows) as Hin.
      { rewrite Hperm. by apply list_elem_of_filter. }
      rewrite Hr in Hin. by apply not_elem_of_nil in Hin.
    - intros Hno. destruct rows as [|g l] eqn:E; [done|].
      assert (g ∈ mine) as Hin by (rewrite <- Hperm; left).
      apply list_elem_of_filter in Hin as [Hgd Hin]. by destruct (Hno g Hin). }
  case_bool_decide as Hrows.
  { split; [split; [intros _; by apply Hnil | done] | done]. }
  split; [split; [done | by intros ?%Hnil] |].
  intros lines [= <-].
  assert (∀ (f : Giveaway → Giveaway * option (list Z)) (l : list Giveaway),
            (∀ r, (f r).1 = r) → (f <$> l).*1 = l) as Hfst.
  { intros f l Hf. induction l as [|x l IH]; [done|].
    rewrite !fmap_cons, IH, Hf. done. }
  rewrite Hfst by done.
  split_and!; [apply StronglySorted_merge_sort; apply _ | done |].
  intros g ws (r & Heq & Hr)%list_elem_of_fmap. injection Heq as -> ->.
  case_bool_decide as Hst; [|done]. f_equal.
  rename r into g.
  assert (id g ∈ id <$> filter (λ r, status r = ended) rows) as Hid.
  { apply list_elem_of_fmap. exists g. split; [done|]. by apply list_elem_of_filter. }
  rewrite bool_decide_eq_true_2; cycle 1.
  { intros Hn. rewrite Hn in Hid. by apply not_elem_of_nil in Hid. }
  rewrite group_winners_lookup. unfold get_winners, select_user_id. f_equal.
  rewrite list_filter_filter. apply list_filter_iff. intros [a b]. simpl.
  split; [tauto|]. intros ->. done.
Qed.

Lemma list_witness :
  StronglySorted newest_row_first
    [(mkGiveaway 1 10 20 (Some 77) 30 "prize" 1 1060 ended, Some [7])].*1.
Proof.
  destruct (proj2 (list_shows_guild_giveaways
                     (exec_all (order := insertion_order) empty_db
                        [CmdOp (OpStart 10 20 30 (Some 60) 1 "prize" 1000 77);
                         CmdOp (OpJoin 1 10 7); CmdOp (OpEnd 10 1 [0%nat])])
                     10)
              [(mkGiveaway 1 10 20 (Some 77) 30 "prize" 1 1060 ended, Some [7])]
              eq_refl) as [H _].
  exact H.
Defined.

Lemma user_vouch_rows_NoDup db guild u :
  NoDup (id <$> giveaways db) → NoDup (vouches db) →
  NoDup ((g ← giveaways db;
          v ← vouches db;
          if bool_decide (id g = v.2 ∧ v.1 = (guild, u))
          then [(id g, prize g)] else []).*1).
Proof.
  intros Hids Hvs.
  generalize dependent (giveaways db). intros gs.
  induction gs as [|g gs IH]; intros Hids; [apply NoDup_nil_2|].
  rewrite fmap_cons in Hids. apply NoDup_cons in Hids as [Hg Hids].
  rewrite bind_cons, fmap_app. apply NoDup_app. split_and!.
  - clear IH. generalize dependent (vouches db). intros vs.
    induction vs as [|v vs IHv]; intros Hvs; [apply NoDup_nil_2|].
    apply NoDup_cons in Hvs as [Hv Hvs]. rewrite bind_cons, fmap_app.
    case_bool_decide as Hc; [|by apply IHv].
    simpl. apply NoDup_cons. split; [|by apply IHv].
    intros ([i p] & Hi & (v' & Hin & Hv')%list_elem_of_bind)%list_elem_of_fmap.
    case_bool_decide as Hc'; [|by apply not_elem_of_nil in Hin].
    apply Hv. destruct v as [k c], v' as [k' c']. simpl in *.
    destruct Hc as (<- & ->), Hc' as (<- & ->). done.
  - intros i ([i1 p1] & -> & (v & Hin & _)%list_elem_of_bind)%list_elem_of_fmap
      ([i2 p2] & Hi & (g' & Hin' & Hg')%list_elem_of_bind)%list_elem_of_fmap.
    case_bool_decide; [|by apply not_elem_of_nil in Hin].
    apply list_elem_of_singleton in Hin as [= -> ->].
    apply list_elem_of_bind in Hin' as (v' & Hin' & _).
    case_bool_decide; [|by apply not_elem_of_nil in Hin'].
    apply list_elem_of_singleton in Hin' as [= -> _]. simpl in Hi.
    apply Hg. rewrite Hi. apply list_elem_of_fmap. eauto.
  - by apply IH.
Qed.

Section VouchList.
Context {order : SetOrder}.

(** X23: what [/gw vouches] shows in any reachable state.  The list of
    [get_user_vouches] is ordered by giveaway id, newest first, names no
    giveaway twice, and holds exactly the giveaways the user has a vouch row
    for in the guild, with their prizes.  Its length, shown as the total, is
    the number of vouch rows that the join gate and the leaderboard count,
    because a vouch row never outlives its giveaway. *)
Theorem vouch_list_matches_count cs guild u :
  let db := exec_all empty_db cs in
  let shown := get_user_vouches db guild u in
  StronglySorted newer_first shown
  ∧ NoDup shown.*1
  ∧ (∀ gid p, (gid, p) ∈ shown ↔
       (guild, u, gid) ∈ vouches db
       ∧ ∃ g, fetch_giveaway db gid = Some g ∧ prize g = p)
  ∧ len shown = vouch_count db guild u.
Proof.
  intros db shown.
  assert (integrity db) as Hint by (apply exec_all_sound; apply empty_sound).
  pose proof Hint as (Hids & _ & _ & _ & Hvs & _).
  assert (NoDup shown.*1) as Hnd.
  { subst shown. unfold get_user_vouches. rewrite merge_sort_Permutation.
    by apply user_vouch_rows_NoDup. }
  split_and!.
  - apply StronglySorted_merge_sort; apply _.
  - done.
  - intros gid p. subst shown. rewrite user_vouches_elem. split.
    + intros (g & Hg & Hid & Hp & Hv). split; [done|]. exists g.
      split; [|done]. by apply fetch_giveaway_iff.
    + intros (Hv & g & Hg & Hp). apply fetch_giveaway_Some in Hg as [Hg Hid].
      exists g. done.
  - unfold vouch_count, len. f_equal.
    rewrite <- (length_fmap fst shown).
    rewrite <- (length_fmap snd (filter _ (vouches db))).
    apply Permutation_length, NoDup_Permutation; [done| |].
    + apply NoDup_fmap_2_strong; [|by apply NoDup_filter].
      intros [k1 c1] [k2 c2] [Hk1 _]%list_elem_of_filter
        [Hk2 _]%list_elem_of_filter Hc. simpl in *. by subst.
    + intros gid. subst shown. rewrite (user_vouches_ids db guild u gid Hint).
      rewrite list_elem_of_fmap. split.
      * intros Hv. exists (guild, u, gid). split; [done|].
        by apply list_elem_of_filter.
      * intros ([[a b] c] & -> & [Hk Hin]%list_elem_of_filter).
        simpl in Hk. by injection Hk as -> ->.
Qed.

End VouchList.

(** ** Winning, the gate and the vouch *)

Section Locked.
Context {order : SetOrder}.

(** X24: winning locks the gate until the vouch.  Take a user whose stored
    wins equal their vouches in the guild, so that the gate lets them
    through, and who has neither a vouch nor a block for a giveaway.  When
    [/gw end] closes that giveaway and announces the user, every press of
    Join by that user in the guild is refused, with one win more than
    vouches; [/gw vouch] for the giveaway is then recorded, and after it no
    press of Join by that user in the guild is refused. *)
Theorem winner_locked_until_vouch db guild gid draws db1 ws u :
  end_ db guild gid draws = (db1, EndDone ws) →
  u ∈ ws →
  stored_wins db guild u = vouch_count db guild u →
  (guild, u, gid) ∉ vouches db →
  (guild, u, gid) ∉ vouch_blocks db →
  let w := vouch_count db guild u in
  (∀ gid', join db1 gid' guild u = (db1, JoinRefused (w + 1) w))
  ∧ (vouch db1 guild u gid).2 = VouchRecorded
  ∧ ∀ gid', (join (vouch db1 guild u gid).1 gid' guild u).2 = JoinAlreadyIn
            ∨ (join (vouch db1 guild u gid).1 gid' guild u).2 = JoinedNow.
Proof.
  intros Hend Hu Hgate Hnv Hnb w.
  unfold end_ in Hend.
  destruct (fetch_giveaway db gid) as [g|] eqn:Hg; [|done].
  case_bool_decide as Hgd; [done|]. case_bool_decide as Hst; [done|].
  destruct (close_giveaway db g draws) as [r|] eqn:Hc; [|done].
  injection Hend as <- <-.
  pose proof (fetch_giveaway_Some _ _ _ Hg) as [Hin Hid].
  destruct (close_giveaway_Some _ _ _ _ Hc) as (Hnd & _ & Hdb1).
  rewrite Hid, Hgd in Hdb1.
  assert (stored_wins r.1 guild u = w + 1) as Hw1.
  { rewrite Hdb1. unfold stored_wins. simpl.
    rewrite foldl_upsert_stored by done. rewrite decide_True by done.
    fold (stored_wins db guild u). rewrite Hgate. done. }
  assert (vouch_count r.1 guild u = w) as Hv1 by (by rewrite Hdb1).
  assert (∀ gid', join r.1 gid' guild u = (r.1, JoinRefused (w + 1) w)) as Hrefused.
  { intros gid'. unfold join. rewrite Hw1, Hv1.
    by rewrite bool_decide_eq_true_2 by lia. }
  assert (vouches r.1 = vouches db) as Hvs by (by rewrite Hdb1).
  assert (vouch_blocks r.1 = vouch_blocks db) as Hbs by (by rewrite Hdb1).
  assert (fetch_giveaway r.1 gid = Some (set_status g ended)) as Hg1.
  { rewrite Hdb1, fetch_set_status, decide_True by done.
    rewrite (fetch_same_rows db _ gid) by done. by rewrite Hg. }
  assert (u ∈ get_winners r.1 gid) as Hwin.
  { rewrite Hdb1. unfold get_winners. simpl.
    rewrite select_foldl_insert, decide_True by done.
    apply foldl_insert_elem. by right. }
  assert (gid ∉ (get_user_vouches r.1 guild u).*1) as Hnone.
  { intros ([gid' p] & -> & Hx)%list_elem_of_fmap.
    apply user_vouches_elem in Hx as (_ & _ & _ & _ & Hx). simpl in Hx.
    by rewrite Hvs in Hx. }
  assert (vouch r.1 guild u gid =
          (with_vouches r.1 (vouches r.1 ++ [(guild, u, gid)]), VouchRecorded))
    as Hvouch.
  { unfold vouch. rewrite Hbs.
    rewrite (bool_decide_eq_false_2 (_ ∈ vouch_blocks db)) by done.
    rewrite Hg1. simpl guild_id.
    rewrite (bool_decide_eq_false_2 (guild_id g ≠ guild))
      by (intros Hx; by apply Hx).
    rewrite (bool_decide_eq_false_2 (u ∉ get_winners r.1 gid))
      by (intros Hx; by apply Hx).
    rewrite (bool_decide_eq_false_2 (gid ∈ _)) by done.
    unfold add_vouch.
    assert (giveaway_exists r.1 gid = true) as ->.
    { apply giveaway_exists_fetch. by rewrite Hg1. }
    rewrite orb_true_r. unfold insert_or_ignore.
    rewrite bool_decide_eq_false_2 by (by rewrite Hvs). done. }
  split_and!; [done | by rewrite Hvouch |].
  intros gid'. rewrite Hvouch. cbn [fst]. unfold join.
  assert (stored_wins (with_vouches r.1 (vouches r.1 ++ [(guild, u, gid)])) guild u
          = w + 1) as -> by exact Hw1.
  assert (vouch_count (with_vouches r.1 (vouches r.1 ++ [(guild, u, gid)])) guild u
          = w + 1) as ->.
  { unfold vouch_count, len. simpl. rewrite filter_app, length_app.
    rewrite filter_cons_True by done. simpl.
    unfold vouch_count, len in Hv1. lia. }
  rewrite bool_decide_eq_false_2 by lia.
  case_bool_decide; simpl; tauto.
Qed.

End Locked.

Lemma winner_locked_witness :
  (vouch
     (end_ (order := insertion_order)
        (exec_all (order := insertion_order) empty_db
           [CmdOp (OpStart 10 20 30 (Some 60) 1 "prize" 1000 77);
            CmdOp (OpJoin 1 10 7)]) 10 1 [0%nat]).1 10 7 1).2 = VouchRecorded.
Proof.
  refine (proj1 (proj2 (winner_locked_until_vouch (order := insertion_order)
            (exec_all (order := insertion_order) empty_db
               [CmdOp (OpStart 10 20 30 (Some 60) 1 "prize" 1000 77);
                CmdOp (OpJoin 1 10 7)])
            10 1 [0%nat] _ [7] 7 eq_refl _ eq_refl _ _))).
  - left.
  - vm_compute. by intros ?%not_elem_of_nil.
  - vm_compute. by intros ?%not_elem_of_nil.
Defined.
